(** * cdk-imports-swap: the matching-and-rewrite engine, embedded and verified

    Source: [src/cdk-imports-swap.ts].  The script reads the synthesized
    CloudFormation templates, catalogs their exports, pairs every
    [ExportsOutputFn*] export with a named export of the same value and
    rewrites the [Fn::ImportValue] references accordingly.

    Modelling conventions.
    - A value met by the script is a [json] tree: the values [JSON.parse]
      returns, and the two kinds of objects of the platform that the
      script can pick up through the prototype of a plain object and
      store in a tree, [Object.prototype] itself and the built-in
      functions it holds ([JHost]).  A mapping node carries its own
      enumerable properties as an association list in [Object.entries]
      order.  [undefined] (an absent property) is [None] in
      [option json].
    - Numeric scalars are integers, printed in decimal; the
      floating-point side of JSON numbers (fractions, non-finite values,
      negative zero) is outside the model.  Strings are sequences of
      8-bit code units.
    - The plain objects the script uses as dictionaries
      ([Record<string, _>]) are association lists of their own properties,
      kept in the property order of the engine.  Their prototype is
      [Object.prototype]: a read finds its members when the dictionary
      has no own property of that name ([replacementFor]), and a write
      under [__proto__] reaches its setter and creates no own property
      ([setProp]).
    - A value used as a property key is converted by [ToString]; the
      conversion of a mapping that has an own property [toString], which
      throws, is outside the model.
    - A document tree has no sharing, so the in-place mutation done by
      [replaceImportsInObject] is rendered by returning the updated tree
      next to the boolean result.
    - [JSON.parse] belongs to the platform: the development is parametric
      in it.  A failing call of the file system throws a system error,
      whatever its code.  [main] starts from the list of template files,
      which [findTemplateFiles] computes from the directories, and returns
      the counters it prints; console output and the resource limits of
      the engine (the depth of the call stack) are outside the model. *)

From Stdlib Require Import List String Ascii ZArith NArith Bool Arith Lia.
From Stdlib Require Decimal DecimalString DecimalPos DecimalZ.
Import ListNotations.

Local Open Scope string_scope.
Local Open Scope list_scope.

(** ** Values *)

(** The objects of the platform reachable from a plain object through
    its prototype: [Object.prototype], and the built-in functions that
    are its members, identified by their [name]. *)
Inductive HostObject : Type :=
| ObjectPrototype
| BuiltinFunction (name : string).

Unset Elimination Schemes.
Inductive json : Type :=
| JNull
| JBool (b : bool)
| JNum (n : Z)
| JStr (s : string)
| JArr (elements : list json)
| JObj (properties : list (string * json))
| JHost (h : HostObject).
Set Elimination Schemes.

(** The value of a JavaScript expression of type [any] that was read out
    of a tree: a value or [undefined]. *)
Definition any : Type := option json.

Definition undefined : any := None.

(** ** Exceptions and the error monad *)

Inductive exn : Type :=
| SyntaxError   (* JSON.parse on malformed text *)
| TypeError     (* property read on null *)
| SystemError.  (* a failing call of fs: ENOENT, EISDIR, ENOTDIR, ... *)

Definition result (A : Type) : Type := exn + A.

Definition ret {A} (a : A) : result A := inr a.
Definition throw {A} (e : exn) : result A := inl e.
Definition bind {A B} (m : result A) (k : A -> result B) : result B :=
  match m with
  | inl e => inl e
  | inr a => k a
  end.

Notation "x <- m ;; k" := (bind m (fun x => k))
  (at level 61, m at next level, right associativity).

(** ** The JavaScript operations the script relies on *)

(** [ToBoolean]. *)
Definition truthy (v : any) : bool :=
  match v with
  | None => false
  | Some JNull => false
  | Some (JBool b) => b
  | Some (JNum n) => negb (n =? 0)%Z
  | Some (JStr s) => negb (s =? "")
  | Some (JArr _) => true
  | Some (JObj _) => true
  | Some (JHost _) => true
  end.

(** First entry of an association list under a key. *)
Fixpoint lookup {A} (k : string) (l : list (string * A)) : option A :=
  match l with
  | [] => None
  | (k', a) :: l' => if k' =? k then Some a else lookup k l'
  end.

(** [v.name] / [v[name]] for the property names the script reads from a
    tree ([Outputs], [Export], [Name], [Value], [Fn::ImportValue]), none
    of which is inherited from a prototype: own property of a mapping,
    [undefined] on the other values, a [TypeError] on [null]. *)
Definition getProp (v : json) (name : string) : result any :=
  match v with
  | JNull => throw TypeError
  | JObj l => ret (lookup name l)
  | _ => ret undefined
  end.

(** The same read on a value that may be [undefined]. *)
Definition getPropAny (v : any) (name : string) : result any :=
  match v with
  | None => throw TypeError
  | Some j => getProp j name
  end.

(** [String.prototype.startsWith]. *)
Definition startsWith (s p : string) : bool := String.prefix p s.

(** [String.prototype.includes]. *)
Fixpoint includes (s sub : string) : bool :=
  String.prefix sub s ||
  match s with
  | EmptyString => false
  | String _ s' => includes s' sub
  end.

(** Decimal text of an integer and of an array index. *)
Definition Z_toString (n : Z) : string := DecimalString.NilEmpty.string_of_int (Z.to_int n).
Definition N_toString (n : N) : string := Z_toString (Z.of_N n).
Definition index_toString (i : nat) : string := Z_toString (Z.of_nat i).

(** [Array.prototype.join]. *)
Fixpoint join (sep : string) (l : list string) : string :=
  match l with
  | [] => ""
  | [s] => s
  | s :: l' => s ++ sep ++ join sep l'
  end.

(** [ToString], as applied when a value is used as a property key.  A
    mapping is converted by [Object.prototype.toString] (it has no own
    property [toString], see the conventions), an array by
    [Array.prototype.join], a function by [Function.prototype.toString]. *)
Fixpoint ToString (v : json) : string :=
  match v with
  | JNull => "null"
  | JBool true => "true"
  | JBool false => "false"
  | JNum n => Z_toString n
  | JStr s => s
  | JArr l =>
      join "," (map (fun x => match x with JNull => "" | _ => ToString x end) l)
  | JObj _ => "[object Object]"
  | JHost ObjectPrototype => "[object Object]"
  | JHost (BuiltinFunction name) => "function " ++ name ++ "() { [native code] }"
  end.

Definition ToPropertyKey (v : any) : string :=
  match v with
  | None => "undefined"
  | Some j => ToString j
  end.

(** The elements of an array paired with their index keys. *)
Fixpoint indexed_from (i : nat) (l : list json) : list (string * json) :=
  match l with
  | [] => []
  | v :: l' => (index_toString i, v) :: indexed_from (S i) l'
  end.

Fixpoint chars_from (i : nat) (s : string) : list (string * json) :=
  match s with
  | EmptyString => []
  | String c s' => (index_toString i, JStr (String c "")) :: chars_from (S i) s'
  end.

(** [Object.entries] on a value that is not [null] or [undefined] (on
    those it throws; every call site of the script excludes them).  The
    properties of the host objects are not enumerable. *)
Definition Object_entries (v : json) : list (string * json) :=
  match v with
  | JObj l => l
  | JArr l => indexed_from 0 l
  | JStr s => chars_from 0 s
  | _ => []
  end.

Definition Object_values (v : json) : list json := map snd (Object_entries v).

(** ** Property order of plain objects

    [OrdinaryOwnPropertyKeys]: array-index keys in ascending numeric
    order first, then the other string keys in creation order.  Writing
    an existing key keeps its position. *)

(** The numeric value of a key that is an array index: a canonical
    decimal numeral below [2^32 - 1]. *)
Definition arrayIndex (k : string) : option N :=
  match DecimalString.NilEmpty.uint_of_string k with
  | Some d =>
      let n := N.of_uint d in
      if (N_toString n =? k) && (n <? 4294967295)%N then Some n else None
  | None => None
  end.

Fixpoint replaceAt {A} (k : string) (a : A) (l : list (string * A)) : list (string * A) :=
  match l with
  | [] => []
  | (k', a') :: l' =>
      if k' =? k then (k', a) :: l' else (k', a') :: replaceAt k a l'
  end.

Fixpoint insertIndex {A} (n : N) (k : string) (a : A) (l : list (string * A)) : list (string * A) :=
  match l with
  | [] => [(k, a)]
  | (k', a') :: l' =>
      match arrayIndex k' with
      | Some m => if (m <? n)%N then (k', a') :: insertIndex n k a l' else (k, a) :: l
      | None => (k, a) :: l
      end
  end.

(** [o[k] = a] on a plain object, be it a dictionary of the script or a
    mapping of a tree.  An own property is overwritten in place.  When
    the object has no own property [k], the assignment looks [k] up in
    the prototype: the members of [Object.prototype] are writable data
    properties, which the assignment shadows by a new own property, but
    for [__proto__], an accessor whose setter replaces the prototype of
    the object (when [a] is an object) or does nothing, and in both
    cases creates no own property. *)
Definition setProp {A} (k : string) (a : A) (l : list (string * A)) : list (string * A) :=
  match lookup k l with
  | Some _ => replaceAt k a l
  | None =>
      if k =? "__proto__" then l
      else
        match arrayIndex k with
        | Some n => insertIndex n k a l
        | None => l ++ [(k, a)]
        end
  end.

(** [Object.assign(target, source)]. *)
Definition Object_assign {A} (target source : list (string * A)) : list (string * A) :=
  fold_left (fun t kv => setProp (fst kv) (snd kv) t) source target.

(** The members of [Object.prototype], by name: what [o[name]] returns
    for a plain object [o] that has no own property [name] and whose
    prototype is [Object.prototype].  The getter of [__proto__] returns
    the prototype of [o]. *)
Definition ObjectPrototype_get (name : string) : option json :=
  if name =? "constructor" then Some (JHost (BuiltinFunction "Object"))
  else if name =? "__proto__" then Some (JHost ObjectPrototype)
  else if existsb (String.eqb name)
            ["__defineGetter__"; "__defineSetter__"; "hasOwnProperty";
             "__lookupGetter__"; "__lookupSetter__"; "isPrototypeOf";
             "propertyIsEnumerable"; "toString"; "valueOf"; "toLocaleString"]
       then Some (JHost (BuiltinFunction name))
  else None.

(** ** [JSON.stringify] *)

Definition chars (s : string) : list ascii := list_ascii_of_string s.

Definition dquote : ascii := "034"%char.
Definition backslash : ascii := "092"%char.
Definition newline : ascii := "010"%char.

Definition hexDigit (n : nat) : ascii :=
  nth n (chars "0123456789abcdef") "0"%char.

(** One code unit inside [QuoteJSONString]. *)
Definition QuoteChar (c : ascii) : list ascii :=
  let n := nat_of_ascii c in
  if (n =? 8)%nat then [backslash; "b"%char]
  else if (n =? 9)%nat then [backslash; "t"%char]
  else if (n =? 10)%nat then [backslash; "n"%char]
  else if (n =? 12)%nat then [backslash; "f"%char]
  else if (n =? 13)%nat then [backslash; "r"%char]
  else if (n =? 34)%nat then [backslash; dquote]
  else if (n =? 92)%nat then [backslash; backslash]
  else if (n <? 32)%nat then
    [backslash; "u"%char; "0"%char; "0"%char; hexDigit (n / 16); hexDigit (n mod 16)]
  else [c].

Definition QuoteJSONString (s : string) : list ascii :=
  dquote :: flat_map QuoteChar (chars s) ++ [dquote].

Fixpoint joinChars (sep : list ascii) (parts : list (list ascii)) : list ascii :=
  match parts with
  | [] => []
  | [p] => p
  | p :: rest => p ++ sep ++ joinChars sep rest
  end.

(** The common tail of [SerializeJSONObject] and [SerializeJSONArray]:
    [stepback] is the indentation of the enclosing level, [gap] the unit
    of indentation (empty for the compact form). *)
Definition wrapParts (opening closing : ascii) (gap stepback : list ascii)
    (partial : list (list ascii)) : list ascii :=
  match partial with
  | [] => [opening; closing]
  | _ =>
      match gap with
      | [] => opening :: joinChars [","%char] partial ++ [closing]
      | _ =>
          let indent := stepback ++ gap in
          opening :: newline :: indent
            ++ joinChars (","%char :: newline :: indent) partial
            ++ newline :: stepback ++ [closing]
      end
  end.

(** [SerializeJSONProperty]: the text of a value, or [undefined] ([None])
    for a function.  A property whose value has no text is left out of
    its mapping; an element without text is written [null].
    [Object.prototype] has no enumerable property and no [toJSON]. *)
Fixpoint SerializeJSONProperty (gap indent : list ascii) (v : json)
    : option (list ascii) :=
  match v with
  | JNull => Some (chars "null")
  | JBool true => Some (chars "true")
  | JBool false => Some (chars "false")
  | JNum n => Some (chars (Z_toString n))
  | JStr s => Some (QuoteJSONString s)
  | JArr l =>
      Some (wrapParts "["%char "]"%char gap indent
              (map (fun x =>
                      match SerializeJSONProperty gap (indent ++ gap) x with
                      | Some text => text
                      | None => chars "null"
                      end) l))
  | JObj l =>
      Some (wrapParts "{"%char "}"%char gap indent
              (flat_map (fun kv =>
                           match SerializeJSONProperty gap (indent ++ gap) (snd kv) with
                           | Some text =>
                               [QuoteJSONString (fst kv) ++ ":"%char ::
                                  match gap with [] => [] | _ => [" "%char] end
                                  ++ text]
                           | None => []
                           end) l))
  | JHost ObjectPrototype => Some (wrapParts "{"%char "}"%char gap indent [])
  | JHost (BuiltinFunction _) => None
  end.

(** [JSON.stringify(v)]: [undefined] for [undefined] and for a function. *)
Definition JSON_stringify (v : any) : option string :=
  match v with
  | Some j => option_map string_of_list_ascii (SerializeJSONProperty [] [] j)
  | None => None
  end.

(** [JSON.stringify(v, null, space)] on a tree that is not a function
    (the script passes the root of a document it has rewritten, a
    mapping or an array). *)
Definition JSON_stringify_space (v : json) (space : nat) : string :=
  match SerializeJSONProperty (repeat " "%char (Nat.min space 10)) [] v with
  | Some text => string_of_list_ascii text
  | None => ""
  end.

(** [a === b] on two results of [JSON.stringify]. *)
Definition strictEqual (a b : option string) : bool :=
  match a, b with
  | None, None => true
  | Some x, Some y => x =? y
  | _, _ => false
  end.

(** ** The script: data *)

Definition ExportsOutputFn : string := "ExportsOutputFn".
Definition Fn_ImportValue : string := "Fn::ImportValue".

Record ExportsOutputFnData : Type := {
  exportName : any;
  value : any
}.

Record NamedExportData : Type := {
  key : string;
  named_value : any
}.

Record ImportData : Type := {
  path : string;
  import_value : string
}.

Record AnalysisResult : Type := {
  exportsOutputFn : list (string * ExportsOutputFnData);
  namedExports : list (string * NamedExportData);
  imports : list ImportData;
  content : json;
  filePath : string
}.

(** ** [analyzeTemplate] *)

(** [path ? `${path}.${key}` : key] *)
Definition childPath (path key : string) : string :=
  if path =? "" then key else path ++ "." ++ key.

(** The test at the head of [findImports] on one node. *)
Definition importAt (obj : json) (path : string) : list ImportData :=
  match obj with
  | JObj l =>
      let importValue := lookup Fn_ImportValue l in
      if truthy importValue then
        match importValue with
        | Some (JStr s) =>
            if includes s ExportsOutputFn
            then [{| path := path; import_value := s |}]
            else []
        | _ => []
        end
      else []
  | _ => []
  end.

(** The pushes [findImports(obj, path)] makes on [imports], in order
    (lines 71-84). *)
Fixpoint findImports (obj : json) (path : string) {struct obj} : list ImportData :=
  match obj with
  | JObj l =>
      importAt obj path ++
      (fix inProperties (l : list (string * json)) : list ImportData :=
         match l with
         | [] => []
         | (k, v) :: l' => findImports v (childPath path k) ++ inProperties l'
         end) l
  | JArr l =>
      (fix inElements (i : nat) (l : list json) : list ImportData :=
         match l with
         | [] => []
         | v :: l' =>
             findImports v (childPath path (index_toString i)) ++ inElements (S i) l'
         end) 0 l
  | _ => []
  end.

Fixpoint foldM {A B} (f : B -> A -> result B) (l : list A) (b : B) : result B :=
  match l with
  | [] => ret b
  | a :: l' => b' <- f b a ;; foldM f l' b'
  end.

Fixpoint mapM {A B} (f : A -> result B) (l : list A) : result (list B) :=
  match l with
  | [] => ret []
  | a :: l' => b <- f a ;; bs <- mapM f l' ;; ret (b :: bs)
  end.

Definition Exports : Type :=
  (list (string * ExportsOutputFnData) * list (string * NamedExportData))%type.

(** One turn of the loop over [Object.entries(outputs)] (lines 56-68). *)
Definition scanOutput (st : Exports) (entry : string * json) : result Exports :=
  let '(k, output) := entry in
  export <- getProp output "Export" ;;
  if startsWith k ExportsOutputFn && truthy export then
    name <- getPropAny export "Name" ;;
    v <- getProp output "Value" ;;
    ret (setProp k {| exportName := name; value := v |} (fst st), snd st)
  else if truthy export && negb (startsWith k ExportsOutputFn) then
    name <- getPropAny export "Name" ;;
    v <- getProp output "Value" ;;
    ret (fst st, setProp (ToPropertyKey name) {| key := k; named_value := v |} (snd st))
  else ret st.

(** [content.Outputs || {}] *)
Definition outputsOf (content : json) : result json :=
  o <- getProp content "Outputs" ;;
  ret (if truthy o then match o with Some j => j | None => JObj [] end else JObj []).

(** [analyzeTemplate] after the file has been read and parsed
    (lines 49-88). *)
Definition analyzeContent (file : string) (tree : json) : result AnalysisResult :=
  outputs <- outputsOf tree ;;
  exports <- foldM scanOutput (Object_entries outputs) ([], []) ;;
  ret {| exportsOutputFn := fst exports;
         namedExports := snd exports;
         imports := findImports tree "";
         content := tree;
         filePath := file |}.

(** ** [findMatchingNamedExport] (lines 91-99) *)

Fixpoint firstMatch (text : option string) (l : list (string * NamedExportData)) : option string :=
  match l with
  | [] => None
  | (name, namedExport) :: l' =>
      if strictEqual (JSON_stringify (named_value namedExport)) text
      then Some name
      else firstMatch text l'
  end.

Definition findMatchingNamedExport (exportsOutputFnKey : string)
    (exportsOutputFnValue : any)
    (allNamedExports : list (string * NamedExportData)) : option string :=
  firstMatch (JSON_stringify exportsOutputFnValue) allNamedExports.

(** ** [replaceImportsInObject] *)

Definition Replacements : Type := list (string * string).

(** [replacements[name]] when it is truthy: the name stored under the own
    property [name], or, when the dictionary has no such property, the
    member [name] of its prototype [Object.prototype]. *)
Definition replacementFor (replacements : Replacements) (name : string) : option json :=
  match lookup name replacements with
  | Some n => if n =? "" then None else Some (JStr n)
  | None => ObjectPrototype_get name
  end.

(** The test at the head of [replaceImportsInObject] on one node: the
    value to store when both conditions hold. *)
Definition replacementAt (replacements : Replacements) (obj : json) : option json :=
  match obj with
  | JObj l =>
      let importValue := lookup Fn_ImportValue l in
      if truthy importValue then
        match importValue with
        | Some (JStr s) => replacementFor replacements s
        | _ => None
        end
      else None
  | _ => None
  end.

(** The tree left behind by the call and the boolean it returns
    (lines 101-120). *)
Fixpoint replaceImportsInObject (obj : json) (replacements : Replacements)
    {struct obj} : json * bool :=
  match obj with
  | JObj l =>
      match replacementAt replacements obj with
      | Some v => (JObj (setProp Fn_ImportValue v l), true)
      | None =>
          let r :=
            (fix inProperties (l : list (string * json)) : list (string * json) * bool :=
               match l with
               | [] => ([], false)
               | (k, v) :: l' =>
                   let r1 := replaceImportsInObject v replacements in
                   let r2 := inProperties l' in
                   ((k, fst r1) :: fst r2, snd r1 || snd r2)
               end) l in
          (JObj (fst r), snd r)
      end
  | JArr l =>
      let r :=
        (fix inElements (l : list json) : list json * bool :=
           match l with
           | [] => ([], false)
           | v :: l' =>
               let r1 := replaceImportsInObject v replacements in
               let r2 := inElements l' in
               (fst r1 :: fst r2, snd r1 || snd r2)
           end) l in
      (JArr (fst r), snd r)
  | _ => (obj, false)
  end.

(** ** [main] *)

(** The regular files under [cdk.out] that can be read, by path, with
    their text. *)
Definition FileSystem : Type := list (string * string).

(** [fs.readFileSync(file, 'utf8')]: a path that holds no readable file
    (a missing path, a directory) makes the call throw. *)
Definition readFileSync (fs : FileSystem) (file : string) : result string :=
  match lookup file fs with
  | Some text => ret text
  | None => throw SystemError
  end.

Definition writeFileSync (file text : string) (fs : FileSystem) : FileSystem :=
  match lookup file fs with
  | Some _ => replaceAt file text fs
  | None => fs ++ [(file, text)]
  end.

(** [Object.assign(allNamedExports, analysis.namedExports)] over all
    analyses (lines 137-140). *)
Definition collectNamedExports (analyses : list AnalysisResult)
    : list (string * NamedExportData) :=
  fold_left (fun all analysis => Object_assign all (namedExports analysis)) analyses [].

(** The body of the inner matching loop (lines 150-155): [replacements]
    and [matchCount] after one synthetic export. *)
Definition matchExport (allNamedExports : list (string * NamedExportData))
    (st : Replacements * nat) (entry : string * ExportsOutputFnData)
    : Replacements * nat :=
  let '(exportsKey, exportsData) := entry in
  match findMatchingNamedExport exportsKey (value exportsData) allNamedExports with
  | Some matchingNamed =>
      if matchingNamed =? "" then st
      else (setProp (ToPropertyKey (exportName exportsData)) matchingNamed (fst st),
            S (snd st))
  | None => st
  end.

Definition findReplacements (analyses : list AnalysisResult)
    (allNamedExports : list (string * NamedExportData)) : Replacements * nat :=
  fold_left
    (fun st analysis => fold_left (matchExport allNamedExports) (exportsOutputFn analysis) st)
    analyses ([], 0).

(** What the run leaves behind and prints. *)
Record Report : Type := {
  matchCount : nat;
  totalReplacements : nat;
  updated : list string;        (* files written, in order *)
  documents : list (string * json)   (* the trees in memory at the end *)
}.

Record ApplyState : Type := {
  disk : FileSystem;
  replaced : nat;
  written : list string;
  trees : list (string * json)
}.

(** The imports of one analysis that the loop at lines 171-177 counts. *)
Definition resolvedImports (replacements : Replacements) (analysis : AnalysisResult)
    : list ImportData :=
  filter (fun i =>
            match replacementFor replacements (import_value i) with
            | Some _ => true
            | None => false
            end) (imports analysis).

(** One turn of the loop that applies the replacements (lines 168-186). *)
Definition applyReplacements (replacements : Replacements) (st : ApplyState)
    (analysis : AnalysisResult) : ApplyState :=
  let hits := resolvedImports replacements analysis in
  let fileChanged := match hits with [] => false | _ => true end in
  let total := replaced st + List.length hits in
  if fileChanged then
    let r := replaceImportsInObject (content analysis) replacements in
    if snd r then
      {| disk := writeFileSync (filePath analysis) (JSON_stringify_space (fst r) 1) (disk st);
         replaced := total;
         written := written st ++ [filePath analysis];
         trees := trees st ++ [(filePath analysis, fst r)] |}
    else
      {| disk := disk st; replaced := total; written := written st;
         trees := trees st ++ [(filePath analysis, fst r)] |}
  else
    {| disk := disk st; replaced := total; written := written st;
       trees := trees st ++ [(filePath analysis, content analysis)] |}.

(** [main] from the end of the analysis on (lines 136-188). *)
Definition optimize (analyses : list AnalysisResult) (fs : FileSystem)
    : Report * FileSystem :=
  let allNamedExports := collectNamedExports analyses in
  let found := findReplacements analyses allNamedExports in
  let untouched := map (fun a => (filePath a, content a)) analyses in
  if (snd found =? 0)%nat then
    ({| matchCount := 0; totalReplacements := 0; updated := [];
        documents := untouched |}, fs)
  else
    let st :=
      fold_left (applyReplacements (fst found)) analyses
        {| disk := fs; replaced := 0; written := []; trees := [] |} in
    ({| matchCount := snd found; totalReplacements := replaced st;
        updated := written st; documents := trees st |}, disk st).

(** The pipeline on a set of parsed documents. *)
Definition pipeline (docs : list (string * json)) : result Report :=
  analyses <- mapM (fun d => analyzeContent (fst d) (snd d)) docs ;;
  ret (fst (optimize analyses [])).

Section Main.

Variable JSON_parse : string -> option json.

Definition analyzeTemplate (fs : FileSystem) (file : string) : result AnalysisResult :=
  text <- readFileSync fs file ;;
  tree <- match JSON_parse text with
          | Some j => ret j
          | None => throw SyntaxError
          end ;;
  analyzeContent file tree.

(** The outcome of the run and the files after it. *)
Definition main (templateFiles : list string) (fs : FileSystem)
    : result Report * FileSystem :=
  match mapM (analyzeTemplate fs) templateFiles with
  | inl e => (inl e, fs)
  | inr analyses =>
      let r := optimize analyses fs in
      (inr (fst r), snd r)
  end.

End Main.

(** ** Reasoning support *)

(** Structural induction on trees, with the hypothesis available on every
    element and every property value. *)
Definition json_ind (P : json -> Prop)
    (HNull : P JNull)
    (HBool : forall b, P (JBool b))
    (HNum : forall n, P (JNum n))
    (HStr : forall s, P (JStr s))
    (HArr : forall l, Forall P l -> P (JArr l))
    (HObj : forall l, Forall (fun kv => P (snd kv)) l -> P (JObj l))
    (HHost : forall h, P (JHost h))
    : forall j, P j :=
  fix go (j : json) : P j :=
    match j with
    | JNull => HNull
    | JBool b => HBool b
    | JNum n => HNum n
    | JStr s => HStr s
    | JArr l =>
        HArr l ((fix elems (l : list json) : Forall P l :=
                   match l with
                   | [] => Forall_nil _
                   | x :: l' => Forall_cons x (go x) (elems l')
                   end) l)
    | JObj l =>
        HObj l ((fix props (l : list (string * json)) : Forall (fun kv => P (snd kv)) l :=
                   match l with
                   | [] => Forall_nil _
                   | kv :: l' => Forall_cons kv (go (snd kv)) (props l')
                   end) l)
    | JHost h => HHost h
    end.

(** A tree of JSON data, as [JSON.parse] returns them: no host object. *)
Fixpoint jsonData (v : json) : bool :=
  match v with
  | JArr l => forallb jsonData l
  | JObj l => forallb (fun kv => jsonData (snd kv)) l
  | JHost _ => false
  | _ => true
  end.

(** A value read out of a tree of JSON data, or [undefined]. *)
Definition jsonValue (v : any) : bool :=
  match v with
  | Some j => jsonData j
  | None => true
  end.

(** The text of a tree of JSON data, where every value has one.  The
    host objects are given marks of their own, so that every tree has a
    text and the text determines the tree. *)
Fixpoint serializeData (gap indent : list ascii) (v : json) : list ascii :=
  match v with
  | JNull => chars "null"
  | JBool true => chars "true"
  | JBool false => chars "false"
  | JNum n => chars (Z_toString n)
  | JStr s => QuoteJSONString s
  | JArr l =>
      wrapParts "["%char "]"%char gap indent
        (map (serializeData gap (indent ++ gap)) l)
  | JObj l =>
      wrapParts "{"%char "}"%char gap indent
        (map (fun kv =>
                QuoteJSONString (fst kv) ++ ":"%char ::
                  match gap with [] => [] | _ => [" "%char] end
                  ++ serializeData gap (indent ++ gap) (snd kv)) l)
  | JHost ObjectPrototype => ["<"%char; ">"%char]
  | JHost (BuiltinFunction name) => "<"%char :: QuoteJSONString name
  end.

(** The compact serialization, [JSON.stringify] with no indentation. *)
Definition compact (v : json) : list ascii := serializeData [] [] v.

(** Characters of a decimal numeral. *)
Definition numChar (c : ascii) : bool :=
  let n := nat_of_ascii c in
  ((48 <=? n)%nat && (n <=? 57)%nat) || (n =? 45)%nat.

(** The first character of a serialized value tells its constructor. *)
Definition kind (v : json) : nat :=
  match v with
  | JNull => 0
  | JBool true => 1
  | JBool false => 2
  | JNum _ => 3
  | JStr _ => 4
  | JArr _ => 5
  | JObj _ => 6
  | JHost _ => 7
  end.

Definition charKind (c : ascii) : option nat :=
  let n := nat_of_ascii c in
  if (n =? 110)%nat then Some 0
  else if (n =? 116)%nat then Some 1
  else if (n =? 102)%nat then Some 2
  else if numChar c then Some 3
  else if (n =? 34)%nat then Some 4
  else if (n =? 91)%nat then Some 5
  else if (n =? 123)%nat then Some 6
  else if (n =? 60)%nat then Some 7
  else None.

Definition noNumHead (r : list ascii) : Prop :=
  match r with
  | [] => True
  | c :: _ => numChar c = false
  end.

Definition hexValue (c : ascii) : nat :=
  let n := nat_of_ascii c in
  if (n <=? 57)%nat then n - 48 else n - 87.

(** Reads back one code unit written by [QuoteChar]; fails on the closing
    quote. *)
Definition unquoteChar (l : list ascii) : option (ascii * list ascii) :=
  match l with
  | [] => None
  | c :: t =>
      if (nat_of_ascii c =? 34)%nat then None
      else if (nat_of_ascii c =? 92)%nat then
        match t with
        | [] => None
        | e :: t' =>
            let n := nat_of_ascii e in
            if (n =? 98)%nat then Some (ascii_of_nat 8, t')
            else if (n =? 116)%nat then Some (ascii_of_nat 9, t')
            else if (n =? 110)%nat then Some (ascii_of_nat 10, t')
            else if (n =? 102)%nat then Some (ascii_of_nat 12, t')
            else if (n =? 114)%nat then Some (ascii_of_nat 13, t')
            else if (n =? 117)%nat then
              match t' with
              | _ :: _ :: h :: l :: t'' =>
                  Some (ascii_of_nat (16 * hexValue h + hexValue l), t'')
              | _ => None
              end
            else Some (e, t')
        end
      else Some (c, t)
  end.

(** ** Vocabulary of the statements *)

(** [name] is the first entry of the catalog, in iteration order, whose
    value is equal to [v] for the script: the two have the same text
    under [JSON.stringify] (or both have none).  For values of JSON data
    this is the first entry whose value is [v]. *)
Definition firstEqual (name : string) (v : any)
    (catalog : list (string * NamedExportData)) : Prop :=
  exists before d after,
    catalog = before ++ (name, d) :: after /\
    JSON_stringify (named_value d) = JSON_stringify v /\
    Forall (fun e => JSON_stringify (named_value (snd e)) <> JSON_stringify v) before.

(** No entry of the catalog has a value equal to [v] for the script. *)
Definition noneEqual (v : any) (catalog : list (string * NamedExportData)) : Prop :=
  Forall (fun e => JSON_stringify (named_value (snd e)) <> JSON_stringify v) catalog.

(** The replacement map of a run. *)
Definition replacementsOf (analyses : list AnalysisResult) : Replacements :=
  fst (findReplacements analyses (collectNamedExports analyses)).

(** The named exports a document declares, one per qualifying output in
    [Object.entries] order: the catalog key (the export name, as a
    property key) and the record stored under it. *)
Definition outputsMapping (tree : json) : json :=
  match tree with
  | JObj l =>
      let o := lookup "Outputs" l in
      if truthy o then match o with Some j => j | None => JObj [] end else JObj []
  | _ => JObj []
  end.

Definition namedDeclaration (entry : string * json) : list (string * NamedExportData) :=
  match snd entry with
  | JObj props =>
      let export := lookup "Export" props in
      if truthy export && negb (startsWith (fst entry) ExportsOutputFn) then
        let name := match export with
                    | Some (JObj e) => lookup "Name" e
                    | _ => None
                    end in
        [(ToPropertyKey name,
          {| key := fst entry; named_value := lookup "Value" props |})]
      else []
  | _ => []
  end.

Definition declarationsOf (tree : json) : list (string * NamedExportData) :=
  flat_map namedDeclaration (Object_entries (outputsMapping tree)).

(** The last declaration under a name, in declaration order. *)
Definition lastDeclared {A} (name : string) (decls : list (string * A)) : option A :=
  lookup name (rev decls).

(** Every entry of a replacement map is backed by a synthetic export of
    [synthetic] and a catalog entry whose values have the same text. *)
Definition backed (catalog : list (string * NamedExportData))
    (synthetic : list (string * ExportsOutputFnData))
    (replacements : Replacements) : Prop :=
  forall s n,
    lookup s replacements = Some n ->
    exists k data d,
      In (k, data) synthetic /\
      ToPropertyKey (exportName data) = s /\
      In (n, d) catalog /\
      JSON_stringify (value data) = JSON_stringify (named_value d).

(** ** Sample documents *)

Definition exportOutput (name : string) (v : json) : json :=
  JObj [("Value", v); ("Export", JObj [("Name", JStr name)])].

Definition bucketArn : json := JObj [("Fn::GetAtt", JArr [JStr "BucketA"; JStr "Arn"])].

(** A stack that exports a bucket ARN under a generated name and refers
    to it three levels deep. *)
Definition sampleX : json :=
  JObj [("Resources",
         JObj [("Policy",
                JObj [("Statement",
                       JArr [JObj [("Resource",
                                    JArr [JObj [(Fn_ImportValue,
                                                 JStr "X:ExportsOutputFnGetAttBucketAArn7f3a")]])]])])]);
        ("Outputs",
         JObj [("ExportsOutputFnGetAttBucketAArn7f3a",
                exportOutput "X:ExportsOutputFnGetAttBucketAArn7f3a" bucketArn)])].

(** A stack that exports the same value under a chosen name. *)
Definition sampleY : json :=
  JObj [("Outputs", JObj [("BucketArnExport", exportOutput "SharedBucketArn" bucketArn)])].

Definition sampleDocs : list (string * json) :=
  [("X.template.json", sampleX); ("Y.template.json", sampleY)].

Definition analysesOf (docs : list (string * json)) : list AnalysisResult :=
  match mapM (fun d => analyzeContent (fst d) (snd d)) docs with
  | inr analyses => analyses
  | inl _ => []
  end.

(** ** Value equivalence as the specification words it

    Two trees hold the same keys or elements with the same scalars; the
    order in which a mapping lists its keys does not count. *)
Fixpoint sameContents (a b : json) {struct a} : bool :=
  match a, b with
  | JNull, JNull => true
  | JBool x, JBool y => Bool.eqb x y
  | JNum x, JNum y => (x =? y)%Z
  | JStr x, JStr y => (x =? y)%string
  | JArr la, JArr lb =>
      (fix elems (la lb : list json) : bool :=
         match la, lb with
         | [], [] => true
         | x :: la', y :: lb' => sameContents x y && elems la' lb'
         | _, _ => false
         end) la lb
  | JObj la, JObj lb =>
      (List.length la =? List.length lb)%nat &&
      (fix props (la : list (string * json)) : bool :=
         match la with
         | [] => true
         | (k, v) :: la' =>
             match lookup k lb with
             | Some w => sameContents v w
             | None => false
             end && props la'
         end) la
  | _, _ => false
  end.

Definition tagsThenName : json :=
  JObj [("Tags", JArr [JStr "a"; JStr "b"]); ("Name", JStr "vpc")].

Definition nameThenTags : json :=
  JObj [("Name", JStr "vpc"); ("Tags", JArr [JStr "a"; JStr "b"])].

(** [typeof v === 'object' && v !== null] *)
Definition typeofObject (v : json) : bool :=
  match v with
  | JObj _ | JArr _ | JHost ObjectPrototype => true
  | _ => false
  end.

(** [NodeAt tree p node q]: the walk that starts at [tree] with the
    accumulated path [p] visits [node] with the accumulated path [q]. *)
Inductive NodeAt : json -> string -> json -> string -> Prop :=
| node_here : forall tree p, NodeAt tree p tree p
| node_below : forall tree p k child node q,
    typeofObject tree = true ->
    In (k, child) (Object_entries tree) ->
    NodeAt child (childPath p k) node q ->
    NodeAt tree p node q.

(** The reference marker as the specification words it: a single-key
    mapping whose key is the import marker and whose value is a string
    that starts with the synthetic-name prefix. *)
Definition specReferenceMarker (node : json) : bool :=
  match node with
  | JObj [(k, JStr s)] => (k =? Fn_ImportValue) && startsWith s ExportsOutputFn
  | _ => false
  end.

Definition sampleMarker : json :=
  JObj [(Fn_ImportValue, JStr "X:ExportsOutputFnGetAttBucketAArn7f3a")].

(** ** The frame of the rewrite

    [Framed r t t']: [t'] is [t] except that strings [s] stored under the
    key [Fn::ImportValue] for which [r[s]] is truthy may have been
    replaced by [r[s]].  Keys, their order, the other scalars, the
    elements of sequences and their order are the same on both sides. *)
#[warnings="-register-all"]
Inductive Framed (r : Replacements) : json -> json -> Prop :=
| framed_same : forall t, Framed r t t
| framed_arr : forall l l',
    Forall2 (Framed r) l l' -> Framed r (JArr l) (JArr l')
| framed_obj : forall l l',
    Forall2 (fun kv kv' =>
               fst kv = fst kv' /\
               (Framed r (snd kv) (snd kv') \/
                (fst kv = Fn_ImportValue /\
                 exists s v, snd kv = JStr s /\ replacementFor r s = Some v /\
                             snd kv' = v))) l l' ->
    Framed r (JObj l) (JObj l').

(** A file system holding the two sample documents, and the restriction
    of [JSON.parse] to the texts stored in it. *)
Definition sampleFs : FileSystem :=
  [("X.template.json", JSON_stringify_space sampleX 2);
   ("Y.template.json", JSON_stringify_space sampleY 2)].

Definition sampleParse (text : string) : option json :=
  if text =? JSON_stringify_space sampleX 2 then Some sampleX
  else if text =? JSON_stringify_space sampleY 2 then Some sampleY
  else None.

Definition sampleFiles : list string := ["X.template.json"; "Y.template.json"].

(** The sample directory with a third template that is not valid JSON. *)
Definition brokenFs : FileSystem := sampleFs ++ [("Z.template.json", "{ not json")].

(** ** Positions in a tree *)

Definition children (t : json) : list json :=
  match t with
  | JObj l => map snd l
  | JArr l => l
  | _ => []
  end.

(** The node reached from [t] by taking, at each step, the child with
    the given rank in [Object.values] order. *)
Fixpoint subtreeAt (t : json) (pos : list nat) : option json :=
  match pos with
  | [] => Some t
  | i :: pos' =>
      match nth_error (children t) i with
      | Some c => subtreeAt c pos'
      | None => None
      end
  end.

(** No node strictly above the position is itself rewritten by
    [replaceImportsInObject] (the call returns at such a node).  A
    position outside the tree is unobstructed. *)
Fixpoint unobstructed (r : Replacements) (t : json) (pos : list nat) : bool :=
  match pos with
  | [] => true
  | i :: pos' =>
      match replacementAt r t with
      | Some _ => false
      | None =>
          match nth_error (children t) i with
          | Some c => unobstructed r c pos'
          | None => true
          end
      end
  end.

(** Every mapping that holds a string under [Fn::ImportValue] holds
    nothing else: the reference markers are single-key mappings. *)
Fixpoint leafMarkers (t : json) : bool :=
  match t with
  | JObj l =>
      match lookup Fn_ImportValue l with
      | Some (JStr _) => (List.length l =? 1)%nat
      | _ => true
      end && forallb (fun kv => leafMarkers (snd kv)) l
  | JArr l => forallb leafMarkers l
  | _ => true
  end.

(** No name the map assigns is itself a key of the map (under which it
    holds a name). *)
Definition noChain (r : Replacements) : bool :=
  forallb (fun kv =>
             match lookup (snd kv) r with
             | Some n => n =? ""
             | None => true
             end) r.

(** [r[n]] is falsy for every name [n] the map assigns: [n] is neither a
    key of the map nor the name of a member of [Object.prototype]. *)
Definition settled (r : Replacements) : bool :=
  forallb (fun kv =>
             match replacementFor r (snd kv) with
             | Some _ => false
             | None => true
             end) r.

(** The tree of a document at the end of the run. *)
Definition finalTree (r : Replacements) (a : AnalysisResult) : json :=
  match resolvedImports r a with
  | [] => content a
  | _ => fst (replaceImportsInObject (content a) r)
  end.

Definition emptyReport : Report :=
  {| matchCount := 0; totalReplacements := 0; updated := []; documents := [] |}.

Definition reportOf (docs : list (string * json)) : Report :=
  match pipeline docs with
  | inr report => report
  | inl _ => emptyReport
  end.

(** A stack whose generated export carries a name without the generated
    text, referred to by that name. *)
Definition legacyDoc : json :=
  JObj [("Outputs",
         JObj [("ExportsOutputFnRefTopic", exportOutput "LegacyTopic" (JObj [("Ref", JStr "Topic")]));
               ("TopicExport", exportOutput "SharedTopic" (JObj [("Ref", JStr "Topic")]))]);
        ("Resources",
         JObj [("Subscription", JObj [(Fn_ImportValue, JStr "LegacyTopic")])])].

Definition legacyDocs : list (string * json) := [("L.template.json", legacyDoc)].

Definition legacyFs : FileSystem := [("L.template.json", JSON_stringify_space legacyDoc 2)].

(** A stack that re-exports an imported value, once under a generated
    name and once under a chosen one, and refers to the generated
    re-export. *)
Definition reexportDoc : json :=
  JObj [("Outputs",
         JObj [("ExportsOutputFnA", exportOutput "ExportsOutputFnA" (JStr "v"));
               ("NamedA", exportOutput "NiceA" (JStr "v"));
               ("ExportsOutputFnB",
                exportOutput "ExportsOutputFnB" (JObj [(Fn_ImportValue, JStr "ExportsOutputFnA")]));
               ("NamedB", exportOutput "NiceB" (JObj [(Fn_ImportValue, JStr "NiceA")]))]);
        ("Resources",
         JObj [("Consumer", JObj [(Fn_ImportValue, JStr "ExportsOutputFnB")])])].

Definition reexportDocs : list (string * json) := [("R.template.json", reexportDoc)].

(** The analysis of the first sample document. *)
Definition sampleAnalysisX : AnalysisResult :=
  {| exportsOutputFn :=
       [("ExportsOutputFnGetAttBucketAArn7f3a",
         {| exportName := Some (JStr "X:ExportsOutputFnGetAttBucketAArn7f3a");
            value := Some bucketArn |})];
     namedExports := [];
     imports := [{| path := "Resources.Policy.Statement.0.Resource.0";
                    import_value := "X:ExportsOutputFnGetAttBucketAArn7f3a" |}];
     content := sampleX;
     filePath := "X.template.json" |}.

(** A mapping that holds a reference next to another property which in
    turn holds a reference, and a map that resolves both. *)
Definition nestedMarker : json :=
  JObj [(Fn_ImportValue, JStr "S:ExportsOutputFnOuter");
        ("Condition", JObj [(Fn_ImportValue, JStr "S:ExportsOutputFnInner")])].

Definition nestedReplacements : Replacements :=
  [("S:ExportsOutputFnOuter", "Outer"); ("S:ExportsOutputFnInner", "Inner")].

(** [fileChanged] at line 179: the scanner recorded in the template at
    least one reference that the map resolves. *)
Definition hasResolvedImport (replacements : Replacements) (analysis : AnalysisResult)
    : bool :=
  match resolvedImports replacements analysis with
  | [] => false
  | _ :: _ => true
  end.

(** [output.Export.Name] for a truthy [output.Export]. *)
Definition exportNameOf (export : json) : any :=
  match export with
  | JObj e => lookup "Name" e
  | _ => None
  end.

(** The entry an output adds to [exportsOutputFn] (lines 57-61). *)
Definition syntheticDeclaration (entry : string * json)
    : list (string * ExportsOutputFnData) :=
  match snd entry with
  | JObj props =>
      match lookup "Export" props with
      | Some e =>
          if startsWith (fst entry) ExportsOutputFn && truthy (Some e) then
            [(fst entry,
              {| exportName := exportNameOf e; value := lookup "Value" props |})]
          else []
      | None => []
      end
  | _ => []
  end.

(** A catalog whose first entry for a value has the empty name. *)
Definition unnamedFirst : list (string * NamedExportData) :=
  [("", {| key := "Anonymous"; named_value := Some bucketArn |});
   ("SharedBucketArn", {| key := "BucketArnExport"; named_value := Some bucketArn |})].

(** A stack whose named exports take their names from a substitution. *)
Definition computedNamesDoc : json :=
  JObj [("Outputs",
         JObj [("ExportsOutputFnRefQueue",
                exportOutput "S:ExportsOutputFnRefQueue" (JObj [("Ref", JStr "Queue")]));
               ("QueueExport",
                JObj [("Value", JObj [("Ref", JStr "Queue")]);
                      ("Export", JObj [("Name", JObj [("Fn::Sub", JStr "${AWS::StackName}-Queue")])])]);
               ("TopicExport",
                JObj [("Value", JObj [("Ref", JStr "Topic")]);
                      ("Export", JObj [("Name", JObj [("Fn::Sub", JStr "${AWS::StackName}-Topic")])])])])].

Definition computedNamesDocs : list (string * json) := [("C.template.json", computedNamesDoc)].

(** Every named export of the document takes its name from a mapping. *)
Definition namesAreMappings (tree : json) : Prop :=
  forall k props e,
    In (k, JObj props) (Object_entries (outputsMapping tree)) ->
    lookup "Export" props = Some e -> truthy (Some e) = true ->
    startsWith k ExportsOutputFn = false ->
    exists o, exportNameOf e = Some (JObj o).

(** ** [findTemplateFiles] (lines 8-22)

    The directories of the disk are given by a table from the path of a
    directory to its entries, in the order [readdirSync] returns them.
    Paths are joined as [path.join] does on a POSIX system. *)

Record Dirent : Type := {
  name : string;
  isDirectory : bool
}.

Definition DirectoryTable : Type := list (string * list Dirent).

(** [fs.readdirSync(dir, { withFileTypes: true })] *)
Definition readdirSync (table : DirectoryTable) (dir : string) : result (list Dirent) :=
  match lookup dir table with
  | Some entries => ret entries
  | None => throw SystemError
  end.

(** [String.prototype.endsWith] *)
Fixpoint endsWith (s suffix : string) : bool :=
  (s =? suffix) ||
  match s with
  | EmptyString => false
  | String _ s' => endsWith s' suffix
  end.

(** The segments of a path between its separators. *)
Fixpoint splitSlash (s : string) : list string :=
  match s with
  | EmptyString => [""]
  | String c s' =>
      if Ascii.eqb c "/"%char then "" :: splitSlash s'
      else match splitSlash s' with
           | seg :: rest => String c seg :: rest
           | [] => [String c ""]
           end
  end.

(** One segment in [normalizeString]; [kept] holds the segments kept so
    far, last first. *)
Definition normalizeSegment (allowAboveRoot : bool) (kept : list string)
    (seg : string) : list string :=
  if (seg =? "") || (seg =? ".") then kept
  else if seg =? ".." then
    match kept with
    | last :: kept' =>
        if last =? ".." then (if allowAboveRoot then ".." :: kept else kept)
        else kept'
    | [] => if allowAboveRoot then [".."] else []
    end
  else seg :: kept.

(** [path.posix.normalize] *)
Definition path_normalize (p : string) : string :=
  if p =? "" then "."
  else
    let isAbsolute := startsWith p "/" in
    let trailingSeparator := endsWith p "/" in
    let body :=
      join "/" (List.rev (fold_left (normalizeSegment (negb isAbsolute))
                            (splitSlash p) [])) in
    if body =? "" then
      (if isAbsolute then "/" else if trailingSeparator then "./" else ".")
    else
      ((if isAbsolute then "/" else "") ++ body
         ++ (if trailingSeparator then "/" else ""))%string.

(** [path.posix.join(a, b)] *)
Definition path_join (a b : string) : string :=
  let joined :=
    if a =? "" then b
    else if b =? "" then a
    else (a ++ "/" ++ b)%string in
  if joined =? "" then "." else path_normalize joined.

(** One turn of the loop over the entries of the root (lines 12-20). *)
Definition collectAssembly (table : DirectoryTable) (dir : string)
    (files : list string) (entry : Dirent) : result (list string) :=
  let fullPath := path_join dir (name entry) in
  if isDirectory entry && startsWith (name entry) "assembly-" then
    children <- readdirSync table fullPath ;;
    ret (files ++
         map (fun file => path_join fullPath file)
           (filter (fun file => endsWith file ".template.json") (map name children)))
  else ret files.

Definition findTemplateFiles (table : DirectoryTable) (dir : string)
    : result (list string) :=
  entries <- readdirSync table dir ;;
  foldM (collectAssembly table dir) entries [].

Definition CDK_OUT_DIR : string := "./cdk.out".

(** A synthesized application with one stage, a template left next to
    the stage directory, and a directory that is not an assembly. *)
Definition sampleTable : DirectoryTable :=
  [("./cdk.out",
    [{| name := "manifest.json"; isDirectory := false |};
     {| name := "Root.template.json"; isDirectory := false |};
     {| name := "assembly-Prod"; isDirectory := true |};
     {| name := "asset.1234"; isDirectory := true |};
     {| name := "assembly-notes"; isDirectory := false |}]);
   ("cdk.out/assembly-Prod",
    [{| name := "X.template.json"; isDirectory := false |};
     {| name := "manifest.json"; isDirectory := false |};
     {| name := "Y.template.json"; isDirectory := false |};
     {| name := "nested.template.json"; isDirectory := true |}]);
   ("cdk.out/asset.1234",
    [{| name := "Z.template.json"; isDirectory := false |}])].

(** The name holds no path separator, as the names [readdirSync]
    returns. *)
Fixpoint noSlash (s : string) : bool :=
  match s with
  | EmptyString => true
  | String c s' => negb (Ascii.eqb c "/"%char) && noSlash s'
  end.

Definition plainNames (table : DirectoryTable) : bool :=
  forallb (fun d => forallb (fun entry => noSlash (name entry)) (snd d)) table.

(** The keys of a list in the order of their first occurrence. *)
Definition addKey (acc : list string) (k : string) : list string :=
  if existsb (String.eqb k) acc then acc else acc ++ [k].

Definition firstOccurrences (l : list string) : list string :=
  fold_left addKey l [].

(** Two stacks that export the same value under two names, the second
    stack also declaring the first name again; the first stack has a
    third export, called [__proto__]. *)
Definition orderDocs : list (string * json) :=
  [("A.template.json",
    JObj [("Outputs", JObj [("First", exportOutput "Zeta" (JStr "v"));
                            ("Second", exportOutput "Alpha" (JStr "v"));
                            ("Hidden", exportOutput "__proto__" (JStr "v"))])]);
   ("B.template.json",
    JObj [("Outputs", JObj [("Third", exportOutput "Alpha" (JStr "w"));
                            ("Fourth", exportOutput "Zeta" (JStr "v"))])])].

(** The names that an assignment turns into an own property. *)
Definition notProto (k : string) : bool := negb (k =? "__proto__").

(** The test of line 151 on one synthetic export: a name was found and
    it is truthy. *)
Definition isMatched (catalog : list (string * NamedExportData))
    (entry : string * ExportsOutputFnData) : bool :=
  match findMatchingNamedExport (fst entry) (value (snd entry)) catalog with
  | Some m => negb (m =? "")
  | None => false
  end.

(** Two generated exports that share their export name and their value. *)
Definition twinDocs : list (string * json) :=
  [("T.template.json",
    JObj [("Outputs",
           JObj [("ExportsOutputFnOne", exportOutput "T:ExportsOutputFnShared" (JStr "v"));
                 ("ExportsOutputFnTwo", exportOutput "T:ExportsOutputFnShared" (JStr "v"));
                 ("Named", exportOutput "Nice" (JStr "v"))]);
          ("Resources",
           JObj [("A", JObj [(Fn_ImportValue, JStr "T:ExportsOutputFnShared")]);
                 ("B", JObj [(Fn_ImportValue, JStr "T:ExportsOutputFnShared")])])])].

(** Two stacks that each declare a named export called [__proto__],
    with different values. *)
Definition protoDocs : list (string * json) :=
  [("P.template.json",
    JObj [("Outputs", JObj [("First", exportOutput "__proto__" (JStr "v"))])]);
   ("Q.template.json",
    JObj [("Outputs", JObj [("Second", exportOutput "__proto__" (JStr "w"))])])].

(** Two stacks whose generated exports carry the same export name and
    different values; the first stack also exports its value under a
    chosen name, the second refers to the shared name. *)
Definition sharedNameDocs : list (string * json) :=
  [("A.template.json",
    JObj [("Outputs",
           JObj [("ExportsOutputFnRefBucketA",
                  exportOutput "Shared:ExportsOutputFnRefBucket"
                    (JObj [("Ref", JStr "BucketA")]));
                 ("Named", exportOutput "Nice" (JObj [("Ref", JStr "BucketA")]))])]);
   ("B.template.json",
    JObj [("Outputs",
           JObj [("ExportsOutputFnRefBucketB",
                  exportOutput "Shared:ExportsOutputFnRefBucket"
                    (JObj [("Ref", JStr "BucketB")]))]);
          ("Resources",
           JObj [("Consumer",
                  JObj [(Fn_ImportValue, JStr "Shared:ExportsOutputFnRefBucket")])])])].

(** A reference, guarded by a condition, to an export that happens to
    be called like a member of [Object.prototype]. *)
Definition constructorMarker : json :=
  JObj [("Condition", JStr "IsProd"); (Fn_ImportValue, JStr "constructor")].

(** The references an analysis holds are references the scanner
    records: each contains the generated text. *)
Definition scanned (a : AnalysisResult) : Prop :=
  forall i, In i (imports a) -> includes (import_value i) ExportsOutputFn = true.

(** The strings stored under [Fn::ImportValue] in the mappings of a
    tree. *)
Fixpoint markerTargets (t : json) : list string :=
  match t with
  | JObj l =>
      match lookup Fn_ImportValue l with
      | Some (JStr s) => [s]
      | _ => []
      end ++ flat_map (fun kv => markerTargets (snd kv)) l
  | JArr l => flat_map markerTargets l
  | _ => []
  end.

(** [ToString] does not throw on the value: no mapping it converts, the
    value itself or one reached through arrays, has an own property
    [toString]. *)
Fixpoint convertible (v : json) : bool :=
  match v with
  | JObj l => match lookup "toString" l with Some _ => false | None => true end
  | JArr l => forallb convertible l
  | _ => true
  end.

(** The names of the named exports of a document convert to a property
    key. *)
Definition namesConvertible (tree : json) : Prop :=
  forall k props e name,
    In (k, JObj props) (Object_entries (outputsMapping tree)) ->
    lookup "Export" props = Some e -> truthy (Some e) = true ->
    startsWith k ExportsOutputFn = false ->
    exportNameOf e = Some name ->
    convertible name = true.

(** A template one of whose outputs is [null]. *)
Definition nullOutputDoc : json :=
  JObj [("Outputs", JObj [("Pending", JNull);
                          ("TopicExport", exportOutput "SharedTopic" (JObj [("Ref", JStr "Topic")]))])].

Definition nullOutputFs : FileSystem :=
  [("N.template.json", JSON_stringify_space nullOutputDoc 2)].

Definition nullOutputParse (text : string) : option json :=
  if text =? JSON_stringify_space nullOutputDoc 2 then Some nullOutputDoc else None.

(** A stack whose first named export with the value of the bucket has
    the empty name. *)
Definition unnamedDocs : list (string * json) :=
  [("U.template.json",
    JObj [("Outputs",
           JObj [("Anonymous", exportOutput "" bucketArn);
                 ("BucketArnExport", exportOutput "SharedBucketArn" bucketArn);
                 ("ExportsOutputFnGetAttBucketAArn7f3a",
                  exportOutput "X:ExportsOutputFnGetAttBucketAArn7f3a" bucketArn)]);
          ("Resources",
           JObj [("Policy",
                  JObj [(Fn_ImportValue,
                         JStr "X:ExportsOutputFnGetAttBucketAArn7f3a")])])])].

(** A stack whose generated export and named export carry the same
    keys and values, listed in different orders. *)
Definition keyOrderDoc : json :=
  JObj [("Outputs",
         JObj [("ExportsOutputFnVpc", exportOutput "K:ExportsOutputFnVpc" tagsThenName);
               ("VpcExport", exportOutput "SharedVpc" nameThenTags)]);
        ("Resources",
         JObj [("Subnet", JObj [(Fn_ImportValue, JStr "K:ExportsOutputFnVpc")])])].

Definition keyOrderFs : FileSystem :=
  [("K.template.json", JSON_stringify_space keyOrderDoc 2)].

Definition keyOrderParse (text : string) : option json :=
  if text =? JSON_stringify_space keyOrderDoc 2 then Some keyOrderDoc else None.

(** * Properties *)

(** ** Association lists *)

Lemma lookup_replaceAt_same {A} k (a : A) l :
  lookup k l <> None -> lookup k (replaceAt k a l) = Some a.
Proof.
  induction l as [|[k' a'] l IH]; simpl; [congruence|].
  destruct (String.eqb_spec k' k) as [->|Hne]; simpl.
  - now rewrite String.eqb_refl.
  - intros H. apply String.eqb_neq in Hne. now rewrite Hne, IH.
Qed.

(** ** [JSON.stringify] is one-to-one *)

Lemma unquote_QuoteChar c r : unquoteChar (QuoteChar c ++ r) = Some (c, r).
Proof.
  destruct c as [[] [] [] [] [] [] [] []]; reflexivity.
Qed.

Lemma quoted_chars_inj l1 :
  forall l2 r1 r2,
    flat_map QuoteChar l1 ++ dquote :: r1 = flat_map QuoteChar l2 ++ dquote :: r2 ->
    l1 = l2 /\ r1 = r2.
Proof.
  induction l1 as [|c1 l1 IH]; intros [|c2 l2] r1 r2 H; simpl in H.
  - injection H as ->. now split.
  - apply (f_equal unquoteChar) in H.
    rewrite <- app_assoc, unquote_QuoteChar in H. discriminate H.
  - apply (f_equal unquoteChar) in H.
    rewrite <- app_assoc, unquote_QuoteChar in H. discriminate H.
  - apply (f_equal unquoteChar) in H.
    rewrite <- !app_assoc, !unquote_QuoteChar in H.
    injection H as -> H. apply IH in H as [-> ->]. now split.
Qed.

Lemma chars_inj s1 s2 : chars s1 = chars s2 -> s1 = s2.
Proof.
  intros H. apply (f_equal string_of_list_ascii) in H.
  unfold chars in H. now rewrite !string_of_list_ascii_of_string in H.
Qed.

Lemma QuoteJSONString_inj s1 s2 r1 r2 :
  QuoteJSONString s1 ++ r1 = QuoteJSONString s2 ++ r2 -> s1 = s2 /\ r1 = r2.
Proof.
  unfold QuoteJSONString. simpl. intros H. injection H as H.
  rewrite <- !app_assoc in H. simpl in H.
  apply quoted_chars_inj in H as [H ->]. split; [now apply chars_inj|reflexivity].
Qed.

Lemma uint_chars_num d :
  Forall (fun c => numChar c = true) (chars (DecimalString.NilEmpty.string_of_uint d)).
Proof.
  induction d; simpl; constructor; auto.
Qed.

Lemma Z_toString_num n :
  Forall (fun c => numChar c = true) (chars (Z_toString n)).
Proof.
  unfold Z_toString. destruct (Z.to_int n) as [d|d]; simpl.
  - apply uint_chars_num.
  - constructor; [reflexivity|apply uint_chars_num].
Qed.

Lemma Z_toString_nonempty n : chars (Z_toString n) <> [].
Proof.
  unfold Z_toString. destruct n as [|p|p]; simpl; try discriminate.
  pose proof (DecimalPos.Unsigned.to_uint_nonnil p) as H.
  destruct (Pos.to_uint p); [congruence|discriminate..].
Qed.

Lemma Z_toString_inj n m : Z_toString n = Z_toString m -> n = m.
Proof.
  unfold Z_toString. intros H.
  apply (f_equal DecimalString.NilEmpty.int_of_string) in H.
  rewrite !DecimalString.NilEmpty.isi in H. injection H as H.
  now apply DecimalZ.to_int_inj.
Qed.

(** Two runs of numeral characters that end at a character of another
    class end at the same place. *)
Lemma num_span l1 :
  forall l2 r1 r2,
    Forall (fun c => numChar c = true) l1 ->
    Forall (fun c => numChar c = true) l2 ->
    noNumHead r1 -> noNumHead r2 ->
    l1 ++ r1 = l2 ++ r2 -> l1 = l2 /\ r1 = r2.
Proof.
  induction l1 as [|c1 l1 IH]; intros [|c2 l2] r1 r2 H1 H2 N1 N2 H; simpl in H.
  - now split.
  - subst r1. simpl in N1. inversion H2; subst. congruence.
  - subst r2. simpl in N2. inversion H1; subst. congruence.
  - injection H as -> H. inversion H1; inversion H2; subst.
    destruct (IH l2 r1 r2) as [-> ->]; auto.
Qed.

Lemma joinChars_cons sep p rest :
  joinChars sep (p :: rest) =
  p ++ match rest with [] => [] | _ => sep ++ joinChars sep rest end.
Proof.
  destruct rest; simpl; [now rewrite app_nil_r|reflexivity].
Qed.

Lemma compact_arr l :
  compact (JArr l) = "["%char :: joinChars [","%char] (map compact l) ++ ["]"%char].
Proof.
  unfold compact. simpl. destruct l; reflexivity.
Qed.

Lemma compact_obj l :
  compact (JObj l) =
  "{"%char ::
    joinChars [","%char]
      (map (fun kv => QuoteJSONString (fst kv) ++ ":"%char :: compact (snd kv)) l)
    ++ ["}"%char].
Proof.
  unfold compact. simpl. destruct l; reflexivity.
Qed.

(** Every serialized value is non-empty and opens with a character of
    its own class. *)
Lemma compact_head v r :
  exists c t, compact v ++ r = c :: t /\ charKind c = Some (kind v).
Proof.
  destruct v as [|[]|n|s|l|l|[|name]]; try (now eexists _, _).
  - pose proof (Z_toString_num n) as HF. pose proof (Z_toString_nonempty n) as HN.
    unfold compact. simpl.
    destruct (chars (Z_toString n)) as [|c t]; [congruence|].
    exists c, (t ++ r). split; [reflexivity|].
    inversion HF as [|? ? Hc _]; subst.
    unfold charKind. revert Hc.
    destruct c as [[] [] [] [] [] [] [] []]; cbv; intros; congruence.
  - rewrite compact_arr. now eexists _, _.
  - rewrite compact_obj. now eexists _, _.
Qed.

Lemma compact_same_kind a b r1 r2 :
  compact a ++ r1 = compact b ++ r2 -> kind a = kind b.
Proof.
  intros H.
  destruct (compact_head a r1) as (c1 & t1 & E1 & K1).
  destruct (compact_head b r2) as (c2 & t2 & E2 & K2).
  rewrite E1, E2 in H. injection H as -> _. congruence.
Qed.

(** Comma-separated members followed by the closing bracket. *)
Lemma joined_inj {A} (f : A -> list ascii) (closer : ascii) :
  closer <> ","%char ->
  (forall x r t, f x ++ r <> closer :: t) ->
  forall l1,
    Forall (fun x => forall y r r',
                noNumHead r -> noNumHead r' ->
                f x ++ r = f y ++ r' -> x = y /\ r = r') l1 ->
    numChar closer = false ->
    forall l2 r1 r2,
      joinChars [","%char] (map f l1) ++ closer :: r1 =
      joinChars [","%char] (map f l2) ++ closer :: r2 ->
      l1 = l2 /\ r1 = r2.
Proof.
  intros Hsep Hhead l1 HF Hnum.
  induction HF as [|x l1 Hx HF IH]; intros [|y l2] r1 r2 H.
  - simpl in H. injection H as ->. now split.
  - exfalso. simpl map in H. rewrite joinChars_cons, <- app_assoc in H.
    simpl joinChars in H. simpl in H. symmetry in H. now apply Hhead in H.
  - exfalso. simpl map in H. rewrite joinChars_cons, <- app_assoc in H.
    simpl (joinChars _ (map f [])) in H. simpl in H. now apply Hhead in H.
  - simpl map in H. rewrite !joinChars_cons, <- !app_assoc in H.
    apply Hx in H.
    + destruct H as [-> H].
      destruct l1 as [|x1 l1], l2 as [|y1 l2]; simpl map in H.
      * simpl in H. injection H as ->. now split.
      * simpl in H. injection H as H _. congruence.
      * simpl in H. injection H as H _. congruence.
      * cbn [app] in H. injection H as H.
        apply (IH (y1 :: l2)) in H as [H ->]. now rewrite H.
    + destruct (map f l1); simpl; [exact Hnum|reflexivity].
    + destruct (map f l2); simpl; [exact Hnum|reflexivity].
Qed.

Lemma compact_inj_rest a :
  forall b r1 r2,
    noNumHead r1 -> noNumHead r2 ->
    compact a ++ r1 = compact b ++ r2 -> a = b /\ r1 = r2.
Proof.
  induction a as [|b1|n1|s1|l1 IH|l1 IH|h1] using json_ind;
    intros b r1 r2 N1 N2 H;
    pose proof (compact_same_kind _ _ _ _ H) as K;
    destruct b as [|b2|n2|s2|l2|l2|h2];
    try (destruct b1); try (destruct b2); simpl in K; try discriminate K.
  - simpl in H. injection H as ->. now split.
  - simpl in H. injection H as ->. now split.
  - simpl in H. injection H as ->. now split.
  - unfold compact in H. simpl in H.
    apply num_span in H; auto using Z_toString_num.
    destruct H as [H ->]. apply chars_inj, Z_toString_inj in H. now subst.
  - unfold compact in H. simpl serializeData in H.
    apply QuoteJSONString_inj in H as [-> ->]. now split.
  - rewrite !compact_arr in H. simpl in H. injection H as H.
    rewrite <- !app_assoc in H. simpl in H.
    apply (joined_inj compact "]"%char) in H.
    + destruct H as [-> ->]. now split.
    + discriminate.
    + intros x r t Hx. destruct (compact_head x r) as (c & t' & E & Kc).
      rewrite E in Hx. injection Hx as -> _. discriminate Kc.
    + exact IH.
    + reflexivity.
  - rewrite !compact_obj in H. simpl in H. injection H as H.
    rewrite <- !app_assoc in H. simpl in H.
    apply (joined_inj
             (fun kv => QuoteJSONString (fst kv) ++ ":"%char :: compact (snd kv))
             "}"%char) in H.
    + destruct H as [-> ->]. now split.
    + discriminate.
    + intros x r t Hx. unfold QuoteJSONString in Hx. simpl in Hx. discriminate Hx.
    + clear H. induction IH as [|[k v] l Hv _ IHl]; constructor; [|exact IHl].
      cbn [snd] in Hv.
      intros [k' v'] r r' Nr Nr' E. cbn [fst snd] in E.
      rewrite <- !app_assoc in E.
      apply QuoteJSONString_inj in E as [-> E].
      cbn [app] in E. injection E as E.
      apply Hv in E; auto. destruct E as [-> ->]. now split.
    + reflexivity.
  - unfold compact in H.
    destruct h1 as [|name1], h2 as [|name2]; cbn [serializeData] in H.
    + injection H as ->. now split.
    + unfold QuoteJSONString in H. discriminate H.
    + unfold QuoteJSONString in H. discriminate H.
    + change (("<"%char :: QuoteJSONString name1) ++ r1)
        with ("<"%char :: (QuoteJSONString name1 ++ r1)) in H.
      change (("<"%char :: QuoteJSONString name2) ++ r2)
        with ("<"%char :: (QuoteJSONString name2 ++ r2)) in H.
      apply (f_equal (@List.tl ascii)) in H. cbn [List.tl] in H.
      apply QuoteJSONString_inj in H as [-> ->]. now split.
Qed.

Lemma compact_inj a b : compact a = compact b -> a = b.
Proof.
  intros H.
  destruct (compact_inj_rest a b [] []) as [E _]; simpl; auto.
  now rewrite !app_nil_r.
Qed.

(** On a tree of JSON data [JSON.stringify] always returns a text. *)
Lemma serialize_data gap v :
  jsonData v = true ->
  forall ind, SerializeJSONProperty gap ind v = Some (serializeData gap ind v).
Proof.
  induction v as [|[]|n|s|l IH|l IH|h] using json_ind; intros Hd ind;
    try reflexivity; try discriminate Hd.
  - cbn [SerializeJSONProperty serializeData]. do 2 f_equal.
    cbn [jsonData] in Hd. rewrite forallb_forall in Hd. rewrite Forall_forall in IH.
    apply map_ext_in. intros x Hx. now rewrite (IH x Hx (Hd x Hx)).
  - cbn [SerializeJSONProperty serializeData]. do 2 f_equal.
    cbn [jsonData] in Hd.
    induction IH as [|kv l Hkv _ IHl]; [reflexivity|].
    cbn [forallb] in Hd. apply andb_true_iff in Hd as [H1 H2].
    cbn [flat_map map]. now rewrite (Hkv H1), (IHl H2).
Qed.

Lemma strictEqual_spec (a b : option string) : strictEqual a b = true <-> a = b.
Proof.
  destruct a as [x|], b as [y|]; simpl; split; try discriminate; try reflexivity.
  - intros H. apply String.eqb_eq in H. now subst.
  - intros [= ->]. apply String.eqb_refl.
Qed.

Lemma stringify_data (v : json) :
  jsonData v = true ->
  JSON_stringify (Some v) = Some (string_of_list_ascii (compact v)).
Proof.
  intros H. unfold JSON_stringify, compact. now rewrite (serialize_data [] v H).
Qed.

(** On values of JSON data, [JSON.stringify(a) === JSON.stringify(b)]
    holds exactly when the two values are the same tree (or both
    [undefined]). *)
Lemma stringify_equal_iff (a b : any) :
  jsonValue a = true -> jsonValue b = true ->
  (strictEqual (JSON_stringify a) (JSON_stringify b) = true <-> a = b).
Proof.
  intros Ha Hb. rewrite strictEqual_spec. split; [|now intros ->].
  destruct a as [x|], b as [y|]; simpl in Ha, Hb;
    rewrite ?(stringify_data _ Ha), ?(stringify_data _ Hb); simpl;
    try discriminate; auto.
  intros [= H]. apply (f_equal list_ascii_of_string) in H.
  rewrite !list_ascii_of_string_of_list_ascii in H.
  f_equal. now apply compact_inj.
Qed.

(** ** Writing a property *)

Lemma lookup_replaceAt_other {A} k k' (a : A) l :
  k <> k' -> lookup k' (replaceAt k a l) = lookup k' l.
Proof.
  intros Hne. induction l as [|[k0 a0] l IH]; simpl; [reflexivity|].
  destruct (String.eqb_spec k0 k) as [->|H0]; simpl.
  - apply String.eqb_neq in Hne. now rewrite Hne.
  - now rewrite IH.
Qed.

Lemma keys_replaceAt {A} k (a : A) l : map fst (replaceAt k a l) = map fst l.
Proof.
  induction l as [|[k0 a0] l IH]; simpl; [reflexivity|].
  destruct (k0 =? k); simpl; [reflexivity|now rewrite IH].
Qed.

Lemma lookup_app {A} k (l1 l2 : list (string * A)) :
  lookup k (l1 ++ l2) =
  match lookup k l1 with Some a => Some a | None => lookup k l2 end.
Proof.
  induction l1 as [|[k0 a0] l1 IH]; simpl; [reflexivity|].
  now destruct (k0 =? k).
Qed.

Lemma lookup_None_keys {A} k (l : list (string * A)) :
  lookup k l = None <-> ~ In k (map fst l).
Proof.
  induction l as [|[k0 a0] l IH]; simpl; [tauto|].
  destruct (String.eqb_spec k0 k) as [->|Hne].
  - split; [discriminate|tauto].
  - rewrite IH. tauto.
Qed.

Lemma lookup_In {A} k (a : A) l : lookup k l = Some a -> In (k, a) l.
Proof.
  induction l as [|[k0 a0] l IH]; simpl; [discriminate|].
  destruct (String.eqb_spec k0 k) as [->|Hne].
  - intros [= ->]. now left.
  - intros H. right. auto.
Qed.

Lemma lookup_insertIndex {A} n k (a : A) l k' :
  lookup k l = None ->
  lookup k' (insertIndex n k a l) = if k =? k' then Some a else lookup k' l.
Proof.
  induction l as [|[k0 a0] l IH]; simpl; [reflexivity|].
  destruct (String.eqb_spec k0 k) as [->|Hne]; [discriminate|]. intros Hl.
  destruct (arrayIndex k0) as [m|]; [destruct (m <? n)%N|]; simpl; try reflexivity.
  rewrite IH by assumption.
  destruct (String.eqb_spec k0 k') as [->|Hne']; [|reflexivity].
  apply String.eqb_neq in Hne. rewrite String.eqb_sym in Hne. now rewrite Hne.
Qed.

Lemma keys_insertIndex {A} n k (a : A) l x :
  In x (map fst (insertIndex n k a l)) <-> x = k \/ In x (map fst l).
Proof.
  induction l as [|[k0 a0] l IH]; simpl; [intuition|].
  destruct (arrayIndex k0) as [m|]; [destruct (m <? n)%N|]; simpl;
    rewrite ?IH; intuition.
Qed.

Lemma NoDup_insertIndex {A} n k (a : A) l :
  ~ In k (map fst l) -> NoDup (map fst l) -> NoDup (map fst (insertIndex n k a l)).
Proof.
  induction l as [|[k0 a0] l IH]; simpl; intros Hk Hnd.
  - constructor; [tauto|constructor].
  - inversion Hnd as [|? ? Hk0 Hl]; subst.
    destruct (arrayIndex k0) as [m|]; [destruct (m <? n)%N|]; simpl.
    + constructor.
      * rewrite keys_insertIndex. intuition.
      * apply IH; tauto.
    + constructor; simpl; [tauto|assumption].
    + constructor; simpl; [tauto|assumption].
Qed.

Lemma lookup_setProp_same {A} k (a : A) l :
  k <> "__proto__" -> lookup k (setProp k a l) = Some a.
Proof.
  intros Hk. apply String.eqb_neq in Hk.
  unfold setProp. destruct (lookup k l) eqn:E.
  - apply lookup_replaceAt_same. congruence.
  - rewrite Hk. destruct (arrayIndex k).
    + rewrite lookup_insertIndex by assumption. now rewrite String.eqb_refl.
    + rewrite lookup_app, E. simpl. now rewrite String.eqb_refl.
Qed.

Lemma lookup_setProp_other {A} k k' (a : A) l :
  k <> k' -> lookup k' (setProp k a l) = lookup k' l.
Proof.
  intros Hne. unfold setProp. destruct (lookup k l) eqn:E.
  - now apply lookup_replaceAt_other.
  - destruct (k =? "__proto__"); [reflexivity|].
    pose proof Hne as Hb. apply String.eqb_neq in Hb.
    destruct (arrayIndex k).
    + rewrite lookup_insertIndex by assumption. now rewrite Hb.
    + rewrite lookup_app. destruct (lookup k' l); [reflexivity|].
      simpl. now rewrite Hb.
Qed.

Lemma lookup_setProp {A} k k' (a : A) l :
  k <> "__proto__" ->
  lookup k' (setProp k a l) = if k =? k' then Some a else lookup k' l.
Proof.
  intros Hk. destruct (String.eqb_spec k k') as [<-|Hne].
  - now apply lookup_setProp_same.
  - now apply lookup_setProp_other.
Qed.

(** A write under [__proto__] leaves a dictionary without such an own
    property as it is. *)
Lemma setProp_proto {A} (a : A) l :
  lookup "__proto__" l = None -> setProp "__proto__" a l = l.
Proof.
  intros H. unfold setProp. now rewrite H.
Qed.

Lemma lookup_proto_setProp {A} k (a : A) l :
  lookup "__proto__" l = None -> lookup "__proto__" (setProp k a l) = None.
Proof.
  intros H. destruct (String.eqb_spec k "__proto__") as [->|Hne].
  - now rewrite setProp_proto.
  - now rewrite lookup_setProp_other.
Qed.

(** What a read finds after a write was already there, or is what was
    written. *)
Lemma lookup_setProp_inv {A} k k' (a b : A) l :
  lookup k' (setProp k a l) = Some b ->
  (k = k' /\ b = a) \/ lookup k' l = Some b.
Proof.
  destruct (String.eqb_spec k k') as [<-|Hne].
  - destruct (String.eqb_spec k "__proto__") as [->|Hk].
    + destruct (lookup "__proto__" l) as [c|] eqn:E.
      * unfold setProp. rewrite E, lookup_replaceAt_same by congruence.
        intros [= <-]. now left.
      * rewrite setProp_proto by assumption. congruence.
    + rewrite lookup_setProp_same by assumption. intros [= <-]. now left.
  - rewrite lookup_setProp_other by assumption. now right.
Qed.

Lemma NoDup_setProp {A} k (a : A) l :
  NoDup (map fst l) -> NoDup (map fst (setProp k a l)).
Proof.
  intros Hnd. unfold setProp. destruct (lookup k l) eqn:E.
  - now rewrite keys_replaceAt.
  - destruct (k =? "__proto__"); [exact Hnd|].
    apply lookup_None_keys in E. destruct (arrayIndex k).
    + now apply NoDup_insertIndex.
    + rewrite map_app. simpl. apply NoDup_app; repeat split; auto.
      * constructor; [intros []|constructor].
      * intros x Hx [<-|[]]. contradiction.
Qed.

(** ** The resolver *)

Lemma firstMatch_Some v catalog name :
  firstMatch (JSON_stringify v) catalog = Some name <-> firstEqual name v catalog.
Proof.
  induction catalog as [|[n d] l IH]; simpl.
  - split; [discriminate|]. intros (before & d & after & E & _).
    now destruct before.
  - destruct (strictEqual (JSON_stringify (named_value d)) (JSON_stringify v)) eqn:E.
    + apply strictEqual_spec in E. split.
      * intros [= ->]. exists [], d, l. repeat split; auto.
      * intros ([|[n0 d0] before] & d' & after & El & Hv & Hb); simpl in El.
        -- now injection El as -> _ _.
        -- injection El as -> -> _. inversion Hb; subst. simpl in *. contradiction.
    + assert (Hne : JSON_stringify (named_value d) <> JSON_stringify v).
      { intros Hv. apply strictEqual_spec in Hv. congruence. }
      rewrite IH. split.
      * intros (before & d' & after & -> & Hv & Hb).
        exists ((n, d) :: before), d', after. repeat split; auto.
      * intros ([|[n0 d0] before] & d' & after & El & Hv & Hb); simpl in El.
        -- injection El as _ -> _. contradiction.
        -- injection El as _ _ ->. inversion Hb; subst.
           exists before, d', after. repeat split; auto.
Qed.

Lemma firstMatch_None v catalog :
  firstMatch (JSON_stringify v) catalog = None <-> noneEqual v catalog.
Proof.
  unfold noneEqual. induction catalog as [|[n d] l IH]; simpl.
  - split; constructor.
  - destruct (strictEqual (JSON_stringify (named_value d)) (JSON_stringify v)) eqn:E.
    + apply strictEqual_spec in E. split; [discriminate|].
      intros H. inversion H; subst. simpl in *. contradiction.
    + rewrite IH. split.
      * intros H. constructor; [|assumption]. simpl.
        intros Hv. apply strictEqual_spec in Hv. congruence.
      * intros H. now inversion H.
Qed.

(** What [findMatchingNamedExport] returns depends on the text of the
    value alone. *)
Lemma findMatchingNamedExport_text k1 k2 v1 v2 catalog :
  JSON_stringify v1 = JSON_stringify v2 ->
  findMatchingNamedExport k1 v1 catalog = findMatchingNamedExport k2 v2 catalog.
Proof.
  unfold findMatchingNamedExport. now intros ->.
Qed.

(** ** The catalog *)

Lemma lookup_fold_setProp {A} k (l : list (string * A)) :
  k <> "__proto__" ->
  forall acc,
    lookup k (fold_left (fun t kv => setProp (fst kv) (snd kv) t) l acc) =
    match lastDeclared k l with Some a => Some a | None => lookup k acc end.
Proof.
  intros Hk. unfold lastDeclared.
  induction l as [|[k0 a0] l IH]; intros acc; simpl; [reflexivity|].
  rewrite IH, lookup_app. destruct (lookup k (rev l)); [reflexivity|].
  simpl. destruct (String.eqb_spec k0 k) as [->|Hne].
  - now apply lookup_setProp_same.
  - now apply lookup_setProp_other.
Qed.

Lemma lookup_proto_fold_setProp {A} (l : list (string * A)) :
  forall acc,
    lookup "__proto__" acc = None ->
    lookup "__proto__" (fold_left (fun t kv => setProp (fst kv) (snd kv) t) l acc) = None.
Proof.
  induction l as [|[k0 a0] l IH]; intros acc H; simpl; [exact H|].
  apply IH. now apply lookup_proto_setProp.
Qed.

Lemma NoDup_fold_setProp {A} (l : list (string * A)) :
  forall acc,
    NoDup (map fst acc) ->
    NoDup (map fst (fold_left (fun t kv => setProp (fst kv) (snd kv) t) l acc)).
Proof.
  induction l as [|[k0 a0] l IH]; intros acc H; simpl; [assumption|].
  apply IH. now apply NoDup_setProp.
Qed.

Lemma NoDup_lookup {A} k (a : A) l :
  NoDup (map fst l) -> In (k, a) l -> lookup k l = Some a.
Proof.
  induction l as [|[k0 a0] l IH]; simpl; intros Hnd Hin; [contradiction|].
  inversion Hnd as [|? ? Hk0 Hl]; subst.
  destruct Hin as [[= -> ->]|Hin].
  - now rewrite String.eqb_refl.
  - destruct (String.eqb_spec k0 k) as [->|Hne]; [|auto].
    exfalso. apply Hk0. now apply (in_map fst) in Hin.
Qed.

Lemma lookup_rev_NoDup {A} k (l : list (string * A)) :
  NoDup (map fst l) -> lookup k (rev l) = lookup k l.
Proof.
  intros Hnd. destruct (lookup k l) as [a|] eqn:E.
  - apply NoDup_lookup.
    + rewrite map_rev. now apply NoDup_rev.
    + apply in_rev. rewrite rev_involutive. now apply lookup_In.
  - apply lookup_None_keys. apply lookup_None_keys in E.
    rewrite map_rev, <- in_rev. exact E.
Qed.

Lemma scanOutput_named st entry st' :
  scanOutput st entry = inr st' ->
  snd st' =
  fold_left (fun t kv => setProp (fst kv) (snd kv) t) (namedDeclaration entry) (snd st).
Proof.
  destruct entry as [k output]. unfold scanOutput, namedDeclaration. simpl.
  destruct output as [|b|n|s|l|props|h]; simpl; try discriminate;
    try (destruct (startsWith k ExportsOutputFn); simpl; now intros [= <-]).
  destruct (startsWith k ExportsOutputFn); simpl.
  - destruct (truthy (lookup "Export" props)); simpl.
    + destruct (lookup "Export" props) as [[]|]; simpl; try discriminate;
        now intros [= <-].
    + now intros [= <-].
  - rewrite andb_true_r.
    destruct (truthy (lookup "Export" props)) eqn:T; simpl.
    + destruct (lookup "Export" props) as [[]|]; simpl; try discriminate;
        now intros [= <-].
    + now intros [= <-].
Qed.

Lemma foldM_scanOutput_named entries :
  forall st st',
    foldM scanOutput entries st = inr st' ->
    snd st' =
    fold_left (fun t kv => setProp (fst kv) (snd kv) t)
      (flat_map namedDeclaration entries) (snd st).
Proof.
  induction entries as [|e entries IH]; intros st st' H; simpl in H.
  - now injection H as <-.
  - unfold bind in H. destruct (scanOutput st e) as [x|st1] eqn:E; [discriminate|].
    simpl. rewrite fold_left_app, <- (scanOutput_named _ _ _ E). now apply IH.
Qed.

Lemma outputsOf_mapping tree o : outputsOf tree = inr o -> o = outputsMapping tree.
Proof.
  unfold outputsOf, outputsMapping. destruct tree; simpl; try discriminate;
    now intros [= <-].
Qed.

Lemma analyzeContent_named file tree a :
  analyzeContent file tree = inr a ->
  namedExports a =
  fold_left (fun t kv => setProp (fst kv) (snd kv) t) (declarationsOf tree) [].
Proof.
  unfold analyzeContent, bind. destruct (outputsOf tree) as [x|o] eqn:Eo; [discriminate|].
  apply outputsOf_mapping in Eo. subst o.
  destruct (foldM scanOutput _ _) as [x|exports] eqn:Ef; [discriminate|].
  intros [= <-]. simpl. now apply foldM_scanOutput_named in Ef.
Qed.

Lemma mapM_Forall2 {A B} (f : A -> result B) l :
  forall bs, mapM f l = inr bs -> Forall2 (fun a b => f a = inr b) l bs.
Proof.
  induction l as [|a l IH]; intros bs H; simpl in H.
  - injection H as <-. constructor.
  - unfold bind in H. destruct (f a) as [x|b] eqn:E; [discriminate|].
    destruct (mapM f l) as [x|bs'] eqn:E'; [discriminate|].
    injection H as <-. constructor; auto.
Qed.

Lemma catalog_fold docs analyses :
  Forall2 (fun d a => analyzeContent (fst d) (snd d) = inr a) docs analyses ->
  forall acc k,
    NoDup (map fst acc) ->
    NoDup (map fst (fold_left (fun all a => Object_assign all (namedExports a)) analyses acc)) /\
    (k <> "__proto__" ->
     lookup k (fold_left (fun all a => Object_assign all (namedExports a)) analyses acc) =
     match lastDeclared k (flat_map (fun d => declarationsOf (snd d)) docs) with
     | Some a => Some a
     | None => lookup k acc
     end).
Proof.
  induction 1 as [|d a docs analyses Hd _ IH]; intros acc k Hnd; simpl.
  - now split.
  - assert (Hnd' : NoDup (map fst (Object_assign acc (namedExports a))))
      by now apply NoDup_fold_setProp.
    destruct (IH (Object_assign acc (namedExports a)) k Hnd') as [H1 H2].
    split; [exact H1|]. intros Hk. rewrite (H2 Hk). unfold lastDeclared.
    rewrite rev_app_distr, lookup_app.
    destruct (lookup k (rev (flat_map _ docs))); [reflexivity|].
    unfold Object_assign. rewrite lookup_fold_setProp by exact Hk. unfold lastDeclared.
    rewrite (analyzeContent_named _ _ _ Hd).
    rewrite lookup_rev_NoDup by (apply NoDup_fold_setProp; constructor).
    rewrite lookup_fold_setProp by exact Hk. unfold lastDeclared. simpl.
    now destruct (lookup k (rev (declarationsOf (snd d)))).
Qed.

(** No dictionary built by assignments has an own property [__proto__]. *)
Lemma catalog_proto analyses :
  forall acc,
    lookup "__proto__" acc = None ->
    lookup "__proto__"
      (fold_left (fun all a => Object_assign all (namedExports a)) analyses acc) = None.
Proof.
  induction analyses as [|a analyses IH]; intros acc H; simpl; [exact H|].
  apply IH. unfold Object_assign. now apply lookup_proto_fold_setProp.
Qed.



Lemma firstEqual_In name v catalog :
  firstEqual name v catalog ->
  exists d, In (name, d) catalog /\ JSON_stringify (named_value d) = JSON_stringify v.
Proof.
  intros (before & d & after & -> & Hv & _). exists d. split; [|exact Hv].
  apply in_or_app. right. now left.
Qed.

Lemma matchExport_backed catalog synthetic st e :
  backed catalog synthetic (fst st) -> In e synthetic ->
  backed catalog synthetic (fst (matchExport catalog st e)).
Proof.
  intros Hb Hin. destruct e as [k data]. unfold matchExport.
  destruct (findMatchingNamedExport k (value data) catalog) as [m|] eqn:E; [|exact Hb].
  destruct (m =? ""); [exact Hb|]. simpl.
  intros s n Hl. apply lookup_setProp_inv in Hl as [[Hs ->]|Hl]; [|now apply Hb].
  apply firstMatch_Some, firstEqual_In in E.
  destruct E as (d & Hd & Hv). exists k, data, d. auto.
Qed.

Lemma fold_matchExport_backed catalog synthetic es :
  forall st,
    backed catalog synthetic (fst st) -> incl es synthetic ->
    backed catalog synthetic (fst (fold_left (matchExport catalog) es st)).
Proof.
  induction es as [|e es IH]; intros st Hb Hincl; simpl; [exact Hb|].
  apply IH.
  - apply matchExport_backed; [exact Hb|]. apply Hincl. now left.
  - intros x Hx. apply Hincl. now right.
Qed.

(** The two nested loops of lines 148-157 visit the synthetic exports of
    all templates in one sequence. *)
Lemma findReplacements_flat analyses catalog :
  findReplacements analyses catalog =
  fold_left (matchExport catalog) (flat_map exportsOutputFn analyses) ([], 0).
Proof.
  unfold findReplacements. generalize (@nil (string * string), 0).
  induction analyses as [|a analyses IH]; intros st; simpl; [reflexivity|].
  now rewrite fold_left_app, IH.
Qed.

Lemma findReplacements_backed catalog analyses :
  backed catalog (flat_map exportsOutputFn analyses)
    (fst (findReplacements analyses catalog)).
Proof.
  rewrite findReplacements_flat. apply fold_matchExport_backed.
  - intros s n [=].
  - apply incl_refl.
Qed.

Lemma collectNamedExports_NoDup analyses :
  NoDup (map fst (collectNamedExports analyses)).
Proof.
  unfold collectNamedExports.
  assert (H : forall acc, NoDup (map fst acc) ->
            NoDup (map fst (fold_left
              (fun all a => Object_assign all (namedExports a)) analyses acc))).
  { induction analyses as [|a analyses IH]; intros acc Hacc; simpl; [exact Hacc|].
    apply IH. now apply NoDup_fold_setProp. }
  apply H. constructor.
Qed.

(** Two values of JSON data with the same text are the same tree. *)
Lemma same_text_same_tree (a b : any) :
  JSON_stringify a = JSON_stringify b ->
  jsonValue a = true -> jsonValue b = true -> a = b.
Proof.
  intros H Ha Hb. apply (stringify_equal_iff a b Ha Hb). now apply strictEqual_spec.
Qed.

(** C1, as stated, fails: the replacement map is keyed by export name, so
    two synthetic exports that share their export name share their
    entry.  Here the first carries the value of the named export [Nice]
    and is matched; the second carries another value and matches
    nothing, yet it is a synthetic export named [Shared:...] which the
    map sends to [Nice], and the reference of the second template is
    rewritten to [Nice]. *)
Lemma shared_name_breaks_soundness :
  replacementsOf (analysesOf sharedNameDocs)
    = [("Shared:ExportsOutputFnRefBucket", "Nice")] /\
  lookup "Nice" (collectNamedExports (analysesOf sharedNameDocs))
    = Some {| key := "Named"; named_value := Some (JObj [("Ref", JStr "BucketA")]) |} /\
  In ("ExportsOutputFnRefBucketB",
      {| exportName := Some (JStr "Shared:ExportsOutputFnRefBucket");
         value := Some (JObj [("Ref", JStr "BucketB")]) |})
     (flat_map exportsOutputFn (analysesOf sharedNameDocs)) /\
  sameContents (JObj [("Ref", JStr "BucketB")]) (JObj [("Ref", JStr "BucketA")]) = false /\
  strictEqual (JSON_stringify (Some (JObj [("Ref", JStr "BucketB")])))
              (JSON_stringify (Some (JObj [("Ref", JStr "BucketA")]))) = false /\
  updated (reportOf sharedNameDocs) = ["B.template.json"] /\
  lookup "B.template.json" (documents (reportOf sharedNameDocs))
    = Some (JObj [("Outputs",
                   JObj [("ExportsOutputFnRefBucketB",
                          exportOutput "Shared:ExportsOutputFnRefBucket"
                            (JObj [("Ref", JStr "BucketB")]))]);
                  ("Resources",
                   JObj [("Consumer", JObj [(Fn_ImportValue, JStr "Nice")])])]).
Proof.
  repeat split; try reflexivity. right. now left.
Qed.

(** C1, amended.  Soundness of matching: every entry [s -> n] of the
    replacement map of a run comes from a synthetic export whose export
    name is [s] and whose value has the same text under [JSON.stringify]
    as the value the catalog holds for the named export [n]; two such
    values of JSON data - whose numbers, here, are integers - are the
    same tree, with the same keys in the same order, the same elements
    and the same scalars.  When the synthetic exports that share the
    export name [s] all carry the same value, this holds of every
    synthetic export named [s]. *)
Theorem matching_sound :
  forall (analyses : list AnalysisResult) (s n : string),
    lookup s (replacementsOf analyses) = Some n ->
    exists d,
      lookup n (collectNamedExports analyses) = Some d /\
      (exists analysis k data,
          In analysis analyses /\
          In (k, data) (exportsOutputFn analysis) /\
          ToPropertyKey (exportName data) = s /\
          JSON_stringify (value data) = JSON_stringify (named_value d) /\
          (jsonValue (value data) = true -> jsonValue (named_value d) = true ->
           value data = named_value d)) /\
      ((forall a1 k1 d1 a2 k2 d2,
           In a1 analyses -> In (k1, d1) (exportsOutputFn a1) ->
           In a2 analyses -> In (k2, d2) (exportsOutputFn a2) ->
           ToPropertyKey (exportName d1) = s -> ToPropertyKey (exportName d2) = s ->
           JSON_stringify (value d1) = JSON_stringify (value d2)) ->
       forall analysis k data,
         In analysis analyses ->
         In (k, data) (exportsOutputFn analysis) ->
         ToPropertyKey (exportName data) = s ->
         JSON_stringify (value data) = JSON_stringify (named_value d) /\
         (jsonValue (value data) = true -> jsonValue (named_value d) = true ->
          value data = named_value d)).
Proof.
  intros analyses s n H.
  destruct (findReplacements_backed (collectNamedExports analyses) analyses s n H)
    as (k & data & d & Hin & Hs & Hd & Hv).
  apply in_flat_map in Hin as (analysis & Ha & Hk).
  exists d. split; [|split].
  - apply NoDup_lookup; [apply collectNamedExports_NoDup|exact Hd].
  - exists analysis, k, data. repeat split; auto.
    intros J1 J2. now apply same_text_same_tree.
  - intros Hsame analysis' k' data' Ha' Hk' Hs'.
    assert (Ht : JSON_stringify (value data') = JSON_stringify (named_value d)).
    { rewrite <- Hv. now apply (Hsame analysis' k' data' analysis k data). }
    split; [exact Ht|]. intros J1 J2. now apply same_text_same_tree.
Qed.


Lemma matching_sound_witness :
  lookup "X:ExportsOutputFnGetAttBucketAArn7f3a" (replacementsOf (analysesOf sampleDocs))
    = Some "SharedBucketArn" /\
  exists d,
    lookup "SharedBucketArn" (collectNamedExports (analysesOf sampleDocs)) = Some d /\
    (exists analysis k data,
        In analysis (analysesOf sampleDocs) /\
        In (k, data) (exportsOutputFn analysis) /\
        ToPropertyKey (exportName data) = "X:ExportsOutputFnGetAttBucketAArn7f3a" /\
        JSON_stringify (value data) = JSON_stringify (named_value d) /\
        (jsonValue (value data) = true -> jsonValue (named_value d) = true ->
         value data = named_value d)) /\
    ((forall a1 k1 d1 a2 k2 d2,
         In a1 (analysesOf sampleDocs) -> In (k1, d1) (exportsOutputFn a1) ->
         In a2 (analysesOf sampleDocs) -> In (k2, d2) (exportsOutputFn a2) ->
         ToPropertyKey (exportName d1) = "X:ExportsOutputFnGetAttBucketAArn7f3a" ->
         ToPropertyKey (exportName d2) = "X:ExportsOutputFnGetAttBucketAArn7f3a" ->
         JSON_stringify (value d1) = JSON_stringify (value d2)) ->
     forall analysis k data,
       In analysis (analysesOf sampleDocs) ->
       In (k, data) (exportsOutputFn analysis) ->
       ToPropertyKey (exportName data) = "X:ExportsOutputFnGetAttBucketAArn7f3a" ->
       JSON_stringify (value data) = JSON_stringify (named_value d) /\
       (jsonValue (value data) = true -> jsonValue (named_value d) = true ->
        value data = named_value d)).
Proof.
  split; [reflexivity|].
  apply (matching_sound (analysesOf sampleDocs)). reflexivity.
Defined.

(** ** The entry the resolver records *)

Lemma fold_matchExport_final catalog key first v :
  key <> "__proto__" ->
  firstMatch (JSON_stringify v) catalog = Some first -> first <> "" ->
  forall es,
    (forall k d, In (k, d) es -> ToPropertyKey (exportName d) = key ->
                 JSON_stringify (value d) = JSON_stringify v) ->
    forall st : Replacements * nat,
      lookup key (fst st) = Some first \/
      (exists k d, In (k, d) es /\ ToPropertyKey (exportName d) = key) ->
      lookup key (fst (fold_left (matchExport catalog) es st)) = Some first.
Proof.
  intros Hkey Hfirst Hne. induction es as [|[k d] es IH]; intros Hsame st Hor;
    cbn [fold_left].
  - destruct Hor as [H|(k & d & [] & _)]. exact H.
  - apply IH.
    + intros k' d' Hin. apply (Hsame k' d'). now right.
    + destruct (String.eqb_spec (ToPropertyKey (exportName d)) key) as [Hk|Hk].
      * left. unfold matchExport, findMatchingNamedExport.
        rewrite (Hsame k d (or_introl eq_refl) Hk), Hfirst.
        destruct (String.eqb_spec first "") as [|_]; [contradiction|]. simpl.
        rewrite Hk. now apply lookup_setProp_same.
      * assert (Hl : lookup key (fst (matchExport catalog st (k, d)))
                     = lookup key (fst st)).
        { unfold matchExport.
          destruct (findMatchingNamedExport _ _ _) as [m|]; [|reflexivity].
          destruct (m =? ""); [reflexivity|]. simpl. now apply lookup_setProp_other. }
        rewrite Hl.
        destruct Hor as [H|(k' & d' & [[= <- <-]|Hin] & Hk')];
          [now left|contradiction|].
        right. now exists k', d'.
Qed.

Lemma fold_matchExport_absent catalog key es :
  (forall k d, In (k, d) es -> ToPropertyKey (exportName d) = key ->
               isMatched catalog (k, d) = false) ->
  forall st : Replacements * nat,
    lookup key (fst st) = None ->
    lookup key (fst (fold_left (matchExport catalog) es st)) = None.
Proof.
  induction es as [|[k d] es IH]; intros H st Hst; cbn [fold_left]; [exact Hst|].
  apply IH; [intros k' d' Hin; apply (H k' d'); now right|].
  destruct (String.eqb_spec (ToPropertyKey (exportName d)) key) as [Hk|Hk].
  - specialize (H k d (or_introl eq_refl) Hk). unfold isMatched in H. cbn [fst snd] in H.
    unfold matchExport.
    destruct (findMatchingNamedExport k (value d) catalog) as [m|]; [|exact Hst].
    destruct (m =? ""); [exact Hst|discriminate H].
  - unfold matchExport.
    destruct (findMatchingNamedExport _ _ _) as [m|]; [|exact Hst].
    destruct (m =? ""); [exact Hst|]. simpl. now rewrite lookup_setProp_other.
Qed.




(** C2, as stated, fails: two mappings with the same keys and values,
    listed in different orders, serialize to different texts, so the
    resolver does not match them. *)
Lemma key_order_defeats_matching :
  sameContents tagsThenName nameThenTags = true /\
  strictEqual (JSON_stringify (Some tagsThenName)) (JSON_stringify (Some nameThenTags))
    = false /\
  findMatchingNamedExport "ExportsOutputFnVpc" (Some tagsThenName)
    [("SharedVpc", {| key := "VpcExport"; named_value := Some nameThenTags |})] = None.
Proof.
  repeat split; reflexivity.
Qed.

(** C2, amended.  Completeness of matching for identical trees: when a
    catalog entry carries the same tree as the synthetic export (same
    keys in the same order, same elements, same scalars), the two
    serializations are equal and [findMatchingNamedExport] returns a
    match, namely the first entry with that value. *)
Theorem same_tree_is_matched :
  forall (exportsKey : string) (v : any) (catalog : list (string * NamedExportData))
         (name : string) (d : NamedExportData),
    In (name, d) catalog ->
    named_value d = v ->
    strictEqual (JSON_stringify (named_value d)) (JSON_stringify v) = true /\
    exists first,
      firstEqual first v catalog /\
      findMatchingNamedExport exportsKey v catalog = Some first.
Proof.
  intros exportsKey v catalog name d Hin Hv. split.
  - apply strictEqual_spec. now rewrite Hv.
  - unfold findMatchingNamedExport.
    destruct (firstMatch (JSON_stringify v) catalog) as [first|] eqn:E.
    + exists first. split; [now apply firstMatch_Some|reflexivity].
    + exfalso. apply firstMatch_None in E. unfold noneEqual in E.
      rewrite Forall_forall in E. apply (E (name, d) Hin). simpl. now rewrite Hv.
Qed.

Lemma same_tree_is_matched_witness :
  In ("SharedBucketArn", {| key := "BucketArnExport"; named_value := Some bucketArn |})
     (collectNamedExports (analysesOf sampleDocs)) /\
  Some bucketArn = Some bucketArn /\
  strictEqual (JSON_stringify (Some bucketArn)) (JSON_stringify (Some bucketArn)) = true /\
  exists first,
    firstEqual first (Some bucketArn) (collectNamedExports (analysesOf sampleDocs)) /\
    findMatchingNamedExport "ExportsOutputFnGetAttBucketAArn7f3a" (Some bucketArn)
      (collectNamedExports (analysesOf sampleDocs)) = Some first.
Proof.
  split; [now left|]. split; [reflexivity|].
  apply (same_tree_is_matched "ExportsOutputFnGetAttBucketAArn7f3a" (Some bucketArn)
           (collectNamedExports (analysesOf sampleDocs)) "SharedBucketArn"
           {| key := "BucketArnExport"; named_value := Some bucketArn |});
    [now left|reflexivity].
Defined.

(** ** Walking a tree *)

Lemma indexed_from_Forall (P : json -> Prop) l :
  Forall P l -> forall i, Forall (fun kv => P (snd kv)) (indexed_from i l).
Proof.
  induction 1; intros i; simpl; constructor; auto.
Qed.

(** Induction that follows [Object.entries], as the two walks do. *)
Lemma json_entries_ind (P : json -> Prop) :
  (forall t, typeofObject t = false -> P t) ->
  (forall t, typeofObject t = true ->
             Forall (fun kv => P (snd kv)) (Object_entries t) -> P t) ->
  forall t, P t.
Proof.
  intros Hleaf Hnode. induction t using json_ind; try (now apply Hleaf).
  - apply Hnode; [reflexivity|]. simpl. now apply indexed_from_Forall.
  - apply Hnode; [reflexivity|]. assumption.
  - destruct h; [apply Hnode; [reflexivity|constructor]|now apply Hleaf].
Qed.

Lemma findImports_unfold t p :
  findImports t p =
  if typeofObject t then
    importAt t p ++
    flat_map (fun kv => findImports (snd kv) (childPath p (fst kv))) (Object_entries t)
  else [].
Proof.
  destruct t as [| | | |l|l|[|name]]; try reflexivity.
  - simpl. generalize 0. induction l as [|v l IH]; intros i; simpl; [reflexivity|].
    now rewrite IH.
  - simpl. f_equal. induction l as [|[k v] l IH]; simpl; [reflexivity|].
    now rewrite IH.
Qed.

Lemma prefix_split p s : String.prefix p s = true <-> exists b, s = (p ++ b)%string.
Proof.
  revert s. induction p as [|c p IH]; intros [|c' s]; simpl.
  - split; [now exists ""|reflexivity].
  - split; [now exists (String c' s)|reflexivity].
  - split; [discriminate|intros [b [=]]].
  - destruct (Ascii.ascii_dec c c') as [->|Hne].
    + rewrite IH. split; intros [b Hb]; exists b; simpl in *; congruence.
    + split; [discriminate|]. intros [b [= ? ?]]. congruence.
Qed.

(** [includes] finds the text at any offset. *)
Lemma includes_spec s sub :
  includes s sub = true <-> exists a b, s = (a ++ sub ++ b)%string.
Proof.
  induction s as [|c s IH]; cbn [includes].
  - rewrite orb_false_r, prefix_split. split.
    + intros [b Hb]. now exists "", b.
    + intros ([|? a] & b & H); simpl in H; [now exists b|discriminate].
  - rewrite orb_true_iff, IH, prefix_split. split.
    + intros [[b Hb]|(a & b & ->)].
      * now exists "", b.
      * now exists (String c a), b.
    + intros ([|c' a] & b & H); simpl in H.
      * left. now exists b.
      * injection H as -> ->. right. now exists a, b.
Qed.

Lemma importAt_eq node p :
  importAt node p =
  match node with
  | JObj l =>
      match lookup Fn_ImportValue l with
      | Some (JStr s) =>
          if includes s ExportsOutputFn
          then [{| path := p; import_value := s |}]
          else []
      | _ => []
      end
  | _ => []
  end.
Proof.
  destruct node as [| | | | |l|h]; try reflexivity. unfold importAt.
  destruct (lookup Fn_ImportValue l) as [[|b|n|s|e|o|h]|]; try reflexivity; simpl.
  - now destruct b.
  - now destruct (negb (n =? 0)%Z).
  - now destruct s.
Qed.

Lemma importAt_spec node p q s :
  In {| path := q; import_value := s |} (importAt node p) <->
  q = p /\ exists l, node = JObj l /\
                     lookup Fn_ImportValue l = Some (JStr s) /\
                     includes s ExportsOutputFn = true.
Proof.
  rewrite importAt_eq. split.
  - intros H. destruct node as [| | | | |l|h]; try contradiction.
    destruct (lookup Fn_ImportValue l) as [[| | |s'| | |h]|] eqn:E; try contradiction.
    destruct (includes s' ExportsOutputFn) eqn:I; [|contradiction].
    destruct H as [[= <- <-]|[]]. split; [reflexivity|]. now exists l.
  - intros (-> & l & -> & E & I). rewrite E, I. now left.
Qed.

Lemma findImports_NodeAt tree :
  forall p q s,
    In {| path := q; import_value := s |} (findImports tree p) ->
    exists l, NodeAt tree p (JObj l) q /\
              lookup Fn_ImportValue l = Some (JStr s) /\
              includes s ExportsOutputFn = true.
Proof.
  induction tree as [t Ht|t Ht IH] using json_entries_ind; intros p q s H;
    rewrite findImports_unfold, Ht in H; [contradiction|].
  apply in_app_or in H as [H|H].
  - apply importAt_spec in H as (-> & l & -> & E & I).
    exists l. split; [constructor|auto].
  - apply in_flat_map in H as ([k child] & Hin & H). simpl in H.
    rewrite Forall_forall in IH.
    destruct (IH _ Hin _ _ _ H) as (l & Hn & E & I).
    exists l. split; [|auto]. now apply (node_below t p k child).
Qed.

Lemma NodeAt_findImports tree p node q :
  NodeAt tree p node q ->
  forall l s,
    node = JObj l ->
    lookup Fn_ImportValue l = Some (JStr s) ->
    includes s ExportsOutputFn = true ->
    In {| path := q; import_value := s |} (findImports tree p).
Proof.
  induction 1 as [tree p|tree p k child node q Ht Hin _ IH]; intros l s -> E I.
  - rewrite findImports_unfold. cbn [typeofObject]. apply in_or_app. left.
    apply importAt_spec. split; [reflexivity|]. now exists l.
  - rewrite findImports_unfold, Ht. apply in_or_app. right.
    apply in_flat_map. exists (k, child). split; [exact Hin|].
    now apply (IH l s).
Qed.

(** C4, as stated, fails: the scanner records a reference whose target
    does not start with the prefix but contains it further on, as the
    export names of the toolkit do. *)
Lemma scanner_records_embedded_prefix :
  specReferenceMarker sampleMarker = false /\
  startsWith "X:ExportsOutputFnGetAttBucketAArn7f3a" ExportsOutputFn = false /\
  findImports sampleMarker "" =
    [{| path := ""; import_value := "X:ExportsOutputFnGetAttBucketAArn7f3a" |}].
Proof.
  repeat split; reflexivity.
Qed.

(** C4, amended.  Scanner characterization: [findImports] records an
    occurrence with path [q] and target [s] exactly when the walk visits,
    with accumulated path [q], a mapping that holds under the key
    [Fn::ImportValue] (alone or next to other keys) the string [s], and
    [s] contains the text [ExportsOutputFn] at some offset.  A reference
    whose target does not contain that text is never recorded. *)
Theorem scanner_characterization :
  forall (tree : json) (p q s : string),
    In {| path := q; import_value := s |} (findImports tree p) <->
    exists l,
      NodeAt tree p (JObj l) q /\
      lookup Fn_ImportValue l = Some (JStr s) /\
      exists a b, s = (a ++ ExportsOutputFn ++ b)%string.
Proof.
  intros tree p q s. split.
  - intros H. apply findImports_NodeAt in H as (l & Hn & E & I).
    exists l. repeat split; auto. now apply includes_spec.
  - intros (l & Hn & E & I). apply includes_spec in I.
    now apply (NodeAt_findImports tree p (JObj l) q Hn l s).
Qed.

(** ** The rewriter *)

Lemma replace_unfold t r :
  replaceImportsInObject t r =
  match t with
  | JObj l =>
      match replacementAt r t with
      | Some v => (JObj (setProp Fn_ImportValue v l), true)
      | None =>
          (JObj (map (fun kv => (fst kv, fst (replaceImportsInObject (snd kv) r))) l),
           existsb (fun kv => snd (replaceImportsInObject (snd kv) r)) l)
      end
  | JArr l =>
      (JArr (map (fun v => fst (replaceImportsInObject v r)) l),
       existsb (fun v => snd (replaceImportsInObject v r)) l)
  | _ => (t, false)
  end.
Proof.
  destruct t as [| | | |l|l|h]; try reflexivity.
  - simpl. induction l as [|v l IH]; simpl; [reflexivity|].
    injection IH as IH1 IH2. now rewrite IH1, IH2.
  - cbn [replaceImportsInObject]. destruct (replacementAt r (JObj l)); [reflexivity|].
    induction l as [|[k v] l IH]; simpl; [reflexivity|].
    injection IH as IH1 IH2. now rewrite IH1, IH2.
Qed.

Lemma replacementAt_spec r t v :
  replacementAt r t = Some v <->
  exists l s, t = JObj l /\ lookup Fn_ImportValue l = Some (JStr s) /\
              s <> "" /\ replacementFor r s = Some v.
Proof.
  split.
  - destruct t as [| | | | |l|h]; simpl; try discriminate.
    destruct (lookup Fn_ImportValue l) as [[| | |s| | |h]|] eqn:E; simpl;
      try discriminate; try (destruct (negb _); discriminate);
      try (destruct b; discriminate).
    intros H. exists l, s. destruct s; [discriminate|]. repeat split; auto.
    discriminate.
  - intros (l & s & -> & E & Hs & H). simpl. rewrite E.
    destruct s; [congruence|exact H].
Qed.

(** What [replacements[s]] is when it is truthy: the non-empty name the
    map holds under [s], or, when [s] is no key of the map, the member of
    [Object.prototype] called [s]. *)
Lemma replacementFor_spec r s v :
  replacementFor r s = Some v <->
  (exists n, lookup s r = Some n /\ n <> "" /\ v = JStr n) \/
  (lookup s r = None /\ ObjectPrototype_get s = Some v).
Proof.
  unfold replacementFor. destruct (lookup s r) as [n|].
  - destruct (String.eqb_spec n "") as [->|Hn]; split.
    + discriminate.
    + intros [(n & [= <-] & Hn & _)|[[=] _]]. congruence.
    + intros [= <-]. left. now exists n.
    + intros [(m & [= <-] & _ & ->)|[[=] _]]. reflexivity.
  - split; [now right|]. now intros [(n & [=] & _)|[_ H]].
Qed.

Lemma replacementFor_own r s n :
  lookup s r = Some n -> n <> "" -> replacementFor r s = Some (JStr n).
Proof.
  intros H Hn. apply replacementFor_spec. left. now exists n.
Qed.

(** A text that contains [ExportsOutputFn] names no member of
    [Object.prototype]. *)
Lemma ObjectPrototype_get_scanned s :
  includes s ExportsOutputFn = true -> ObjectPrototype_get s = None.
Proof.
  intros H. unfold ObjectPrototype_get.
  destruct (String.eqb_spec s "constructor") as [->|_]; [discriminate H|].
  destruct (String.eqb_spec s "__proto__") as [->|_]; [discriminate H|].
  destruct (existsb (String.eqb s) _) eqn:E; [|reflexivity].
  apply existsb_exists in E as (x & Hx & E). apply String.eqb_eq in E. subst x.
  simpl in Hx. repeat (destruct Hx as [<-|Hx]; [discriminate H|]). contradiction.
Qed.

(** For the references the scanner records, [replacements[s]] is decided
    by the own properties of the map. *)
Lemma replacementFor_scanned r s :
  includes s ExportsOutputFn = true ->
  replacementFor r s =
  match lookup s r with
  | Some n => if n =? "" then None else Some (JStr n)
  | None => None
  end.
Proof.
  intros H. unfold replacementFor. destruct (lookup s r); [reflexivity|].
  now apply ObjectPrototype_get_scanned.
Qed.

Lemma Forall2_map_r {A B} (R : A -> B -> Prop) (f : A -> B) l :
  Forall (fun x => R x (f x)) l -> Forall2 R l (map f l).
Proof.
  induction 1; simpl; constructor; auto.
Qed.

Lemma Forall2_refl {A} (R : A -> A -> Prop) l :
  (forall x, R x x) -> Forall2 R l l.
Proof.
  intros H. induction l; constructor; auto.
Qed.

(** Overwriting the marker entry touches that entry alone. *)
Lemma replaceAt_framed r l s v :
  lookup Fn_ImportValue l = Some (JStr s) ->
  replacementFor r s = Some v ->
  Forall2 (fun kv kv' =>
             fst kv = fst kv' /\
             (Framed r (snd kv) (snd kv') \/
              (fst kv = Fn_ImportValue /\
               exists s v, snd kv = JStr s /\ replacementFor r s = Some v /\
                           snd kv' = v)))
    l (replaceAt Fn_ImportValue v l).
Proof.
  intros Hl Hr. induction l as [|[k w] l IH]; simpl in *; [discriminate|].
  destruct (String.eqb_spec k Fn_ImportValue) as [->|Hne].
  - injection Hl as ->. constructor.
    + simpl. split; [reflexivity|]. right. split; [reflexivity|]. now exists s, v.
    + apply Forall2_refl. intros x. split; [reflexivity|]. left. constructor.
  - constructor; [|now apply IH].
    simpl. split; [reflexivity|]. left. constructor.
Qed.



(** ** What an analysis holds *)

Lemma Forall2_In_r {A B} (R : A -> B -> Prop) l1 l2 b :
  Forall2 R l1 l2 -> In b l2 -> exists a, In a l1 /\ R a b.
Proof.
  induction 1 as [|x y l1 l2 Hxy _ IH]; simpl; [tauto|].
  intros [<-|Hin].
  - exists x. auto.
  - destruct (IH Hin) as (a & Ha & Hr). exists a. auto.
Qed.

Lemma analyzeContent_fields file tree a :
  analyzeContent file tree = inr a ->
  imports a = findImports tree "" /\ content a = tree /\ filePath a = file.
Proof.
  unfold analyzeContent, bind. destruct (outputsOf tree); [discriminate|].
  destruct (foldM scanOutput _ _); [discriminate|]. now intros [= <-].
Qed.

Lemma analyzeTemplate_fields JSON_parse fs file a :
  analyzeTemplate JSON_parse fs file = inr a ->
  imports a = findImports (content a) "" /\ filePath a = file /\
  exists text, lookup file fs = Some text /\ JSON_parse text = Some (content a).
Proof.
  unfold analyzeTemplate, readFileSync, bind.
  destruct (lookup file fs) as [text|]; [|discriminate]. simpl.
  destruct (JSON_parse text) as [tree|] eqn:Ep; [|discriminate]. simpl.
  intros H. apply analyzeContent_fields in H as (Hi & Hc & Hf).
  rewrite Hc. repeat split; auto. exists text. now rewrite Ep.
Qed.

(** Every reference the scanner records contains the generated text. *)
Lemma findImports_scanned t p i :
  In i (findImports t p) -> includes (import_value i) ExportsOutputFn = true.
Proof.
  destruct i as [q s]. intros H.
  now apply findImports_NodeAt in H as (l & _ & _ & H).
Qed.

Lemma analyzeContent_scanned file tree a :
  analyzeContent file tree = inr a -> scanned a.
Proof.
  intros H i Hi. apply analyzeContent_fields in H as (Hf & _). rewrite Hf in Hi.
  now apply findImports_scanned in Hi.
Qed.

Lemma analyses_scanned docs analyses :
  mapM (fun d => analyzeContent (fst d) (snd d)) docs = inr analyses ->
  Forall scanned analyses.
Proof.
  intros H. apply mapM_Forall2 in H. rewrite Forall_forall. intros a Ha.
  destruct (Forall2_In_r _ _ _ _ H Ha) as (d & _ & Hd).
  now apply analyzeContent_scanned in Hd.
Qed.

Lemma analyzeTemplate_scanned JSON_parse fs file a :
  analyzeTemplate JSON_parse fs file = inr a -> scanned a.
Proof.
  intros H i Hi. apply analyzeTemplate_fields in H as (Hf & _). rewrite Hf in Hi.
  now apply findImports_scanned in Hi.
Qed.

(** ** Persisting *)

Lemma lookup_writeFileSync file text fs p :
  lookup p (writeFileSync file text fs) =
  if file =? p then Some text else lookup p fs.
Proof.
  unfold writeFileSync. destruct (lookup file fs) eqn:E.
  - destruct (String.eqb_spec file p) as [->|Hne].
    + apply lookup_replaceAt_same. congruence.
    + now apply lookup_replaceAt_other.
  - rewrite lookup_app. simpl. destruct (String.eqb_spec file p) as [->|Hne].
    + now rewrite E.
    + now destruct (lookup p fs).
Qed.

Lemma resolvedImports_nil r a :
  scanned a ->
  (forall i, In i (imports a) -> lookup (import_value i) r = None) ->
  resolvedImports r a = [].
Proof.
  unfold scanned, resolvedImports. induction (imports a) as [|i l IH]; intros Hs H; simpl;
    [reflexivity|].
  rewrite (replacementFor_scanned r _ (Hs i (or_introl eq_refl))).
  rewrite (H i) by now left.
  apply IH; intros j Hj; [apply Hs|apply H]; now right.
Qed.

Lemma applyReplacements_other r st a p :
  (filePath a = p -> resolvedImports r a = []) ->
  lookup p (disk (applyReplacements r st a)) = lookup p (disk st) /\
  (In p (written (applyReplacements r st a)) -> In p (written st)).
Proof.
  intros H. unfold applyReplacements.
  destruct (resolvedImports r a) as [|i hits] eqn:E; simpl; [now split|].
  destruct (snd (replaceImportsInObject (content a) r)); simpl; [|now split].
  rewrite lookup_writeFileSync.
  destruct (String.eqb_spec (filePath a) p) as [Hp|Hp].
  - now apply H in Hp.
  - split; [reflexivity|]. intros Hin. apply in_app_or in Hin as [Hin|[Hin|[]]]; auto.
    contradiction.
Qed.

Lemma fold_applyReplacements_other r p analyses :
  forall st,
    (forall a, In a analyses -> filePath a = p -> resolvedImports r a = []) ->
    lookup p (disk (fold_left (applyReplacements r) analyses st)) = lookup p (disk st) /\
    (In p (written (fold_left (applyReplacements r) analyses st)) -> In p (written st)).
Proof.
  induction analyses as [|a analyses IH]; intros st H; simpl; [now split|].
  destruct (IH (applyReplacements r st a)) as [H1 H2].
  { intros b Hb. apply H. now right. }
  destruct (applyReplacements_other r st a p) as [H3 H4].
  { apply H. now left. }
  split; [congruence|auto].
Qed.

Lemma optimize_other analyses fs p :
  (forall a, In a analyses -> filePath a = p ->
             resolvedImports (replacementsOf analyses) a = []) ->
  lookup p (snd (optimize analyses fs)) = lookup p fs /\
  ~ In p (updated (fst (optimize analyses fs))).
Proof.
  intros H. unfold optimize.
  destruct (snd (findReplacements analyses (collectNamedExports analyses)) =? 0)%nat;
    simpl; [now split|].
  destruct (fold_applyReplacements_other (replacementsOf analyses) p analyses
              {| disk := fs; replaced := 0; written := []; trees := [] |} H) as [H1 H2].
  split; [exact H1|]. intros Hin. now apply H2 in Hin.
Qed.

(** C6.  No-op preservation: a template whose scanned references are all
    without an entry in the replacement map (in particular a template
    without scanned references) is not written by the run, and the text
    stored under its path is the one that was there before. *)
Theorem noop_preserved :
  forall (JSON_parse : string -> option json) (templateFiles : list string)
         (fs : FileSystem) (file : string),
    (forall analyses,
        mapM (analyzeTemplate JSON_parse fs) templateFiles = inr analyses ->
        forall a i,
          In a analyses -> filePath a = file -> In i (imports a) ->
          lookup (import_value i) (replacementsOf analyses) = None) ->
    lookup file (snd (main JSON_parse templateFiles fs)) = lookup file fs /\
    forall report,
      fst (main JSON_parse templateFiles fs) = inr report ->
      ~ In file (updated report).
Proof.
  intros JSON_parse templateFiles fs file H. unfold main.
  destruct (mapM (analyzeTemplate JSON_parse fs) templateFiles) as [e|analyses] eqn:E;
    simpl; [split; [reflexivity|discriminate]|].
  destruct (optimize_other analyses fs file) as [H1 H2].
  { intros a Ha Hp. apply resolvedImports_nil.
    - apply mapM_Forall2 in E.
      destruct (Forall2_In_r _ _ _ _ E Ha) as (f & _ & Hf).
      now apply analyzeTemplate_scanned in Hf.
    - intros i Hi. now apply (H analyses eq_refl a i). }
  split; [exact H1|]. now intros report [= <-].
Qed.

Lemma noop_preserved_witness :
  (forall analyses,
      mapM (analyzeTemplate sampleParse sampleFs) sampleFiles = inr analyses ->
      forall a i,
        In a analyses -> filePath a = "Y.template.json" -> In i (imports a) ->
        lookup (import_value i) (replacementsOf analyses) = None) /\
  lookup "Y.template.json" (snd (main sampleParse sampleFiles sampleFs))
    = lookup "Y.template.json" sampleFs /\
  forall report,
    fst (main sampleParse sampleFiles sampleFs) = inr report ->
    ~ In "Y.template.json" (updated report).
Proof.
  assert (H : forall analyses,
             mapM (analyzeTemplate sampleParse sampleFs) sampleFiles = inr analyses ->
             forall a i,
               In a analyses -> filePath a = "Y.template.json" -> In i (imports a) ->
               lookup (import_value i) (replacementsOf analyses) = None).
  { intros analyses E. vm_compute in E. injection E as <-.
    intros a i [<-|[<-|[]]] Hp Hi; [discriminate Hp|destruct Hi]. }
  split; [exact H|].
  exact (noop_preserved sampleParse sampleFiles sampleFs "Y.template.json" H).
Defined.

(** ** Failing fast *)

Lemma mapM_app {A B} (f : A -> result B) l1 l2 :
  mapM f (l1 ++ l2) =
  (bs1 <- mapM f l1 ;; bs2 <- mapM f l2 ;; ret (bs1 ++ bs2)).
Proof.
  induction l1 as [|a l1 IH]; simpl.
  - unfold bind. now destruct (mapM f l2).
  - unfold bind in *. destruct (f a); [reflexivity|]. rewrite IH.
    destruct (mapM f l1); [reflexivity|]. now destruct (mapM f l2).
Qed.

Lemma analyzeTemplate_parse_error JSON_parse fs file text :
  lookup file fs = Some text -> JSON_parse text = None ->
  analyzeTemplate JSON_parse fs file = inl SyntaxError.
Proof.
  intros Hl Hp. unfold analyzeTemplate, readFileSync. rewrite Hl. simpl.
  now rewrite Hp.
Qed.

(** C8.  Fail-fast on a parse error: when one of the template files does
    not parse, the run ends with an exception and the file system is the
    one it started from; no file has been written.  The exception is the
    [SyntaxError] of that file as soon as the files listed before it were
    analyzed without error. *)
Theorem parse_error_aborts :
  forall (JSON_parse : string -> option json) (before after : list string)
         (file text : string) (fs : FileSystem),
    lookup file fs = Some text ->
    JSON_parse text = None ->
    (exists e, main JSON_parse (before ++ file :: after) fs = (inl e, fs)) /\
    (forall analyses,
        mapM (analyzeTemplate JSON_parse fs) before = inr analyses ->
        main JSON_parse (before ++ file :: after) fs = (inl SyntaxError, fs)).
Proof.
  intros JSON_parse before after file text fs Hl Hp.
  pose proof (analyzeTemplate_parse_error JSON_parse fs file text Hl Hp) as He.
  unfold main. rewrite mapM_app. simpl. rewrite He. unfold bind.
  destruct (mapM (analyzeTemplate JSON_parse fs) before) as [e|analyses].
  - split; [now exists e|discriminate].
  - split; [now exists SyntaxError|reflexivity].
Qed.

Lemma parse_error_aborts_witness :
  lookup "Z.template.json" brokenFs = Some "{ not json" /\
  sampleParse "{ not json" = None /\
  (exists e,
      main sampleParse (sampleFiles ++ "Z.template.json" :: []) brokenFs
      = (inl e, brokenFs)) /\
  (forall analyses,
      mapM (analyzeTemplate sampleParse brokenFs) sampleFiles = inr analyses ->
      main sampleParse (sampleFiles ++ "Z.template.json" :: []) brokenFs
      = (inl SyntaxError, brokenFs)).
Proof.
  split; [reflexivity|]. split; [reflexivity|].
  apply (parse_error_aborts sampleParse sampleFiles [] "Z.template.json" "{ not json"
           brokenFs); reflexivity.
Defined.

(** Whatever the exception, a run that ends with one has written nothing. *)
Lemma main_exception_leaves_files JSON_parse templateFiles fs e :
  fst (main JSON_parse templateFiles fs) = inl e ->
  snd (main JSON_parse templateFiles fs) = fs.
Proof.
  unfold main. destruct (mapM (analyzeTemplate JSON_parse fs) templateFiles);
    simpl; [reflexivity|discriminate].
Qed.

(** ** Completeness of the rewrite *)

Lemma children_replace t r :
  replacementAt r t = None ->
  children (fst (replaceImportsInObject t r)) =
  map (fun c => fst (replaceImportsInObject c r)) (children t).
Proof.
  intros H. rewrite replace_unfold. destruct t as [| | | |l|l|h]; try reflexivity.
  rewrite H. simpl. now rewrite !map_map.
Qed.

Lemma changed_child t r c :
  replacementAt r t = None ->
  In c (children t) ->
  snd (replaceImportsInObject c r) = true ->
  snd (replaceImportsInObject t r) = true.
Proof.
  intros H Hin Hc. rewrite replace_unfold. destruct t as [| | | |l|l|h];
    try contradiction; simpl in Hin.
  - simpl. apply existsb_exists. now exists c.
  - rewrite H. simpl. apply in_map_iff in Hin as ([k v] & <- & Hin).
    apply existsb_exists. now exists (k, v).
Qed.

(** A marker that the walk reaches is overwritten, wherever it lies. *)
Lemma rewrite_reaches r pos :
  forall t node n,
    subtreeAt t pos = Some node ->
    replacementAt r node = Some n ->
    unobstructed r t pos = true ->
    exists l,
      node = JObj l /\
      subtreeAt (fst (replaceImportsInObject t r)) pos
        = Some (JObj (setProp Fn_ImportValue n l)) /\
      snd (replaceImportsInObject t r) = true.
Proof.
  induction pos as [|i pos IH]; intros t node n Hs Hr Hu; simpl in Hs.
  - injection Hs as ->.
    destruct (proj1 (replacementAt_spec r node n) Hr) as (l & s & -> & _).
    exists l. rewrite replace_unfold, Hr. simpl. auto.
  - destruct (nth_error (children t) i) as [c|] eqn:Ec; [|discriminate].
    simpl in Hu. rewrite Ec in Hu.
    destruct (replacementAt r t) eqn:Ht; [discriminate|].
    destruct (IH c node n Hs Hr Hu) as (l & -> & Hsub & Hch).
    exists l. split; [reflexivity|]. split.
    + simpl. rewrite (children_replace t r Ht), nth_error_map, Ec. simpl. exact Hsub.
    + apply (changed_child t r c Ht); [|exact Hch]. now apply nth_error_In in Ec.
Qed.

Lemma matchExport_count catalog st e :
  (snd st = 0 -> fst st = []) ->
  snd (matchExport catalog st e) = 0 -> fst (matchExport catalog st e) = [].
Proof.
  intros H. destruct e as [k data]. unfold matchExport.
  destruct (findMatchingNamedExport k (value data) catalog) as [m|]; [|exact H].
  destruct (m =? ""); [exact H|]. simpl. discriminate.
Qed.

Lemma findReplacements_count analyses catalog :
  snd (findReplacements analyses catalog) = 0 ->
  fst (findReplacements analyses catalog) = [].
Proof.
  unfold findReplacements.
  assert (Hin : forall es st, (snd st = 0 -> fst st = []) ->
            snd (fold_left (matchExport catalog) es st) = 0 ->
            fst (fold_left (matchExport catalog) es st) = []).
  { induction es as [|e es IH]; intros st H; simpl; [exact H|].
    apply IH. now apply matchExport_count. }
  assert (Hout : forall st, (snd st = 0 -> fst st = []) ->
            snd (fold_left (fun st a => fold_left (matchExport catalog) (exportsOutputFn a) st)
                   analyses st) = 0 ->
            fst (fold_left (fun st a => fold_left (matchExport catalog) (exportsOutputFn a) st)
                   analyses st) = []).
  { induction analyses as [|a analyses IH]; intros st H; simpl; [exact H|].
    apply IH. now apply Hin. }
  now apply Hout.
Qed.

Lemma resolvedImports_nil_map a : scanned a -> resolvedImports [] a = [].
Proof.
  intros Hs. apply resolvedImports_nil; [exact Hs|reflexivity].
Qed.

Lemma applyReplacements_trees r st a :
  trees (applyReplacements r st a) = trees st ++ [(filePath a, finalTree r a)].
Proof.
  unfold applyReplacements, finalTree.
  destruct (resolvedImports r a); simpl; [reflexivity|].
  now destruct (snd (replaceImportsInObject (content a) r)).
Qed.

Lemma fold_applyReplacements_trees r analyses :
  forall st,
    trees (fold_left (applyReplacements r) analyses st) =
    trees st ++ map (fun a => (filePath a, finalTree r a)) analyses.
Proof.
  induction analyses as [|a analyses IH]; intros st; simpl.
  - now rewrite app_nil_r.
  - now rewrite IH, applyReplacements_trees, <- app_assoc.
Qed.

(** The trees in memory at the end of a run. *)
Lemma documents_optimize analyses fs :
  replacementsOf analyses <> [] \/ Forall scanned analyses ->
  documents (fst (optimize analyses fs)) =
  map (fun a => (filePath a, finalTree (replacementsOf analyses) a)) analyses.
Proof.
  intros H. unfold optimize, replacementsOf in *.
  destruct (snd (findReplacements analyses (collectNamedExports analyses)) =? 0)%nat eqn:E;
    simpl.
  - apply Nat.eqb_eq, findReplacements_count in E. rewrite E in *.
    destruct H as [H|H]; [congruence|].
    apply map_ext_in. intros a Ha. unfold finalTree.
    rewrite Forall_forall in H. now rewrite (resolvedImports_nil_map a (H a Ha)).
  - now rewrite fold_applyReplacements_trees.
Qed.

Lemma findReplacements_invariant (P : Replacements * nat -> Prop) catalog analyses :
  P ([], 0) ->
  (forall st e, P st -> P (matchExport catalog st e)) ->
  P (findReplacements analyses catalog).
Proof.
  intros H0 Hstep. unfold findReplacements.
  assert (H : forall st, P st ->
            P (fold_left
                 (fun st analysis =>
                    fold_left (matchExport catalog) (exportsOutputFn analysis) st)
                 analyses st)).
  { induction analyses as [|a analyses IH]; intros st Hst; simpl; [exact Hst|].
    apply IH. revert st Hst.
    induction (exportsOutputFn a) as [|e es IHe]; intros st Hst; simpl; auto. }
  now apply H.
Qed.

(** The names a run maps to are never empty. *)
Lemma replacements_nonempty analyses s n :
  lookup s (replacementsOf analyses) = Some n -> n <> "".
Proof.
  unfold replacementsOf. revert s n.
  apply (findReplacements_invariant
           (fun st => forall s n, lookup s (fst st) = Some n -> n <> "")).
  - intros s n [=].
  - intros st [k data] H s n. unfold matchExport.
    destruct (findMatchingNamedExport k (value data) _) as [m|]; [|apply H].
    destruct (String.eqb_spec m "") as [->|Hm]; [apply H|]. simpl.
    intros Hl. apply lookup_setProp_inv in Hl as [[_ ->]|Hl]; [exact Hm|].
    now apply (H s n).
Qed.

Lemma written_mono r p analyses :
  forall st,
    In p (written st) -> In p (written (fold_left (applyReplacements r) analyses st)).
Proof.
  induction analyses as [|a analyses IH]; intros st H; simpl; [exact H|].
  apply IH. unfold applyReplacements.
  destruct (resolvedImports r a); simpl; [exact H|].
  destruct (snd (replaceImportsInObject (content a) r)); simpl; [|exact H].
  apply in_or_app. now left.
Qed.

Lemma applyReplacements_writes r st a :
  resolvedImports r a <> [] ->
  snd (replaceImportsInObject (content a) r) = true ->
  disk (applyReplacements r st a) =
    writeFileSync (filePath a) (JSON_stringify_space (finalTree r a) 1) (disk st) /\
  written (applyReplacements r st a) = written st ++ [filePath a].
Proof.
  intros Hres Hch. unfold applyReplacements, finalTree.
  destruct (resolvedImports r a); [congruence|]. rewrite Hch. simpl. now split.
Qed.

(** C3, as stated, fails: the export name of a generated output need not
    contain the generated text; a reference to such a name is a key of the
    replacement map, yet the scanner does not record it, the template is
    not rewritten and the reference keeps its target. *)
Lemma unscanned_reference_is_kept :
  replacementsOf (analysesOf legacyDocs) = [("LegacyTopic", "SharedTopic")] /\
  subtreeAt legacyDoc [1; 0] = Some (JObj [(Fn_ImportValue, JStr "LegacyTopic")]) /\
  optimize (analysesOf legacyDocs) legacyFs =
    ({| matchCount := 1; totalReplacements := 0; updated := [];
        documents := legacyDocs |}, legacyFs).
Proof.
  repeat split; reflexivity.
Qed.

(** C3, amended.  Completeness of the rewrite: in a template that holds
    at least one scanned reference resolved by the replacement map, every
    mapping that holds under [Fn::ImportValue] a non-empty string which
    is a key of the map, and that does not lie inside another mapping
    rewritten by the map, has that string overwritten in place with the
    mapped name; the template is written back, and the text on disk is
    the serialization of the rewritten tree when the template paths are
    distinct.  All siblings are traversed: the position is arbitrary. *)
Theorem rewrite_complete :
  forall (analyses : list AnalysisResult) (fs : FileSystem) (a : AnalysisResult)
         (pos : list nat) (l : list (string * json)) (s n : string),
    In a analyses ->
    resolvedImports (replacementsOf analyses) a <> [] ->
    subtreeAt (content a) pos = Some (JObj l) ->
    lookup Fn_ImportValue l = Some (JStr s) ->
    s <> "" ->
    lookup s (replacementsOf analyses) = Some n ->
    unobstructed (replacementsOf analyses) (content a) pos = true ->
    exists tree',
      In (filePath a, tree') (documents (fst (optimize analyses fs))) /\
      subtreeAt tree' pos = Some (JObj (setProp Fn_ImportValue (JStr n) l)) /\
      In (filePath a) (updated (fst (optimize analyses fs))) /\
      (NoDup (map filePath analyses) ->
       lookup (filePath a) (snd (optimize analyses fs))
       = Some (JSON_stringify_space tree' 1)).
Proof.
  intros analyses fs a pos l s n Ha Hres Hsub Hl Hs Hn Hu.
  set (r := replacementsOf analyses) in *.
  assert (Hat : replacementAt r (JObj l) = Some (JStr n)).
  { apply replacementAt_spec. exists l, s. repeat split; auto.
    apply replacementFor_own; [exact Hn|].
    now apply replacements_nonempty in Hn. }
  destruct (rewrite_reaches r pos (content a) (JObj l) (JStr n) Hsub Hat Hu)
    as (l' & [= <-] & Hpos & Hch).
  assert (Hfinal : finalTree r a = fst (replaceImportsInObject (content a) r)).
  { unfold finalTree. destruct (resolvedImports r a); [congruence|reflexivity]. }
  exists (finalTree r a). split; [|split; [now rewrite Hfinal|]].
  - rewrite documents_optimize by (left; unfold r in Hn; intros E; rewrite E in Hn;
                                   discriminate Hn).
    apply in_map_iff. now exists a.
  - assert (Hcount : (snd (findReplacements analyses (collectNamedExports analyses)) =? 0)%nat
                     = false).
    { apply Nat.eqb_neq. intros E. apply findReplacements_count in E.
      unfold r, replacementsOf in Hn. rewrite E in Hn. discriminate Hn. }
    unfold optimize. rewrite Hcount. simpl. fold (replacementsOf analyses). fold r.
    destruct (in_split _ _ Ha) as (before & after & ->).
    rewrite fold_left_app. simpl.
    set (st := fold_left (applyReplacements r) before _).
    destruct (applyReplacements_writes r st a Hres Hch) as [Hd Hw].
    split.
    + apply written_mono. rewrite Hw. apply in_or_app. right. now left.
    + intros Hnd.
      destruct (fold_applyReplacements_other r (filePath a) after
                  (applyReplacements r st a)) as [H1 _].
      * intros b Hb Hp. exfalso. rewrite map_app in Hnd. simpl in Hnd.
        apply NoDup_remove_2 in Hnd. apply Hnd, in_or_app. right.
        rewrite <- Hp. now apply in_map.
      * rewrite H1, Hd, lookup_writeFileSync. now rewrite String.eqb_refl.
Qed.

Lemma rewrite_complete_witness :
  In sampleAnalysisX (analysesOf sampleDocs) /\
  resolvedImports (replacementsOf (analysesOf sampleDocs)) sampleAnalysisX <> [] /\
  subtreeAt (content sampleAnalysisX) [0; 0; 0; 0; 0; 0] = Some sampleMarker /\
  exists tree',
    In (filePath sampleAnalysisX, tree')
       (documents (fst (optimize (analysesOf sampleDocs) sampleFs))) /\
    subtreeAt tree' [0; 0; 0; 0; 0; 0]
      = Some (JObj (setProp Fn_ImportValue (JStr "SharedBucketArn")
                      [(Fn_ImportValue, JStr "X:ExportsOutputFnGetAttBucketAArn7f3a")])) /\
    In (filePath sampleAnalysisX)
       (updated (fst (optimize (analysesOf sampleDocs) sampleFs))) /\
    (NoDup (map filePath (analysesOf sampleDocs)) ->
     lookup (filePath sampleAnalysisX) (snd (optimize (analysesOf sampleDocs) sampleFs))
     = Some (JSON_stringify_space tree' 1)).
Proof.
  split; [now left|]. split; [discriminate|]. split; [reflexivity|].
  apply (rewrite_complete (analysesOf sampleDocs) sampleFs sampleAnalysisX
           [0; 0; 0; 0; 0; 0]
           [(Fn_ImportValue, JStr "X:ExportsOutputFnGetAttBucketAArn7f3a")]
           "X:ExportsOutputFnGetAttBucketAArn7f3a" "SharedBucketArn");
    try reflexivity; [now left|discriminate|discriminate].
Defined.

(** ** A second run *)

Lemma replace_string_inv t r s :
  fst (replaceImportsInObject t r) = JStr s -> t = JStr s.
Proof.
  rewrite replace_unfold. destruct t as [| | | |l|l|h]; try (simpl; congruence).
  destruct (replacementAt r (JObj l)); simpl; discriminate.
Qed.

Lemma lookup_map_values {A B} (f : A -> B) k (l : list (string * A)) :
  lookup k (map (fun kv => (fst kv, f (snd kv))) l) = option_map f (lookup k l).
Proof.
  induction l as [|[k0 a0] l IH]; simpl; [reflexivity|].
  now destruct (k0 =? k).
Qed.

Lemma indexed_from_In k v l : forall i, In (k, v) (indexed_from i l) -> In v l.
Proof.
  induction l as [|x l IH]; intros i; simpl; [tauto|].
  intros [[= _ ->]|H]; [now left|right; eauto].
Qed.

Lemma noChain_own r s n :
  noChain r = true -> lookup s r = Some n ->
  match lookup n r with Some x => x =? "" | None => true end = true.
Proof.
  unfold noChain. intros H Hl. apply lookup_In in Hl.
  rewrite forallb_forall in H. exact (H _ Hl).
Qed.

Lemma includes_nonempty s : includes s ExportsOutputFn = true -> s <> "".
Proof.
  intros H ->. discriminate H.
Qed.

(** The members of [Object.prototype] are host objects. *)
Lemma ObjectPrototype_get_host s v :
  ObjectPrototype_get s = Some v -> exists h, v = JHost h.
Proof.
  unfold ObjectPrototype_get.
  destruct (s =? "constructor"); [intros [= <-]; eauto|].
  destruct (s =? "__proto__"); [intros [= <-]; eauto|].
  destruct (existsb _ _); [intros [= <-]; eauto|discriminate].
Qed.

Lemma findImports_host h p : findImports (JHost h) p = [].
Proof.
  reflexivity.
Qed.

(** After the rewrite of a tree whose markers are single-key mappings, by
    a map without chains, no recorded reference is resolved by the map. *)
Lemma rewritten_imports_unresolved r :
  noChain r = true ->
  forall t,
    leafMarkers t = true ->
    forall p i,
      In i (findImports (fst (replaceImportsInObject t r)) p) ->
      replacementFor r (import_value i) = None.
Proof.
  intros Hchain. induction t as [| | | |l IH|l IH|h] using json_ind;
    intros Hleaf p i Hin; rewrite replace_unfold in Hin;
    try (simpl in Hin; contradiction).
  - cbn [fst] in Hin. rewrite findImports_unfold in Hin.
    cbn [typeofObject importAt Object_entries app] in Hin.
    apply in_flat_map in Hin as ([k v'] & Hk & Hin). simpl in Hin.
    apply indexed_from_In, in_map_iff in Hk as (v & <- & Hv).
    rewrite Forall_forall in IH. simpl in Hleaf. rewrite forallb_forall in Hleaf.
    exact (IH v Hv (Hleaf v Hv) _ i Hin).
  - simpl in Hleaf. apply andb_true_iff in Hleaf as [Hone Hleaf].
    destruct (replacementAt r (JObj l)) as [n|] eqn:E.
    + apply replacementAt_spec in E as (l' & s & [= <-] & Hl & _ & Hr).
      rewrite Hl in Hone.
      destruct l as [|[k0 v0] [|? ?]]; try discriminate.
      simpl in Hl. destruct (String.eqb_spec k0 Fn_ImportValue) as [->|]; [|discriminate].
      injection Hl as ->.
      change (fst (JObj (setProp Fn_ImportValue n [(Fn_ImportValue, JStr s)]), true))
        with (JObj [(Fn_ImportValue, n)]) in Hin.
      rewrite findImports_unfold in Hin. cbn [typeofObject Object_entries] in Hin.
      apply replacementFor_spec in Hr as [(m & Hm & Hne & ->)|[_ Hr]].
      * apply in_app_or in Hin as [Hin|Hin]; [|simpl in Hin; contradiction].
        destruct i as [q s']. apply importAt_spec in Hin as (_ & l' & [= <-] & Hl' & Hinc).
        simpl in Hl'. injection Hl' as <-. simpl.
        rewrite (replacementFor_scanned r m Hinc).
        pose proof (noChain_own r s m Hchain Hm) as Ho.
        destruct (lookup m r) as [x|]; [now rewrite Ho|reflexivity].
      * apply ObjectPrototype_get_host in Hr as [h ->].
        apply in_app_or in Hin as [Hin|Hin]; simpl in Hin; contradiction.
    + cbn [fst] in Hin. rewrite findImports_unfold in Hin. cbn [typeofObject] in Hin.
      apply in_app_or in Hin as [Hin|Hin].
      * destruct i as [q s]. apply importAt_spec in Hin as (_ & l' & [= <-] & Hl & Hinc).
        rewrite (lookup_map_values (fun v => fst (replaceImportsInObject v r))) in Hl.
        destruct (lookup Fn_ImportValue l) as [v|] eqn:Ev; [|discriminate].
        simpl in Hl. injection Hl as Hl. apply replace_string_inv in Hl. subst v.
        simpl. destruct (replacementFor r s) as [n|] eqn:Er; [|reflexivity].
        assert (Hat : replacementAt r (JObj l) = Some n).
        { apply replacementAt_spec. exists l, s. repeat split; auto.
          now apply includes_nonempty. }
        congruence.
      * apply in_flat_map in Hin as ([k v'] & Hk & Hin). simpl in Hin, Hk.
        apply in_map_iff in Hk as ([k0 v] & [= <- <-] & Hv).
        rewrite Forall_forall in IH. rewrite forallb_forall in Hleaf.
        exact (IH (k0, v) Hv (Hleaf (k0, v) Hv) _ i Hin).
Qed.

Lemma resolvedImports_unresolved r a :
  (forall i, In i (imports a) -> replacementFor r (import_value i) = None) ->
  resolvedImports r a = [].
Proof.
  unfold resolvedImports. induction (imports a) as [|i l IH]; intros H; simpl;
    [reflexivity|].
  rewrite (H i) by now left. apply IH. intros j Hj. apply H. now right.
Qed.

Lemma replaced_fold r analyses :
  forall st,
    (forall a, In a analyses -> resolvedImports r a = []) ->
    replaced (fold_left (applyReplacements r) analyses st) = replaced st.
Proof.
  induction analyses as [|a analyses IH]; intros st H; simpl; [reflexivity|].
  rewrite IH by (intros b Hb; apply H; now right).
  unfold applyReplacements. rewrite (H a) by now left. simpl. lia.
Qed.

Lemma total_optimize analyses fs :
  (forall a, In a analyses -> resolvedImports (replacementsOf analyses) a = []) ->
  totalReplacements (fst (optimize analyses fs)) = 0.
Proof.
  intros H. unfold optimize.
  destruct (snd (findReplacements analyses (collectNamedExports analyses)) =? 0)%nat;
    simpl; [reflexivity|].
  now rewrite (replaced_fold (replacementsOf analyses) analyses).
Qed.

Lemma pipeline_inv docs report :
  pipeline docs = inr report ->
  mapM (fun d => analyzeContent (fst d) (snd d)) docs = inr (analysesOf docs) /\
  report = fst (optimize (analysesOf docs) []).
Proof.
  unfold pipeline, analysesOf, bind.
  destruct (mapM _ docs) as [e|analyses]; [discriminate|]. now intros [= <-].
Qed.

(** C5, as stated, fails: rewriting a reference inside the value of an
    export changes that value, so the second run can match an export the
    first run could not, and then rewrites the references to it. *)
Lemma second_run_replaces_again :
  pipeline reexportDocs = inr (reportOf reexportDocs) /\
  totalReplacements (reportOf reexportDocs) = 1 /\
  pipeline (documents (reportOf reexportDocs))
    = inr (reportOf (documents (reportOf reexportDocs))) /\
  totalReplacements (reportOf (documents (reportOf reexportDocs))) = 1 /\
  updated (reportOf (documents (reportOf reexportDocs))) = ["R.template.json"].
Proof.
  repeat split; reflexivity.
Qed.

(** C5, amended.  Idempotence: running the pipeline a second time on the
    documents left by the first run makes no replacement, provided the
    second run resolves the same replacement map as the first, no name
    the map assigns is itself a key of the map, and every reference
    marker of the documents is a single-key mapping. *)
Theorem second_run_is_noop :
  forall (docs : list (string * json)) (report1 report2 : Report),
    pipeline docs = inr report1 ->
    pipeline (documents report1) = inr report2 ->
    replacementsOf (analysesOf (documents report1)) = replacementsOf (analysesOf docs) ->
    noChain (replacementsOf (analysesOf docs)) = true ->
    forallb (fun d => leafMarkers (snd d)) docs = true ->
    totalReplacements report2 = 0.
Proof.
  intros docs report1 report2 H1 H2 Hsame Hchain Hleaf.
  apply pipeline_inv in H1 as [M1 ->]. apply pipeline_inv in H2 as [M2 ->].
  set (analyses1 := analysesOf docs) in *.
  set (r := replacementsOf analyses1) in *.
  rewrite documents_optimize in * by (right; apply (analyses_scanned docs); exact M1).
  fold r in M2, Hsame |- *.
  set (docs2 := map (fun a => (filePath a, finalTree r a)) analyses1) in *.
  apply total_optimize. rewrite Hsame. intros a2 Ha2.
  apply mapM_Forall2 in M1, M2.
  destruct (Forall2_In_r _ _ _ _ M2 Ha2) as ([f2 t2] & Hd2 & A2).
  apply analyzeContent_fields in A2 as (I2 & _ & _). simpl in I2.
  apply in_map_iff in Hd2 as (a1 & [= _ <-] & Ha1).
  destruct (Forall2_In_r _ _ _ _ M1 Ha1) as ([f1 t1] & Hd1 & A1).
  apply analyzeContent_fields in A1 as (I1 & C1 & _). simpl in I1, C1.
  rewrite forallb_forall in Hleaf. specialize (Hleaf _ Hd1). simpl in Hleaf.
  unfold finalTree in I2. destruct (resolvedImports r a1) as [|i hits] eqn:E.
  - unfold resolvedImports in *. now rewrite I2, C1, <- I1.
  - apply resolvedImports_unresolved. intros j Hj. rewrite I2, C1 in Hj.
    now apply (rewritten_imports_unresolved r Hchain t1 Hleaf "" j).
Qed.

Lemma second_run_is_noop_witness :
  pipeline sampleDocs = inr (reportOf sampleDocs) /\
  pipeline (documents (reportOf sampleDocs))
    = inr (reportOf (documents (reportOf sampleDocs))) /\
  replacementsOf (analysesOf (documents (reportOf sampleDocs)))
    = replacementsOf (analysesOf sampleDocs) /\
  noChain (replacementsOf (analysesOf sampleDocs)) = true /\
  forallb (fun d => leafMarkers (snd d)) sampleDocs = true /\
  totalReplacements (reportOf sampleDocs) = 1 /\
  totalReplacements (reportOf (documents (reportOf sampleDocs))) = 0.
Proof.
  repeat (split; [reflexivity|]).
  apply (second_run_is_noop sampleDocs (reportOf sampleDocs)
           (reportOf (documents (reportOf sampleDocs)))); reflexivity.
Defined.

(** ** Worked examples *)

(** The scenario of the two stacks: one run rewrites the reference in the
    first template, leaves the second template alone and counts one
    replacement. *)
Example sample_run :
  matchCount (reportOf sampleDocs) = 1 /\
  totalReplacements (reportOf sampleDocs) = 1 /\
  updated (reportOf sampleDocs) = ["X.template.json"] /\
  subtreeAt (finalTree (replacementsOf (analysesOf sampleDocs)) sampleAnalysisX)
    [0; 0; 0; 0; 0; 0]
    = Some (JObj [(Fn_ImportValue, JStr "SharedBucketArn")]) /\
  lookup "Y.template.json" (documents (reportOf sampleDocs)) = Some sampleY.
Proof.
  repeat split; reflexivity.
Qed.

(** [replaceImportsInObject] returns as soon as it has rewritten the
    reference of a mapping: a reference held by another property of that
    mapping is not visited in the same call, and is rewritten by the next
    one. *)
Example nested_reference_waits :
  replaceImportsInObject nestedMarker nestedReplacements =
    (JObj [(Fn_ImportValue, JStr "Outer");
           ("Condition", JObj [(Fn_ImportValue, JStr "S:ExportsOutputFnInner")])],
     true) /\
  unobstructed nestedReplacements nestedMarker [1] = false /\
  fst (replaceImportsInObject
         (fst (replaceImportsInObject nestedMarker nestedReplacements))
         nestedReplacements) =
    JObj [(Fn_ImportValue, JStr "Outer");
          ("Condition", JObj [(Fn_ImportValue, JStr "Inner")])].
Proof.
  repeat split; reflexivity.
Qed.

(** * Further properties of the script *)

(** ** The boolean returned by [replaceImportsInObject] *)

Lemma map_values_id (f : json -> json) (l : list (string * json)) :
  Forall (fun kv => f (snd kv) = snd kv) l ->
  map (fun kv => (fst kv, f (snd kv))) l = l.
Proof.
  induction 1 as [|[k v] l H _ IH]; simpl in *; [reflexivity|]. now rewrite H, IH.
Qed.

Lemma map_id_on {A} (f : A -> A) (l : list A) :
  Forall (fun x => f x = x) l -> map f l = l.
Proof.
  induction 1 as [|x l H _ IH]; simpl; [reflexivity|]. now rewrite H, IH.
Qed.

Lemma children_entries t :
  typeofObject t = true -> children t = map snd (Object_entries t).
Proof.
  destruct t as [| | | |l|l|[|name]]; try discriminate; intros _; simpl;
    [|reflexivity|reflexivity].
  generalize 0. induction l as [|v l IH]; intros i; simpl; [reflexivity|].
  now rewrite <- IH.
Qed.

Lemma replacementAt_object r t n : replacementAt r t = Some n -> typeofObject t = true.
Proof.
  destruct t; simpl; try discriminate; reflexivity.
Qed.

Lemma replace_true_at r t n :
  replacementAt r t = Some n -> snd (replaceImportsInObject t r) = true.
Proof.
  intros H. rewrite replace_unfold.
  destruct t as [| | | | |l|h]; try discriminate H. now rewrite H.
Qed.

Lemma replace_false_untouched r t :
  snd (replaceImportsInObject t r) = false -> fst (replaceImportsInObject t r) = t.
Proof.
  induction t as [| | | |l IH|l IH|h] using json_ind; rewrite replace_unfold;
    try reflexivity.
  - simpl. intros H. f_equal. apply map_id_on.
    rewrite Forall_forall in *. intros v Hv. apply IH; [exact Hv|].
    destruct (snd (replaceImportsInObject v r)) eqn:E; [|reflexivity].
    assert (Ht : existsb (fun v => snd (replaceImportsInObject v r)) l = true)
      by (apply existsb_exists; now exists v).
    congruence.
  - destruct (replacementAt r (JObj l)); simpl; [discriminate|].
    intros H. f_equal. apply (map_values_id (fun v => fst (replaceImportsInObject v r))).
    rewrite Forall_forall in *. intros kv Hkv. apply IH; [exact Hkv|].
    destruct (snd (replaceImportsInObject (snd kv) r)) eqn:E; [|reflexivity].
    assert (Ht : existsb (fun kv => snd (replaceImportsInObject (snd kv) r)) l = true)
      by (apply existsb_exists; now exists kv).
    congruence.
Qed.

Lemma replace_true_position r t :
  snd (replaceImportsInObject t r) = true ->
  exists pos node n,
    subtreeAt t pos = Some node /\
    replacementAt r node = Some n /\
    unobstructed r t pos = true.
Proof.
  induction t as [t Ht|t Ht IH] using json_entries_ind; intros H.
  - rewrite replace_unfold in H. destruct t; try discriminate Ht; discriminate H.
  - destruct (replacementAt r t) as [n|] eqn:E.
    + exists [], t, n. now repeat split.
    + assert (Hc : exists c, In c (children t) /\
                             snd (replaceImportsInObject c r) = true).
      { rewrite replace_unfold in H. destruct t as [| | | |l|l|h]; try discriminate Ht.
        - simpl in H. apply existsb_exists in H as (c & Hc & H). now exists c.
        - rewrite E in H. simpl in H. apply existsb_exists in H as ([k c] & Hc & H).
          exists c. split; [|exact H]. simpl. apply in_map_iff. now exists (k, c).
        - discriminate H. }
      destruct Hc as (c & Hin & Hc).
      destruct (In_nth_error _ _ Hin) as [i Hi].
      assert (Hin' : In c (map snd (Object_entries t))) by now rewrite <- children_entries.
      apply in_map_iff in Hin' as (kv & <- & Hkv).
      rewrite Forall_forall in IH.
      destruct (IH kv Hkv Hc) as (pos & node & n & Hs & Hn & Hu).
      exists (i :: pos), node, n. simpl. rewrite Hi, E. now repeat split.
Qed.

(** X1.  The boolean of [replaceImportsInObject] is exact: the call returns
    [true] precisely when the walk reaches a mapping whose reference it
    rewrites, and when it returns [false] the tree is the one it was
    given. *)
Theorem rewriter_reports_change :
  forall (tree : json) (replacements : Replacements),
    (snd (replaceImportsInObject tree replacements) = true <->
     exists pos node n,
       subtreeAt tree pos = Some node /\
       replacementAt replacements node = Some n /\
       unobstructed replacements tree pos = true) /\
    (snd (replaceImportsInObject tree replacements) = false ->
     fst (replaceImportsInObject tree replacements) = tree).
Proof.
  intros tree r. split; [split|].
  - apply replace_true_position.
  - intros (pos & node & n & Hs & Hn & Hu).
    now destruct (rewrite_reaches r pos tree node n Hs Hn Hu) as (_ & _ & _ & H).
  - apply replace_false_untouched.
Qed.

Lemma subtreeAt_targets pos :
  forall t l s,
    subtreeAt t pos = Some (JObj l) ->
    lookup Fn_ImportValue l = Some (JStr s) ->
    In s (markerTargets t).
Proof.
  induction pos as [|i pos IH]; intros t l s Hs Hl; simpl in Hs.
  - injection Hs as ->. simpl. rewrite Hl. now left.
  - destruct (nth_error (children t) i) as [c|] eqn:Ec; [|discriminate].
    apply nth_error_In in Ec. specialize (IH c l s Hs Hl).
    destruct t as [| | | |e|o|h]; try contradiction; simpl in Ec |- *.
    + apply in_flat_map. now exists c.
    + apply in_or_app. right. apply in_map_iff in Ec as (kv & <- & Hkv).
      apply in_flat_map. now exists kv.
Qed.

(** X2.  When [replacements[s]] is falsy for every string [s] stored
    under [Fn::ImportValue] in the tree, [replaceImportsInObject] changes
    nothing and returns [false].  For the empty map this asks that no
    such string be the name of a member of [Object.prototype], which a
    read of the map finds as well. *)
Theorem rewriter_without_entries_is_identity :
  forall (tree : json) (replacements : Replacements),
    (forall s, In s (markerTargets tree) -> replacementFor replacements s = None) ->
    replaceImportsInObject tree replacements = (tree, false).
Proof.
  intros tree r H.
  destruct (snd (replaceImportsInObject tree r)) eqn:E.
  - apply replace_true_position in E as (pos & node & v & Hs & Hn & _).
    apply replacementAt_spec in Hn as (l & s & -> & Hl & _ & Hr).
    rewrite (H s (subtreeAt_targets pos tree l s Hs Hl)) in Hr. discriminate Hr.
  - pose proof (replace_false_untouched r tree E) as Hf.
    destruct (replaceImportsInObject tree r). simpl in *. congruence.
Qed.

Lemma rewriter_without_entries_is_identity_witness :
  markerTargets sampleX = ["X:ExportsOutputFnGetAttBucketAArn7f3a"] /\
  lookup "X:ExportsOutputFnGetAttBucketAArn7f3a"
    [("Other:ExportsOutputFnRefTopic", "SharedTopic")] = None /\
  ObjectPrototype_get "X:ExportsOutputFnGetAttBucketAArn7f3a" = None /\
  (forall s, In s (markerTargets sampleX) ->
             replacementFor [("Other:ExportsOutputFnRefTopic", "SharedTopic")] s = None) /\
  replaceImportsInObject sampleX [("Other:ExportsOutputFnRefTopic", "SharedTopic")]
    = (sampleX, false) /\
  replaceImportsInObject sampleX [] = (sampleX, false).
Proof.
  assert (H : forall r, lookup "X:ExportsOutputFnGetAttBucketAArn7f3a" r = None ->
                        forall s, In s (markerTargets sampleX) -> replacementFor r s = None).
  { intros r Hr s [<-|[]]. unfold replacementFor. now rewrite Hr. }
  split; [reflexivity|]. split; [reflexivity|]. split; [reflexivity|].
  split; [now apply H|]. split.
  - exact (rewriter_without_entries_is_identity sampleX
             [("Other:ExportsOutputFnRefTopic", "SharedTopic")]
             (H [("Other:ExportsOutputFnRefTopic", "SharedTopic")] eq_refl)).
  - exact (rewriter_without_entries_is_identity sampleX [] (H [] eq_refl)).
Defined.

(** ** Which templates are written *)

Lemma resolved_import_changes r t :
  forall p i n,
    In i (findImports t p) ->
    replacementFor r (import_value i) = Some n ->
    snd (replaceImportsInObject t r) = true.
Proof.
  induction t as [t Ht|t Ht IH] using json_entries_ind; intros p i n Hin Hr;
    rewrite findImports_unfold, Ht in Hin; [contradiction|].
  destruct (replacementAt r t) as [m|] eqn:E; [now apply (replace_true_at r t m)|].
  apply in_app_or in Hin as [Hin|Hin].
  - destruct i as [q s]. apply importAt_spec in Hin as (_ & l & -> & Hl & Hinc).
    simpl in Hr.
    assert (Hat : replacementAt r (JObj l) = Some n).
    { apply replacementAt_spec. exists l, s. repeat split; auto.
      now apply includes_nonempty. }
    congruence.
  - apply in_flat_map in Hin as ([k c] & Hk & Hin). simpl in Hin.
    rewrite Forall_forall in IH.
    apply (changed_child t r c E).
    + rewrite children_entries by exact Ht. apply in_map_iff. now exists (k, c).
    + exact (IH (k, c) Hk _ i n Hin Hr).
Qed.

Lemma resolvedImports_In r a i :
  In i (resolvedImports r a) ->
  In i (imports a) /\ exists n, replacementFor r (import_value i) = Some n.
Proof.
  unfold resolvedImports. intros H. apply filter_In in H as [Hin H].
  split; [exact Hin|]. destruct (replacementFor r (import_value i)) as [n|];
    [now exists n|discriminate].
Qed.

(** X3.  The second guard of the write is never the one that stops it:
    when the scanner recorded in a template a reference that the map
    resolves ([fileChanged]), [replaceImportsInObject] on that template
    returns [true]. *)
Theorem resolved_reference_forces_change :
  forall (file : string) (tree : json) (analysis : AnalysisResult)
         (replacements : Replacements),
    analyzeContent file tree = inr analysis ->
    hasResolvedImport replacements analysis = true ->
    snd (replaceImportsInObject (content analysis) replacements) = true.
Proof.
  intros file tree a r Ha Hres. apply analyzeContent_fields in Ha as (Hi & Hc & _).
  unfold hasResolvedImport in Hres.
  destruct (resolvedImports r a) as [|i hits] eqn:E; [discriminate|].
  assert (Hin : In i (resolvedImports r a)) by (rewrite E; now left).
  apply resolvedImports_In in Hin as (Hin & n & Hn).
  rewrite Hi, <- Hc in Hin. exact (resolved_import_changes r _ _ i n Hin Hn).
Qed.

Lemma resolved_reference_forces_change_witness :
  analyzeContent "X.template.json" sampleX = inr sampleAnalysisX /\
  hasResolvedImport (replacementsOf (analysesOf sampleDocs)) sampleAnalysisX = true /\
  snd (replaceImportsInObject (content sampleAnalysisX)
         (replacementsOf (analysesOf sampleDocs))) = true.
Proof.
  split; [reflexivity|]. split; [reflexivity|].
  apply (resolved_reference_forces_change "X.template.json" sampleX); reflexivity.
Defined.

Lemma applyReplacements_written r st a :
  imports a = findImports (content a) "" ->
  written (applyReplacements r st a) =
  written st ++ (if hasResolvedImport r a then [filePath a] else []).
Proof.
  intros Hi. unfold applyReplacements, hasResolvedImport.
  destruct (resolvedImports r a) as [|i hits] eqn:E; simpl; [now rewrite app_nil_r|].
  assert (Hin : In i (resolvedImports r a)) by (rewrite E; now left).
  apply resolvedImports_In in Hin as (Hin & n & Hn). rewrite Hi in Hin.
  now rewrite (resolved_import_changes r _ _ i n Hin Hn).
Qed.

Lemma fold_applyReplacements_written r analyses :
  Forall (fun a => imports a = findImports (content a) "") analyses ->
  forall st,
    written (fold_left (applyReplacements r) analyses st) =
    written st ++ map filePath (filter (hasResolvedImport r) analyses).
Proof.
  induction 1 as [|a analyses Ha _ IH]; intros st; simpl; [now rewrite app_nil_r|].
  rewrite IH, (applyReplacements_written r st a Ha), <- app_assoc.
  now destruct (hasResolvedImport r a).
Qed.

(** X4.  The templates a run writes are exactly those in which the
    scanner recorded at least one reference resolved by the replacement
    map, one write per entry of the list of template files and in the
    order of that list. *)
Theorem written_templates :
  forall (JSON_parse : string -> option json) (templateFiles : list string)
         (fs : FileSystem) (analyses : list AnalysisResult),
    mapM (analyzeTemplate JSON_parse fs) templateFiles = inr analyses ->
    exists report fs',
      main JSON_parse templateFiles fs = (inr report, fs') /\
      updated report =
        map filePath (filter (hasResolvedImport (replacementsOf analyses)) analyses).
Proof.
  intros JSON_parse templateFiles fs analyses H. unfold main. rewrite H.
  eexists _, _. split; [reflexivity|].
  assert (HF : Forall (fun a => imports a = findImports (content a) "") analyses).
  { apply mapM_Forall2 in H. rewrite Forall_forall. intros a Ha.
    destruct (Forall2_In_r _ _ _ _ H Ha) as (f & _ & Hf).
    now apply analyzeTemplate_fields in Hf. }
  unfold optimize.
  destruct (snd (findReplacements analyses (collectNamedExports analyses)) =? 0)%nat eqn:E;
    simpl.
  - apply Nat.eqb_eq, findReplacements_count in E. unfold replacementsOf. rewrite E.
    assert (Hs : Forall scanned analyses).
    { rewrite Forall_forall in *. intros a Ha i Hi. rewrite (HF a Ha) in Hi.
      now apply findImports_scanned in Hi. }
    clear -Hs. induction Hs as [|a l Ha _ IH]; simpl; [reflexivity|].
    unfold hasResolvedImport at 1. now rewrite (resolvedImports_nil_map a Ha).
  - now rewrite (fold_applyReplacements_written _ _ HF).
Qed.

Lemma written_templates_witness :
  mapM (analyzeTemplate sampleParse sampleFs) sampleFiles = inr (analysesOf sampleDocs) /\
  exists report fs',
    main sampleParse sampleFiles sampleFs = (inr report, fs') /\
    updated report =
      map filePath
        (filter (hasResolvedImport (replacementsOf (analysesOf sampleDocs)))
           (analysesOf sampleDocs)).
Proof.
  split; [reflexivity|].
  apply (written_templates sampleParse sampleFiles sampleFs (analysesOf sampleDocs)).
  reflexivity.
Defined.

(** ** What a run leaves alone *)

Lemma applyReplacements_domain r st a (fs0 : FileSystem) :
  lookup (filePath a) fs0 <> None ->
  (forall p, lookup p (disk st) = None <-> lookup p fs0 = None) ->
  forall p, lookup p (disk (applyReplacements r st a)) = None <-> lookup p fs0 = None.
Proof.
  intros Ha Hst p. unfold applyReplacements.
  destruct (resolvedImports r a); simpl; [apply Hst|].
  destruct (snd (replaceImportsInObject (content a) r)); simpl; [|apply Hst].
  rewrite lookup_writeFileSync.
  destruct (String.eqb_spec (filePath a) p) as [<-|Hne]; [|apply Hst].
  split; [discriminate|]. intros H. contradiction.
Qed.

Lemma fold_applyReplacements_domain r (fs0 : FileSystem) analyses :
  (forall a, In a analyses -> lookup (filePath a) fs0 <> None) ->
  forall st,
    (forall p, lookup p (disk st) = None <-> lookup p fs0 = None) ->
    forall p,
      lookup p (disk (fold_left (applyReplacements r) analyses st)) = None
      <-> lookup p fs0 = None.
Proof.
  induction analyses as [|a analyses IH]; intros Ha st Hst; simpl; [exact Hst|].
  apply IH.
  - intros b Hb. apply Ha. now right.
  - apply applyReplacements_domain; [|exact Hst]. apply Ha. now left.
Qed.

(** X5.  A run touches nothing but the template files it was given: the
    text under every other path is what it was, and the run neither
    creates nor removes a file. *)
Theorem run_touches_only_templates :
  forall (JSON_parse : string -> option json) (templateFiles : list string)
         (fs : FileSystem) (p : string),
    (~ In p templateFiles ->
     lookup p (snd (main JSON_parse templateFiles fs)) = lookup p fs) /\
    (lookup p (snd (main JSON_parse templateFiles fs)) = None <-> lookup p fs = None).
Proof.
  intros JSON_parse templateFiles fs p. unfold main.
  destruct (mapM (analyzeTemplate JSON_parse fs) templateFiles) as [e|analyses] eqn:E;
    simpl; [now split|].
  apply mapM_Forall2 in E.
  assert (Hf : forall a, In a analyses ->
                         In (filePath a) templateFiles /\ lookup (filePath a) fs <> None).
  { intros a Ha. destruct (Forall2_In_r _ _ _ _ E Ha) as (f & Hin & Hf).
    apply analyzeTemplate_fields in Hf as (_ & -> & text & Ht & _).
    split; [exact Hin|congruence]. }
  split.
  - intros Hp. apply optimize_other. intros a Ha Hpa. exfalso. apply Hp.
    rewrite <- Hpa. now apply Hf.
  - unfold optimize.
    destruct (snd (findReplacements analyses (collectNamedExports analyses)) =? 0)%nat;
      simpl; [reflexivity|].
    apply (fold_applyReplacements_domain _ fs analyses).
    + intros a Ha. now apply Hf.
    + reflexivity.
Qed.

(** ** When the analysis of a template fails *)

Lemma scanOutput_error st k output e :
  scanOutput st (k, output) = inl e <-> output = JNull /\ e = TypeError.
Proof.
  unfold scanOutput.
  destruct output as [|b|n|s|l|props|h]; unfold getProp, bind, ret, throw, undefined;
    try (destruct (startsWith k ExportsOutputFn); simpl;
         (split; [discriminate|intros [[=] _]])).
  - split; [now intros [= <-]|now intros [_ ->]].
  - destruct (startsWith k ExportsOutputFn);
      destruct (truthy (lookup "Export" props)) eqn:T; cbn [andb negb];
      try (split; [discriminate|intros [[=] _]]);
      destruct (lookup "Export" props) as [[]|]; cbn; try discriminate T;
      (split; [discriminate|intros [[=] _]]).
Qed.

Lemma foldM_scanOutput_error entries :
  forall st e,
    foldM scanOutput entries st = inl e <->
    e = TypeError /\ exists k, In (k, JNull) entries.
Proof.
  induction entries as [|[k output] entries IH]; intros st e; cbn [foldM].
  - split; [discriminate|intros (_ & k & [])].
  - unfold bind. destruct (scanOutput st (k, output)) as [e'|st'] eqn:E.
    + apply scanOutput_error in E as [-> ->]. split.
      * intros [= <-]. split; [reflexivity|]. exists k. now left.
      * now intros [-> _].
    + rewrite IH. split.
      * intros (-> & k' & Hk). split; [reflexivity|]. exists k'. now right.
      * intros (-> & k' & [[= -> ->]|Hk]).
        -- assert (Hn : scanOutput st (k', JNull) = inl TypeError)
             by now apply scanOutput_error.
           congruence.
        -- split; [reflexivity|]. now exists k'.
Qed.

Lemma analyzeContent_error file tree e :
  analyzeContent file tree = inl e <->
  e = TypeError /\
  (tree = JNull \/ exists k, In (k, JNull) (Object_entries (outputsMapping tree))).
Proof.
  unfold analyzeContent, bind.
  destruct (outputsOf tree) as [e'|o] eqn:Eo.
  - assert (tree = JNull /\ e' = TypeError) as [-> ->].
    { unfold outputsOf in Eo. destruct tree; simpl in Eo; try discriminate Eo.
      now injection Eo as <-. }
    split; [intros [= <-]; auto|now intros [-> _]].
  - pose proof (outputsOf_mapping _ _ Eo) as ->.
    assert (Hn : tree <> JNull) by (intros ->; discriminate Eo).
    destruct (foldM scanOutput _ _) as [e'|exports] eqn:Ef.
    + apply foldM_scanOutput_error in Ef as (-> & k & Hk). split.
      * intros [= <-]. split; [reflexivity|]. right. now exists k.
      * now intros [-> _].
    + split; [discriminate|]. intros (-> & [Ht|(k & Hk)]); [contradiction|].
      assert (Hf : foldM scanOutput (Object_entries (outputsMapping tree)) ([], [])
                   = inl TypeError).
      { apply foldM_scanOutput_error. split; [reflexivity|]. now exists k. }
      congruence.
Qed.

(** X6.  The ways [analyzeTemplate] fails, for a template whose named
    exports have names that convert to a property key: a system error
    when the file cannot be read, a [SyntaxError] when its text does not
    parse, and a [TypeError] exactly when the parsed document is [null]
    or one of the entries of its [Outputs] is [null]; every other
    document is analyzed without error, whatever else its outputs
    hold. *)
Theorem analyzeTemplate_failures :
  forall (JSON_parse : string -> option json) (fs : FileSystem) (file : string)
         (e : exn),
    (forall text tree,
        lookup file fs = Some text -> JSON_parse text = Some tree ->
        namesConvertible tree) ->
    (analyzeTemplate JSON_parse fs file = inl e <->
     (lookup file fs = None /\ e = SystemError) \/
     (exists text,
         lookup file fs = Some text /\ JSON_parse text = None /\ e = SyntaxError) \/
     (exists text tree,
         lookup file fs = Some text /\ JSON_parse text = Some tree /\ e = TypeError /\
         (tree = JNull \/
          exists k, In (k, JNull) (Object_entries (outputsMapping tree))))).
Proof.
  intros JSON_parse fs file e _. unfold analyzeTemplate, readFileSync, bind.
  destruct (lookup file fs) as [text|]; simpl.
  - destruct (JSON_parse text) as [tree|] eqn:Ep; simpl.
    + rewrite analyzeContent_error. split.
      * intros (-> & H). right. right. exists text, tree. auto.
      * intros [[[=] _]|[(t & [= <-] & Hp & _)|(t & tr & [= <-] & Hp & -> & H)]];
          [congruence|]. rewrite Ep in Hp. injection Hp as <-. auto.
    + split.
      * intros [= <-]. right. left. now exists text.
      * intros [[[=] _]|[(t & _ & _ & ->)|(t & tr & [= <-] & Hp & _)]];
          [reflexivity|congruence].
  - split.
    + intros [= <-]. now left.
    + intros [[_ ->]|[(t & [=] & _)|(t & tr & [=] & _)]]. reflexivity.
Qed.

Lemma analyzeTemplate_failures_witness :
  (forall text tree,
      lookup "N.template.json" nullOutputFs = Some text ->
      nullOutputParse text = Some tree ->
      namesConvertible tree) /\
  analyzeTemplate nullOutputParse nullOutputFs "N.template.json" = inl TypeError /\
  (analyzeTemplate nullOutputParse nullOutputFs "N.template.json" = inl TypeError <->
   (lookup "N.template.json" nullOutputFs = None /\ TypeError = SystemError) \/
   (exists text,
       lookup "N.template.json" nullOutputFs = Some text /\
       nullOutputParse text = None /\ TypeError = SyntaxError) \/
   (exists text tree,
       lookup "N.template.json" nullOutputFs = Some text /\
       nullOutputParse text = Some tree /\ TypeError = TypeError /\
       (tree = JNull \/
        exists k, In (k, JNull) (Object_entries (outputsMapping tree))))).
Proof.
  assert (H : forall text tree,
             lookup "N.template.json" nullOutputFs = Some text ->
             nullOutputParse text = Some tree ->
             namesConvertible tree).
  { intros text tree Hl Hp. injection Hl as <-. vm_compute in Hp. injection Hp as <-.
    intros k props e name [Hin|[Hin|[]]]; [discriminate Hin|].
    injection Hin as <- <-. intros He _ _ Hn. vm_compute in He. injection He as <-.
    vm_compute in Hn. injection Hn as <-. reflexivity. }
  split; [exact H|]. split; [reflexivity|].
  exact (analyzeTemplate_failures nullOutputParse nullOutputFs "N.template.json"
           TypeError H).
Defined.

(** ** How the outputs are classified *)

Lemma In_replaceAt {A} k (a : A) l x :
  In x (replaceAt k a l) -> x = (k, a) \/ In x l.
Proof.
  induction l as [|[k0 a0] l IH]; simpl; [tauto|].
  destruct (String.eqb_spec k0 k) as [->|Hne]; simpl; intuition.
Qed.

Lemma In_insertIndex {A} n k (a : A) l x :
  In x (insertIndex n k a l) -> x = (k, a) \/ In x l.
Proof.
  induction l as [|[k0 a0] l IH]; simpl; [intuition|].
  destruct (arrayIndex k0) as [m|]; [destruct (m <? n)%N|]; simpl; intuition.
Qed.

Lemma In_setProp {A} k (a : A) l x :
  In x (setProp k a l) -> x = (k, a) \/ In x l.
Proof.
  unfold setProp. destruct (lookup k l); [apply In_replaceAt|].
  destruct (k =? "__proto__"); [now right|].
  destruct (arrayIndex k); [apply In_insertIndex|].
  intros H. apply in_app_or in H as [H|[<-|[]]]; auto.
Qed.

Lemma In_fold_setProp {A} (decls : list (string * A)) x :
  forall acc,
    In x (fold_left (fun t kv => setProp (fst kv) (snd kv) t) decls acc) ->
    In x decls \/ In x acc.
Proof.
  induction decls as [|[k a] decls IH]; intros acc H; simpl in *; [now right|].
  apply IH in H as [H|H]; [auto|]. apply In_setProp in H as [->|H]; auto.
Qed.

Lemma scanOutput_synthetic st entry st' :
  scanOutput st entry = inr st' ->
  fst st' =
  fold_left (fun t kv => setProp (fst kv) (snd kv) t) (syntheticDeclaration entry) (fst st).
Proof.
  destruct entry as [k output]. unfold scanOutput, syntheticDeclaration.
  destruct output as [|b|n|s|l|props|h]; unfold getProp, bind, ret, throw, undefined;
    try discriminate;
    try (destruct (startsWith k ExportsOutputFn); simpl; now intros [= <-]).
  cbn [fst snd].
  destruct (lookup "Export" props) as [e|] eqn:Ee.
  - destruct (startsWith k ExportsOutputFn); cbn [andb negb].
    + destruct (truthy (Some e)) eqn:T; [|now intros [= <-]].
      destruct e; simpl in T; try discriminate T; simpl; now intros [= <-].
    + rewrite ?andb_true_r.
      destruct (truthy (Some e)) eqn:T; [|now intros [= <-]].
      destruct e; simpl in T; try discriminate T; simpl; now intros [= <-].
  - destruct (startsWith k ExportsOutputFn); simpl; now intros [= <-].
Qed.

Lemma foldM_scanOutput_synthetic entries :
  forall st st',
    foldM scanOutput entries st = inr st' ->
    fst st' =
    fold_left (fun t kv => setProp (fst kv) (snd kv) t)
      (flat_map syntheticDeclaration entries) (fst st).
Proof.
  induction entries as [|e entries IH]; intros st st' H; cbn [foldM] in H.
  - now injection H as <-.
  - unfold bind in H. destruct (scanOutput st e) as [x|st1] eqn:E; [discriminate|].
    simpl. rewrite fold_left_app, <- (scanOutput_synthetic _ _ _ E). now apply IH.
Qed.

Lemma analyzeContent_synthetic file tree a :
  analyzeContent file tree = inr a ->
  exportsOutputFn a =
  fold_left (fun t kv => setProp (fst kv) (snd kv) t)
    (flat_map syntheticDeclaration (Object_entries (outputsMapping tree))) [].
Proof.
  unfold analyzeContent, bind. destruct (outputsOf tree) as [x|o] eqn:Eo; [discriminate|].
  apply outputsOf_mapping in Eo. subst o.
  destruct (foldM scanOutput _ _) as [x|exports] eqn:Ef; [discriminate|].
  intros [= <-]. simpl. now apply foldM_scanOutput_synthetic in Ef.
Qed.

Lemma syntheticDeclaration_In entry k d :
  In (k, d) (syntheticDeclaration entry) <->
  exists props e,
    entry = (k, JObj props) /\ lookup "Export" props = Some e /\
    truthy (Some e) = true /\ startsWith k ExportsOutputFn = true /\
    d = {| exportName := exportNameOf e; value := lookup "Value" props |}.
Proof.
  destruct entry as [k0 output]. unfold syntheticDeclaration. cbn [fst snd].
  split.
  - destruct output as [| | | | |props|h]; try contradiction.
    destruct (lookup "Export" props) as [e|] eqn:Ee; [|contradiction].
    destruct (startsWith k0 ExportsOutputFn) eqn:S; [|contradiction].
    destruct (truthy (Some e)) eqn:T; [|contradiction].
    intros [[= <- <-]|[]]. exists props, e. repeat split; auto.
  - intros (props & e & [= -> ->] & -> & -> & -> & ->). now left.
Qed.

Lemma namedDeclaration_In entry n d :
  In (n, d) (namedDeclaration entry) <->
  exists props e,
    entry = (key d, JObj props) /\ lookup "Export" props = Some e /\
    truthy (Some e) = true /\ startsWith (key d) ExportsOutputFn = false /\
    n = ToPropertyKey (exportNameOf e) /\ named_value d = lookup "Value" props.
Proof.
  destruct entry as [k0 output]. unfold namedDeclaration. cbn [fst snd].
  split.
  - destruct output as [| | | | |props|h]; try contradiction.
    destruct (truthy (lookup "Export" props)) eqn:T; [|contradiction].
    destruct (startsWith k0 ExportsOutputFn) eqn:S; [contradiction|].
    destruct (lookup "Export" props) as [e|] eqn:Ee; [|discriminate T].
    intros [[= <- <-]|[]]. exists props, e. simpl. repeat split; auto.
  - intros (props & e & [= -> ->] & He & T & S & -> & Hv).
    rewrite He, T, S. left. destruct d as [kd vd]. simpl in *. subst vd.
    now destruct e.
Qed.

Lemma synthetic_key entry x :
  In x (map fst (syntheticDeclaration entry)) -> x = fst entry.
Proof.
  intros H. apply in_map_iff in H as ([k d] & <- & H).
  apply syntheticDeclaration_In in H as (props & e & -> & _). reflexivity.
Qed.

Lemma synthetic_keys_NoDup entries :
  NoDup (map fst entries) ->
  NoDup (map fst (flat_map syntheticDeclaration entries)).
Proof.
  induction entries as [|entry entries IH]; simpl; intros H; [constructor|].
  inversion H as [|? ? Hk Hnd]; subst. specialize (IH Hnd).
  rewrite map_app. apply NoDup_app; repeat split; auto.
  - unfold syntheticDeclaration. destruct (snd entry); try constructor.
    destruct (lookup "Export" properties); [|constructor].
    destruct (_ && _); repeat constructor. intros [].
  - intros x Hx Hx'. apply synthetic_key in Hx. subst x. apply Hk.
    apply in_map_iff in Hx' as ([k2 d2] & Hk2 & Hx'). simpl in Hk2.
    apply in_flat_map in Hx' as (entry' & He & Hx').
    apply (in_map fst) in Hx'. apply synthetic_key in Hx'. simpl in Hx'.
    rewrite <- Hk2, Hx'. now apply in_map.
Qed.

(** X7.  How [analyzeTemplate] classifies the outputs.  Every entry of
    [exportsOutputFn] comes from an output whose key starts with
    [ExportsOutputFn] and whose [Export] is truthy, and is stored under
    that key; every entry of [namedExports] comes from an output with a
    truthy [Export] whose key does not start with the prefix, and is
    stored under the export name converted to a property key; outputs
    without a truthy [Export] contribute to neither table.  When the
    output keys are distinct, every output of the first kind is found in
    [exportsOutputFn] with its own name and value. *)
Theorem outputs_classified :
  forall (file : string) (tree : json) (a : AnalysisResult),
    analyzeContent file tree = inr a ->
    (forall k d,
        In (k, d) (exportsOutputFn a) ->
        exists props e,
          In (k, JObj props) (Object_entries (outputsMapping tree)) /\
          lookup "Export" props = Some e /\ truthy (Some e) = true /\
          startsWith k ExportsOutputFn = true /\
          d = {| exportName := exportNameOf e; value := lookup "Value" props |}) /\
    (forall n d,
        In (n, d) (namedExports a) ->
        exists props e,
          In (key d, JObj props) (Object_entries (outputsMapping tree)) /\
          lookup "Export" props = Some e /\ truthy (Some e) = true /\
          startsWith (key d) ExportsOutputFn = false /\
          n = ToPropertyKey (exportNameOf e) /\
          named_value d = lookup "Value" props) /\
    (NoDup (map fst (Object_entries (outputsMapping tree))) ->
     forall k props e,
       In (k, JObj props) (Object_entries (outputsMapping tree)) ->
       lookup "Export" props = Some e -> truthy (Some e) = true ->
       startsWith k ExportsOutputFn = true ->
       lookup k (exportsOutputFn a)
       = Some {| exportName := exportNameOf e; value := lookup "Value" props |}).
Proof.
  intros file tree a H.
  pose proof (analyzeContent_synthetic _ _ _ H) as Hs.
  pose proof (analyzeContent_named _ _ _ H) as Hn.
  split; [|split].
  - intros k d Hin. rewrite Hs in Hin. apply In_fold_setProp in Hin as [Hin|[]].
    apply in_flat_map in Hin as (entry & He & Hin).
    apply syntheticDeclaration_In in Hin as (props & e & -> & Hin).
    exists props, e. split; [exact He|exact Hin].
  - intros n d Hin. rewrite Hn in Hin. apply In_fold_setProp in Hin as [Hin|[]].
    apply in_flat_map in Hin as (entry & He & Hin).
    apply namedDeclaration_In in Hin as (props & e & -> & Hin).
    exists props, e. split; [exact He|exact Hin].
  - intros Hnd k props e Hin He T S.
    rewrite Hs, lookup_fold_setProp by (intros ->; discriminate S).
    unfold lastDeclared.
    rewrite lookup_rev_NoDup by now apply synthetic_keys_NoDup.
    rewrite (NoDup_lookup k {| exportName := exportNameOf e; value := lookup "Value" props |});
      [reflexivity|now apply synthetic_keys_NoDup|].
    apply in_flat_map. exists (k, JObj props). split; [exact Hin|].
    apply syntheticDeclaration_In. exists props, e. repeat split; auto.
Qed.

Lemma outputs_classified_witness :
  analyzeContent "X.template.json" sampleX = inr sampleAnalysisX /\
  exists props e,
    In ("ExportsOutputFnGetAttBucketAArn7f3a", JObj props)
       (Object_entries (outputsMapping sampleX)) /\
    lookup "Export" props = Some e /\ truthy (Some e) = true /\
    startsWith "ExportsOutputFnGetAttBucketAArn7f3a" ExportsOutputFn = true /\
    {| exportName := Some (JStr "X:ExportsOutputFnGetAttBucketAArn7f3a");
       value := Some bucketArn |}
    = {| exportName := exportNameOf e; value := lookup "Value" props |}.
Proof.
  split; [reflexivity|].
  apply (proj1 (outputs_classified "X.template.json" sampleX sampleAnalysisX eq_refl)).
  now left.
Defined.

(** ** Runs without a match *)

Lemma fold_matchExport_none catalog es st :
  (forall k d, In (k, d) es -> noneEqual (value d) catalog) ->
  fold_left (matchExport catalog) es st = st.
Proof.
  revert st. induction es as [|[k d] es IH]; intros st H; cbn [fold_left];
    [reflexivity|].
  assert (Hm : matchExport catalog st (k, d) = st).
  { unfold matchExport, findMatchingNamedExport.
    now rewrite (proj2 (firstMatch_None (value d) catalog) (H k d (or_introl eq_refl))). }
  rewrite Hm. apply IH. intros k' d' Hin. apply (H k' d'). now right.
Qed.

Lemma findReplacements_none catalog analyses :
  (forall a k d, In a analyses -> In (k, d) (exportsOutputFn a) ->
                 noneEqual (value d) catalog) ->
  findReplacements analyses catalog = ([], 0).
Proof.
  unfold findReplacements. intros H.
  assert (Hst : forall st,
             fold_left
               (fun st analysis =>
                  fold_left (matchExport catalog) (exportsOutputFn analysis) st)
               analyses st = st).
  { induction analyses as [|a analyses IH]; intros st; cbn [fold_left];
      [reflexivity|].
    rewrite fold_matchExport_none.
    - apply IH. intros b k d Hb. apply (H b k d). now right.
    - intros k d. apply (H a k d). now left. }
  apply Hst.
Qed.

(** X8.  When no synthetic export of any template has a value equal, for
    the script, to the value of a catalog entry - their texts under
    [JSON.stringify] differ, which for values of JSON data says that
    they are different trees - the run ends after the matching phase: it
    reports zero matches and zero replacements, writes nothing, and the
    file system and the trees are the ones it read. *)
Theorem no_match_no_write :
  forall (JSON_parse : string -> option json) (templateFiles : list string)
         (fs : FileSystem) (analyses : list AnalysisResult),
    mapM (analyzeTemplate JSON_parse fs) templateFiles = inr analyses ->
    (forall a k d,
        In a analyses -> In (k, d) (exportsOutputFn a) ->
        noneEqual (value d) (collectNamedExports analyses)) ->
    main JSON_parse templateFiles fs =
      (inr {| matchCount := 0; totalReplacements := 0; updated := [];
              documents := map (fun a => (filePath a, content a)) analyses |}, fs).
Proof.
  intros JSON_parse templateFiles fs analyses H Hno. unfold main. rewrite H.
  unfold optimize. now rewrite (findReplacements_none _ _ Hno).
Qed.

Lemma no_match_no_write_witness :
  mapM (analyzeTemplate keyOrderParse keyOrderFs) ["K.template.json"]
    = inr (analysesOf [("K.template.json", keyOrderDoc)]) /\
  collectNamedExports (analysesOf [("K.template.json", keyOrderDoc)])
    = [("SharedVpc", {| key := "VpcExport"; named_value := Some nameThenTags |})] /\
  main keyOrderParse ["K.template.json"] keyOrderFs =
    (inr {| matchCount := 0; totalReplacements := 0; updated := [];
            documents := map (fun a => (filePath a, content a))
                           (analysesOf [("K.template.json", keyOrderDoc)]) |},
     keyOrderFs).
Proof.
  split; [reflexivity|]. split; [reflexivity|].
  apply (no_match_no_write keyOrderParse ["K.template.json"] keyOrderFs
           (analysesOf [("K.template.json", keyOrderDoc)])); [reflexivity|].
  intros a k d Ha Hd. vm_compute in Ha. destruct Ha as [<-|[]].
  vm_compute in Hd. destruct Hd as [[= <- <-]|[]].
  repeat constructor. vm_compute. discriminate.
Defined.

(** X9.  The matching loop tests the name it found for truthiness: when
    the first catalog entry whose value equals that of a synthetic export
    has the empty export name, no replacement is recorded for that export
    and no match is counted, even if a later entry with the same value
    has a proper name. *)
Theorem empty_name_blocks_match :
  forall (catalog : list (string * NamedExportData)) (st : Replacements * nat)
         (exportsKey : string) (data : ExportsOutputFnData),
    firstEqual "" (value data) catalog ->
    matchExport catalog st (exportsKey, data) = st.
Proof.
  intros catalog st k data H. apply firstMatch_Some in H.
  unfold matchExport, findMatchingNamedExport. now rewrite H.
Qed.

Lemma empty_name_blocks_match_witness :
  firstEqual "" (Some bucketArn) unnamedFirst /\
  lookup "SharedBucketArn" unnamedFirst
    = Some {| key := "BucketArnExport"; named_value := Some bucketArn |} /\
  matchExport unnamedFirst ([], 0)
    ("ExportsOutputFnGetAttBucketAArn7f3a",
     {| exportName := Some (JStr "X:ExportsOutputFnGetAttBucketAArn7f3a");
        value := Some bucketArn |}) = ([], 0).
Proof.
  assert (H : firstEqual "" (Some bucketArn) unnamedFirst).
  { exists [], {| key := "Anonymous"; named_value := Some bucketArn |},
      [("SharedBucketArn", {| key := "BucketArnExport"; named_value := Some bucketArn |})].
    repeat split; constructor. }
  split; [exact H|]. split; [reflexivity|].
  exact (empty_name_blocks_match unnamedFirst ([], 0)
           "ExportsOutputFnGetAttBucketAArn7f3a"
           {| exportName := Some (JStr "X:ExportsOutputFnGetAttBucketAArn7f3a");
              value := Some bucketArn |} H).
Defined.

(** ** Export names that are not strings *)

Lemma catalog_entry_declared docs analyses n d :
  Forall2 (fun doc a => analyzeContent (fst doc) (snd doc) = inr a) docs analyses ->
  In (n, d) (collectNamedExports analyses) ->
  In (n, d) (flat_map (fun doc => declarationsOf (snd doc)) docs).
Proof.
  intros HF Hin.
  apply NoDup_lookup in Hin; [|apply collectNamedExports_NoDup].
  unfold collectNamedExports in Hin.
  destruct (catalog_fold _ _ HF [] n) as [_ Hl]; [constructor|].
  rewrite Hl in Hin.
  2:{ intros ->. now rewrite catalog_proto in Hin. }
  unfold lastDeclared in Hin.
  destruct (lookup n (List.rev _)) as [d'|] eqn:E; [|discriminate Hin].
  injection Hin as ->. apply lookup_In in E. now apply in_rev in E.
Qed.

Lemma NoDup_constant {A} (l : list A) (c : A) :
  NoDup l -> (forall x, In x l -> x = c) -> (List.length l <= 1)%nat.
Proof.
  intros Hnd Hc. destruct l as [|x [|y l]]; simpl; try lia.
  exfalso. inversion Hnd as [|? ? Hx _]; subst. apply Hx.
  rewrite (Hc x), <- (Hc y); simpl; auto.
Qed.

(** X10.  A named export is cataloged under its export name converted to
    a property key, so a name given by a mapping (a substitution or a
    join) becomes the text [[object Object]].  When every named export
    takes its name from a mapping, the catalog holds at most one entry,
    under that text, and every replacement the run resolves points to
    that text. *)
Theorem computed_names_collapse :
  forall (docs : list (string * json)) (analyses : list AnalysisResult),
    mapM (fun d => analyzeContent (fst d) (snd d)) docs = inr analyses ->
    (forall doc, In doc docs -> namesAreMappings (snd doc)) ->
    (forall n d, In (n, d) (collectNamedExports analyses) -> n = "[object Object]") /\
    (List.length (collectNamedExports analyses) <= 1)%nat /\
    (forall s n, lookup s (replacementsOf analyses) = Some n -> n = "[object Object]").
Proof.
  intros docs analyses H Hmap. apply mapM_Forall2 in H.
  assert (Hkeys : forall n d, In (n, d) (collectNamedExports analyses) ->
                              n = "[object Object]").
  { intros n d Hin. apply (catalog_entry_declared docs analyses n d H) in Hin.
    apply in_flat_map in Hin as (doc & Hdoc & Hin). unfold declarationsOf in Hin.
    apply in_flat_map in Hin as (entry & He & Hin).
    apply namedDeclaration_In in Hin as (props & e & -> & Hl & T & S & -> & _).
    destruct (Hmap doc Hdoc (key d) props e He Hl T S) as [o ->]. reflexivity. }
  split; [exact Hkeys|]. split.
  - rewrite <- (length_map fst). apply (NoDup_constant _ "[object Object]").
    + apply collectNamedExports_NoDup.
    + intros x Hx. apply in_map_iff in Hx as ([n d] & <- & Hin). now apply (Hkeys n d).
  - intros s n Hl.
    destruct (findReplacements_backed (collectNamedExports analyses) analyses s n Hl)
      as (k & data & d & _ & _ & Hd & _).
    now apply (Hkeys n d).
Qed.

Lemma computed_names_collapse_witness :
  mapM (fun d => analyzeContent (fst d) (snd d)) computedNamesDocs
    = inr (analysesOf computedNamesDocs) /\
  (forall doc, In doc computedNamesDocs -> namesAreMappings (snd doc)) /\
  (forall n d, In (n, d) (collectNamedExports (analysesOf computedNamesDocs)) ->
               n = "[object Object]") /\
  (List.length (collectNamedExports (analysesOf computedNamesDocs)) <= 1)%nat /\
  (forall s n, lookup s (replacementsOf (analysesOf computedNamesDocs)) = Some n ->
               n = "[object Object]").
Proof.
  assert (Hm : forall doc, In doc computedNamesDocs -> namesAreMappings (snd doc)).
  { intros doc [<-|[]] k props e [H|[H|[H|[]]]] He T S; injection H as <- <-;
      simpl in *; try discriminate; injection He as <-; eexists; reflexivity. }
  split; [reflexivity|]. split; [exact Hm|].
  exact (computed_names_collapse computedNamesDocs (analysesOf computedNamesDocs)
           eq_refl Hm).
Defined.

(** The stack with computed names: the generated export of the queue is
    not matched, because the one catalog entry left is the topic. *)
Example computed_names_lose_the_queue :
  collectNamedExports (analysesOf computedNamesDocs) =
    [("[object Object]",
      {| key := "TopicExport"; named_value := Some (JObj [("Ref", JStr "Topic")]) |})] /\
  replacementsOf (analysesOf computedNamesDocs) = [].
Proof.
  split; reflexivity.
Qed.

(** ** Discovering the templates *)

Lemma endsWith_spec s suffix :
  endsWith s suffix = true <-> exists stem, s = (stem ++ suffix)%string.
Proof.
  induction s as [|c s IH]; cbn [endsWith].
  - rewrite orb_false_r, String.eqb_eq. split.
    + intros <-. now exists "".
    + intros ([|? ?] & H); simpl in H; [auto|discriminate].
  - rewrite orb_true_iff, IH, String.eqb_eq. split.
    + intros [<-|(stem & ->)]; [now exists ""|now exists (String c stem)].
    + intros ([|c' stem] & H); simpl in H; [now left|].
      injection H as <- ->. right. now exists stem.
Qed.

Lemma collectAssembly_spec table dir files entry files' :
  collectAssembly table dir files entry = inr files' ->
  forall p,
    In p files' <->
    In p files \/
    exists children file,
      isDirectory entry = true /\
      startsWith (name entry) "assembly-" = true /\
      lookup (path_join dir (name entry)) table = Some children /\
      In file (map name children) /\
      endsWith file ".template.json" = true /\
      p = path_join (path_join dir (name entry)) file.
Proof.
  unfold collectAssembly, readdirSync, bind.
  destruct (isDirectory entry); cbn [andb].
  - destruct (startsWith (name entry) "assembly-").
    + destruct (lookup (path_join dir (name entry)) table) as [children|];
        [|discriminate].
      intros [= <-] p. rewrite in_app_iff, in_map_iff. split.
      * intros [H|(file & <- & H)]; [now left|]. apply filter_In in H as [H1 H2].
        right. exists children, file. repeat split; auto.
      * intros [H|(ch & file & _ & _ & [= <-] & H1 & H2 & ->)]; [now left|].
        right. exists file. split; [reflexivity|]. now apply filter_In.
    + intros [= <-] p. split; [now left|].
      intros [H|(ch & file & _ & [=] & _)]. exact H.
  - intros [= <-] p. split; [now left|].
    intros [H|(ch & file & [=] & _)]. exact H.
Qed.

Lemma foldM_collectAssembly table dir entries :
  forall files files',
    foldM (collectAssembly table dir) entries files = inr files' ->
    forall p,
      In p files' <->
      In p files \/
      exists entry children file,
        In entry entries /\
        isDirectory entry = true /\
        startsWith (name entry) "assembly-" = true /\
        lookup (path_join dir (name entry)) table = Some children /\
        In file (map name children) /\
        endsWith file ".template.json" = true /\
        p = path_join (path_join dir (name entry)) file.
Proof.
  induction entries as [|entry entries IH]; intros files files' H p; cbn [foldM] in H.
  - injection H as <-. split; [now left|]. intros [H|(e & _ & _ & [] & _)]. exact H.
  - unfold bind in H.
    destruct (collectAssembly table dir files entry) as [x|files1] eqn:E; [discriminate|].
    rewrite (IH files1 files' H p), (collectAssembly_spec _ _ _ _ _ E p). split.
    + intros [[Hp|(ch & f & Hrest)]|(e & ch & f & Hin & Hrest)].
      * now left.
      * right. exists entry, ch, f. split; [now left|exact Hrest].
      * right. exists e, ch, f. split; [now right|exact Hrest].
    + intros [Hp|(e & ch & f & [<-|Hin] & Hrest)].
      * left. now left.
      * left. right. now exists ch, f.
      * right. now exists e, ch, f.
Qed.

(** X11.  What [findTemplateFiles] returns: exactly the paths obtained by
    joining the root, an entry of the root that is a directory whose name
    starts with [assembly-], and an entry of that directory whose name
    ends with [.template.json].  Templates lying directly in the root, or
    in a directory without the prefix, are never returned, and the kind
    of the inner entry is not looked at. *)
Theorem template_files_found :
  forall (table : DirectoryTable) (dir : string) (files : list string),
    findTemplateFiles table dir = inr files ->
    forall p,
      In p files <->
      exists entries entry children stem,
        lookup dir table = Some entries /\
        In entry entries /\
        isDirectory entry = true /\
        (exists rest, name entry = ("assembly-" ++ rest)%string) /\
        lookup (path_join dir (name entry)) table = Some children /\
        In (stem ++ ".template.json")%string (map name children) /\
        p = path_join (path_join dir (name entry)) (stem ++ ".template.json").
Proof.
  intros table dir files H p. unfold findTemplateFiles, readdirSync, bind in H.
  destruct (lookup dir table) as [entries|] eqn:El; [|discriminate].
  rewrite (foldM_collectAssembly table dir entries [] files H p). split.
  - intros [[]|(entry & children & file & Hin & Hd & Hs & Hl & Hf & He & ->)].
    apply endsWith_spec in He as [stem ->]. apply prefix_split in Hs.
    exists entries, entry, children, stem. repeat split; auto.
  - intros (entries' & entry & children & stem & [= <-] & Hin & Hd & Hs & Hl & Hf & ->).
    right. exists entry, children, (stem ++ ".template.json")%string.
    repeat split; auto.
    + now apply prefix_split.
    + apply endsWith_spec. now exists stem.
Qed.

Lemma template_files_found_witness :
  findTemplateFiles sampleTable CDK_OUT_DIR
    = inr ["cdk.out/assembly-Prod/X.template.json";
           "cdk.out/assembly-Prod/Y.template.json";
           "cdk.out/assembly-Prod/nested.template.json"] /\
  (In "cdk.out/assembly-Prod/Y.template.json"
      ["cdk.out/assembly-Prod/X.template.json";
       "cdk.out/assembly-Prod/Y.template.json";
       "cdk.out/assembly-Prod/nested.template.json"] <->
   exists entries entry children stem,
     lookup CDK_OUT_DIR sampleTable = Some entries /\
     In entry entries /\
     isDirectory entry = true /\
     (exists rest, name entry = ("assembly-" ++ rest)%string) /\
     lookup (path_join CDK_OUT_DIR (name entry)) sampleTable = Some children /\
     In (stem ++ ".template.json")%string (map name children) /\
     "cdk.out/assembly-Prod/Y.template.json"
     = path_join (path_join CDK_OUT_DIR (name entry)) (stem ++ ".template.json")).
Proof.
  split; [reflexivity|].
  apply (template_files_found sampleTable CDK_OUT_DIR). reflexivity.
Defined.

(** ** The paths of the templates *)

Lemma string_app_assoc (a b c : string) : ((a ++ b) ++ c = a ++ (b ++ c))%string.
Proof.
  induction a as [|x a IH]; simpl; [reflexivity|]. now rewrite IH.
Qed.

Lemma string_app_nil_r (a : string) : (a ++ "")%string = a.
Proof.
  induction a as [|x a IH]; simpl; [reflexivity|]. now rewrite IH.
Qed.

Lemma string_length_app (a b : string) :
  String.length (a ++ b) = String.length a + String.length b.
Proof.
  induction a as [|x a IH]; simpl; [reflexivity|]. now rewrite IH.
Qed.

Lemma noSlash_app a b : noSlash (a ++ b) = noSlash a && noSlash b.
Proof.
  induction a as [|x a IH]; simpl; [reflexivity|]. now rewrite IH, andb_assoc.
Qed.

Lemma splitSlash_nonempty s : splitSlash s <> [].
Proof.
  destruct s as [|c s]; simpl; [discriminate|].
  destruct (Ascii.eqb c "/"); [discriminate|]. now destruct (splitSlash s).
Qed.

Lemma splitSlash_plain s : noSlash s = true -> splitSlash s = [s].
Proof.
  induction s as [|c s IH]; simpl; [reflexivity|].
  destruct (Ascii.eqb c "/"); simpl; [discriminate|]. intros H. now rewrite IH.
Qed.

Lemma splitSlash_app a b :
  splitSlash (a ++ String "/" b) = splitSlash a ++ splitSlash b.
Proof.
  induction a as [|c a IH]; simpl; [reflexivity|].
  destruct (Ascii.eqb c "/"); simpl; [now rewrite IH|]. rewrite IH.
  pose proof (splitSlash_nonempty a). now destruct (splitSlash a).
Qed.

Lemma endsWith_slash_app x f :
  f <> "" -> endsWith (x ++ f) "/" = endsWith f "/".
Proof.
  intros Hf. induction x as [|c x IH]; [reflexivity|].
  cbn [append endsWith]. rewrite IH.
  destruct (String.eqb_spec (String c (x ++ f)) "/") as [E|_]; [|reflexivity].
  injection E as _ E. destruct x; simpl in E; [contradiction|discriminate].
Qed.

Lemma endsWith_slash_plain f : noSlash f = true -> endsWith f "/" = false.
Proof.
  induction f as [|c f IH]; [reflexivity|]. cbn [noSlash endsWith].
  intros H. apply andb_true_iff in H as [Hc Hf]. rewrite (IH Hf), orb_false_r.
  apply String.eqb_neq. intros [= -> _]. discriminate Hc.
Qed.

Lemma long_name_is_plain_segment (f : string) :
  3 <= String.length f ->
  (f =? "") = false /\ (f =? ".") = false /\ (f =? "..") = false.
Proof.
  intros H. repeat split; apply String.eqb_neq; intros ->; simpl in H; lia.
Qed.

(** Joining a directory made of plain segments with one more plain
    segment appends the segment. *)
Lemma path_join_plain (segments : list string) (f : string) :
  segments <> [] ->
  Forall (fun seg => noSlash seg = true /\ 3 <= String.length seg) segments ->
  noSlash f = true -> 3 <= String.length f ->
  fold_left (normalizeSegment true) (splitSlash (join "/" segments ++ String "/" f)) []
  = f :: List.rev segments.
Proof.
  intros Hne HF Hf Hlen. rewrite splitSlash_app, fold_left_app, (splitSlash_plain f Hf).
  assert (Hsegs : fold_left (normalizeSegment true) (splitSlash (join "/" segments)) []
                  = List.rev segments).
  { clear Hne. induction segments as [|seg segments IH] using rev_ind; [reflexivity|].
    apply Forall_app in HF as [HF Hseg]. inversion Hseg as [|? ? [Hs Hl] _]; subst.
    destruct (long_name_is_plain_segment seg Hl) as (E1 & E2 & E3).
    rewrite rev_app_distr. simpl.
    destruct segments as [|s0 segments'].
    - simpl. rewrite (splitSlash_plain seg Hs). simpl.
      unfold normalizeSegment. now rewrite E1, E2, E3.
    - assert (Hj : join "/" ((s0 :: segments') ++ [seg])
                   = (join "/" (s0 :: segments') ++ String "/" seg)%string).
      { clear. generalize s0. induction segments' as [|s1 l IHl]; intros s; simpl.
        - reflexivity.
        - simpl in IHl. rewrite (IHl s1). now rewrite !string_app_assoc. }
      rewrite Hj, splitSlash_app, fold_left_app, (IH HF), (splitSlash_plain seg Hs).
      simpl. unfold normalizeSegment. now rewrite E1, E2, E3. }
  rewrite Hsegs. simpl. destruct (long_name_is_plain_segment f Hlen) as (E1 & E2 & E3).
  unfold normalizeSegment. now rewrite E1, E2, E3.
Qed.

Lemma join_snoc sep (l : list string) x :
  l <> [] -> join sep (l ++ [x]) = (join sep l ++ sep ++ x)%string.
Proof.
  destruct l as [|s0 l]; [congruence|]. intros _. revert s0.
  induction l as [|s1 l IH]; intros s0; simpl; [reflexivity|].
  simpl in IH. rewrite (IH s1). now rewrite !string_app_assoc.
Qed.

Lemma path_join_root d :
  noSlash d = true -> 3 <= String.length d ->
  path_join CDK_OUT_DIR d = ("cdk.out/" ++ d)%string.
Proof.
  intros Hd Hl. destruct (long_name_is_plain_segment d Hl) as (E1 & E2 & E3).
  unfold path_join, CDK_OUT_DIR, path_normalize. rewrite E1. simpl.
  rewrite ?E1, (endsWith_slash_plain d Hd), (splitSlash_plain d Hd). simpl.
  unfold normalizeSegment. rewrite E1, E2, E3. simpl. now rewrite string_app_nil_r.
Qed.

Lemma path_join_assembly d f :
  noSlash d = true -> 3 <= String.length d ->
  noSlash f = true -> 3 <= String.length f ->
  path_join ("cdk.out/" ++ d) f = ("cdk.out/" ++ d ++ "/" ++ f)%string.
Proof.
  intros Hd Hld Hf Hlf. destruct (long_name_is_plain_segment f Hlf) as (E1 & E2 & E3).
  assert (Hj : (("cdk.out/" ++ d) ++ "/" ++ f)%string
               = (join "/" ["cdk.out"; d] ++ String "/" f)%string) by reflexivity.
  assert (Ht : endsWith (("cdk.out/" ++ d) ++ "/" ++ f) "/" = false).
  { rewrite <- string_app_assoc.
    rewrite endsWith_slash_app by (intros ->; discriminate E1).
    now apply endsWith_slash_plain. }
  assert (Hb : join "/" ["cdk.out"; d; f] = ("cdk.out/" ++ d ++ "/" ++ f)%string)
    by reflexivity.
  unfold path_join. rewrite E1.
  replace (("cdk.out/" ++ d)%string =? "") with false by reflexivity.
  replace ((("cdk.out/" ++ d) ++ "/" ++ f)%string =? "") with false by reflexivity.
  unfold path_normalize.
  replace ((("cdk.out/" ++ d) ++ "/" ++ f)%string =? "") with false by reflexivity.
  replace (startsWith (("cdk.out/" ++ d) ++ "/" ++ f) "/") with false by reflexivity.
  rewrite Ht, Hj. cbn [negb].
  rewrite (path_join_plain ["cdk.out"; d] f); auto; [|discriminate|].
  - cbn [List.rev app]. rewrite Hb.
    replace (("cdk.out/" ++ d ++ "/" ++ f)%string =? "") with false by reflexivity.
    simpl. now rewrite string_app_nil_r.
  - repeat constructor; auto; simpl; lia.
Qed.

Lemma plainNames_entry table dir entries entry :
  plainNames table = true ->
  lookup dir table = Some entries -> In entry entries ->
  noSlash (name entry) = true.
Proof.
  unfold plainNames. intros H Hl Hin. apply lookup_In in Hl.
  rewrite forallb_forall in H. specialize (H _ Hl). simpl in H.
  rewrite forallb_forall in H. now apply H.
Qed.

(** X12.  From the fixed root [./cdk.out], when the names in the
    directories hold no separator, every path [findTemplateFiles] returns
    has the form [cdk.out/assembly-<rest>/<stem>.template.json]: the
    leading [./] of the root is dropped by the join, and the walk goes
    exactly one directory deep. *)
Theorem template_paths_shape :
  forall (table : DirectoryTable) (files : list string) (p : string),
    plainNames table = true ->
    findTemplateFiles table CDK_OUT_DIR = inr files ->
    In p files ->
    exists rest stem,
      noSlash rest = true /\ noSlash stem = true /\
      p = ("cdk.out/assembly-" ++ rest ++ "/" ++ stem ++ ".template.json")%string.
Proof.
  intros table files p Hplain H Hin.
  unfold findTemplateFiles, readdirSync, bind in H.
  destruct (lookup CDK_OUT_DIR table) as [entries|] eqn:El; [|discriminate].
  apply (foldM_collectAssembly table CDK_OUT_DIR entries [] files H p) in Hin.
  destruct Hin as [[]|(entry & children & file & He & _ & Hs & Hl & Hf & Hw & ->)].
  pose proof (plainNames_entry _ _ _ _ Hplain El He) as Hd.
  apply in_map_iff in Hf as (child & <- & Hc).
  pose proof (plainNames_entry _ _ _ _ Hplain Hl Hc) as Hfile.
  apply prefix_split in Hs as [rest Hrest].
  apply endsWith_spec in Hw as [stem Hstem].
  rewrite Hrest in Hd. rewrite Hstem in Hfile.
  assert (Hr : noSlash rest = true).
  { rewrite noSlash_app in Hd. now apply andb_true_iff in Hd as [_ Hd]. }
  assert (Hst : noSlash stem = true).
  { rewrite noSlash_app in Hfile. now apply andb_true_iff in Hfile as [Hfile _]. }
  exists rest, stem. split; [exact Hr|]. split; [exact Hst|].
  rewrite Hstem. rewrite Hrest in *.
  rewrite path_join_root, path_join_assembly; auto;
    rewrite string_length_app; simpl; lia.
Qed.

Lemma template_paths_shape_witness :
  plainNames sampleTable = true /\
  findTemplateFiles sampleTable CDK_OUT_DIR
    = inr ["cdk.out/assembly-Prod/X.template.json";
           "cdk.out/assembly-Prod/Y.template.json";
           "cdk.out/assembly-Prod/nested.template.json"] /\
  In "cdk.out/assembly-Prod/X.template.json"
     ["cdk.out/assembly-Prod/X.template.json";
      "cdk.out/assembly-Prod/Y.template.json";
      "cdk.out/assembly-Prod/nested.template.json"] /\
  exists rest stem,
    noSlash rest = true /\ noSlash stem = true /\
    "cdk.out/assembly-Prod/X.template.json"
    = ("cdk.out/assembly-" ++ rest ++ "/" ++ stem ++ ".template.json")%string.
Proof.
  split; [reflexivity|]. split; [reflexivity|]. split; [now left|].
  apply (template_paths_shape sampleTable
           ["cdk.out/assembly-Prod/X.template.json";
            "cdk.out/assembly-Prod/Y.template.json";
            "cdk.out/assembly-Prod/nested.template.json"]);
    [reflexivity|reflexivity|now left].
Defined.

(** ** Rewriting twice *)

Lemma replacementAt_eq r l :
  replacementAt r (JObj l) =
  match lookup Fn_ImportValue l with
  | Some (JStr s) => if s =? "" then None else replacementFor r s
  | _ => None
  end.
Proof.
  simpl. destruct (lookup Fn_ImportValue l) as [[|b|n|s|e|o|h]|]; try reflexivity; simpl.
  - now destruct b.
  - now destruct (negb (n =? 0)%Z).
  - now destruct (s =? "").
Qed.

Lemma subtreeAt_leaf t pos node :
  children t = [] -> subtreeAt t pos = Some node -> node = t.
Proof.
  intros Ht. destruct pos as [|i pos]; simpl; [now intros [= <-]|].
  rewrite Ht. now destruct i.
Qed.

Lemma settled_spec r s n :
  settled r = true -> lookup s r = Some n -> replacementFor r n = None.
Proof.
  unfold settled. intros H Hl. apply lookup_In in Hl.
  rewrite forallb_forall in H. specialize (H _ Hl). simpl in H.
  now destruct (replacementFor r n).
Qed.

Lemma rewritten_tree_settled r :
  settled r = true ->
  forall t,
    leafMarkers t = true ->
    forall pos node,
      subtreeAt (fst (replaceImportsInObject t r)) pos = Some node ->
      replacementAt r node = None.
Proof.
  intros Hchain. induction t as [| | | |l IH|l IH|h] using json_ind;
    intros Hleaf pos node Hs; rewrite replace_unfold in Hs;
    try (apply subtreeAt_leaf in Hs; [now subst node|reflexivity]).
  - cbn [fst] in Hs. destruct pos as [|i pos]; simpl in Hs; [now injection Hs as <-|].
    rewrite nth_error_map in Hs.
    destruct (nth_error l i) as [c|] eqn:Ec; [|discriminate]. simpl in Hs.
    apply nth_error_In in Ec. rewrite Forall_forall in IH.
    simpl in Hleaf. rewrite forallb_forall in Hleaf.
    exact (IH c Ec (Hleaf c Ec) pos node Hs).
  - simpl in Hleaf. apply andb_true_iff in Hleaf as [Hone Hleaf].
    destruct (replacementAt r (JObj l)) as [v|] eqn:E.
    + apply replacementAt_spec in E as (l' & s & [= <-] & Hl & _ & Hr).
      rewrite Hl in Hone.
      destruct l as [|[k0 v0] [|? ?]]; try discriminate.
      simpl in Hl. destruct (String.eqb_spec k0 Fn_ImportValue) as [->|]; [|discriminate].
      injection Hl as ->.
      change (fst (JObj (setProp Fn_ImportValue v [(Fn_ImportValue, JStr s)]), true))
        with (JObj [(Fn_ImportValue, v)]) in Hs.
      assert (Hv : children v = [] /\ replacementAt r v = None /\
                   replacementAt r (JObj [(Fn_ImportValue, v)]) = None).
      { apply replacementFor_spec in Hr as [(n & Hn & Hne & ->)|[_ Hr]].
        - repeat split. rewrite replacementAt_eq. simpl.
          destruct (n =? ""); [reflexivity|]. now apply (settled_spec r s n).
        - apply ObjectPrototype_get_host in Hr as [h ->]. now destruct h. }
      destruct Hv as (Hc & Hself & Hat).
      destruct pos as [|i pos]; simpl in Hs.
      * now injection Hs as <-.
      * destruct i as [|i]; simpl in Hs; [|now destruct i].
        apply (subtreeAt_leaf v pos node Hc) in Hs. now subst node.
    + cbn [fst] in Hs. destruct pos as [|i pos]; simpl in Hs.
      * injection Hs as <-. rewrite replacementAt_eq.
        rewrite (lookup_map_values (fun v => fst (replaceImportsInObject v r))).
        rewrite replacementAt_eq in E.
        destruct (lookup Fn_ImportValue l) as [v|]; [|reflexivity]. simpl.
        destruct (fst (replaceImportsInObject v r)) as [| | |s| | |h] eqn:Ev; try reflexivity.
        apply replace_string_inv in Ev. now subst v.
      * rewrite map_map, nth_error_map in Hs.
        destruct (nth_error l i) as [[k c]|] eqn:Ec; [|discriminate]. simpl in Hs.
        apply nth_error_In in Ec. rewrite Forall_forall in IH.
        rewrite forallb_forall in Hleaf.
        exact (IH (k, c) Ec (Hleaf (k, c) Ec) pos node Hs).
Qed.

(** X13.  Rewriting is idempotent on well-formed input: when the
    reference markers of the tree are single-key mappings and
    [replacements[n]] is falsy for every name [n] the map assigns ([n] is
    no key of the map and no member of [Object.prototype]), a second call
    of [replaceImportsInObject] with the same map changes nothing and
    returns [false]. *)
Theorem rewriter_idempotent :
  forall (tree : json) (replacements : Replacements),
    leafMarkers tree = true ->
    settled replacements = true ->
    replaceImportsInObject (fst (replaceImportsInObject tree replacements)) replacements
    = (fst (replaceImportsInObject tree replacements), false).
Proof.
  intros tree r Hleaf Hchain.
  set (t' := fst (replaceImportsInObject tree r)).
  destruct (snd (replaceImportsInObject t' r)) eqn:E.
  - apply replace_true_position in E as (pos & node & n & Hs & Hn & _).
    rewrite (rewritten_tree_settled r Hchain tree Hleaf pos node Hs) in Hn.
    discriminate Hn.
  - pose proof (replace_false_untouched r t' E) as Hf.
    destruct (replaceImportsInObject t' r). simpl in *. congruence.
Qed.

Lemma rewriter_idempotent_witness :
  leafMarkers sampleX = true /\
  settled (replacementsOf (analysesOf sampleDocs)) = true /\
  snd (replaceImportsInObject sampleX (replacementsOf (analysesOf sampleDocs))) = true /\
  replaceImportsInObject
    (fst (replaceImportsInObject sampleX (replacementsOf (analysesOf sampleDocs))))
    (replacementsOf (analysesOf sampleDocs))
  = (fst (replaceImportsInObject sampleX (replacementsOf (analysesOf sampleDocs))), false).
Proof.
  repeat (split; [reflexivity|]).
  apply (rewriter_idempotent sampleX (replacementsOf (analysesOf sampleDocs)));
    reflexivity.
Defined.

(** Without the second condition the rewrite is not idempotent: a map
    that assigns the name of a member of [Object.prototype] turns the
    reference into that name at the first call and into the member
    itself at the second. *)
Example member_name_is_rewritten_again :
  leafMarkers sampleMarker = true /\
  noChain [("X:ExportsOutputFnGetAttBucketAArn7f3a", "constructor")] = true /\
  settled [("X:ExportsOutputFnGetAttBucketAArn7f3a", "constructor")] = false /\
  replaceImportsInObject sampleMarker
    [("X:ExportsOutputFnGetAttBucketAArn7f3a", "constructor")]
    = (JObj [(Fn_ImportValue, JStr "constructor")], true) /\
  replaceImportsInObject (JObj [(Fn_ImportValue, JStr "constructor")])
    [("X:ExportsOutputFnGetAttBucketAArn7f3a", "constructor")]
    = (JObj [(Fn_ImportValue, JHost (BuiltinFunction "Object"))], true).
Proof.
  repeat split; reflexivity.
Qed.

(** ** The order of the catalog *)

Lemma existsb_eqb_In k (l : list string) : existsb (String.eqb k) l = true <-> In k l.
Proof.
  rewrite existsb_exists. split.
  - intros (x & Hx & E). apply String.eqb_eq in E. now subst.
  - intros H. exists k. split; [exact H|apply String.eqb_refl].
Qed.

Lemma existsb_eqb_lookup {A} k (l : list (string * A)) :
  existsb (String.eqb k) (map fst l) = match lookup k l with Some _ => true | None => false end.
Proof.
  induction l as [|[k0 a0] l IH]; simpl; [reflexivity|].
  rewrite String.eqb_sym. now destruct (k0 =? k).
Qed.

Lemma keys_setProp {A} k (a : A) l :
  arrayIndex k = None -> k <> "__proto__" ->
  map fst (setProp k a l) = addKey (map fst l) k.
Proof.
  intros Hk Hp. apply String.eqb_neq in Hp.
  unfold setProp, addKey. rewrite existsb_eqb_lookup.
  destruct (lookup k l); [apply keys_replaceAt|].
  rewrite Hp, Hk, map_app. reflexivity.
Qed.

Lemma keys_fold_setProp {A} (decls : list (string * A)) :
  Forall (fun kv => arrayIndex (fst kv) = None) decls ->
  forall acc,
    lookup "__proto__" acc = None ->
    map fst (fold_left (fun t kv => setProp (fst kv) (snd kv) t) decls acc) =
    fold_left addKey (filter notProto (map fst decls)) (map fst acc).
Proof.
  induction 1 as [|[k a] decls Hk _ IH]; intros acc Hacc; simpl; [reflexivity|].
  rewrite IH by now apply lookup_proto_setProp.
  unfold notProto at 2. simpl in Hk.
  destruct (String.eqb_spec k "__proto__") as [->|Hp]; simpl.
  - now rewrite setProp_proto.
  - now rewrite keys_setProp.
Qed.

Lemma In_fold_addKey l :
  forall acc k, In k (fold_left addKey l acc) <-> In k acc \/ In k l.
Proof.
  induction l as [|x l IH]; intros acc k; simpl; [tauto|].
  rewrite IH. unfold addKey. destruct (existsb (String.eqb x) acc) eqn:E.
  - apply existsb_eqb_In in E. split; [tauto|]. intros [H|[<-|H]]; auto.
  - rewrite in_app_iff. simpl. tauto.
Qed.

Lemma addKey_In acc k : In k acc -> addKey acc k = acc.
Proof.
  intros H. unfold addKey. apply existsb_eqb_In in H. now rewrite H.
Qed.

Lemma fold_addKey_firstOccurrences l :
  forall acc, fold_left addKey (firstOccurrences l) acc = fold_left addKey l acc.
Proof.
  unfold firstOccurrences. induction l as [|k l IH] using rev_ind; intros acc;
    [reflexivity|].
  rewrite !fold_left_app. simpl. unfold addKey at 2.
  destruct (existsb (String.eqb k) (fold_left addKey l [])) eqn:E.
  - rewrite IH. apply existsb_eqb_In in E. symmetry. apply addKey_In.
    apply In_fold_addKey. right. apply In_fold_addKey in E as [[]|E]. exact E.
  - rewrite fold_left_app. simpl. now rewrite IH.
Qed.

Lemma filter_all {A} (f : A -> bool) (l : list A) :
  (forall x, In x l -> f x = true) -> filter f l = l.
Proof.
  induction l as [|x l IH]; intros H; simpl; [reflexivity|].
  rewrite (H x) by now left. f_equal. apply IH. intros y Hy. apply H. now right.
Qed.

Lemma declared_keys_plain {A} (decls : list (string * A)) x :
  Forall (fun kv => arrayIndex (fst kv) = None) decls ->
  In x (fold_left (fun t kv => setProp (fst kv) (snd kv) t) decls []) ->
  arrayIndex (fst x) = None.
Proof.
  intros HF Hin. apply In_fold_setProp in Hin as [Hin|[]].
  rewrite Forall_forall in HF. now apply HF.
Qed.

(** X14.  The catalog is scanned in the order in which the names were
    first declared: when no export name is an array index, the names of
    the catalog are the declared names other than [__proto__], each once,
    in the order of their first declaration over the documents in order
    and the outputs of each document in order.  Declaring a name again
    changes its record but not its place. *)
Theorem catalog_order :
  forall (docs : list (string * json)) (analyses : list AnalysisResult),
    mapM (fun d => analyzeContent (fst d) (snd d)) docs = inr analyses ->
    Forall (fun kv => arrayIndex (fst kv) = None)
      (flat_map (fun d => declarationsOf (snd d)) docs) ->
    map fst (collectNamedExports analyses) =
    firstOccurrences
      (filter notProto (map fst (flat_map (fun d => declarationsOf (snd d)) docs))).
Proof.
  intros docs analyses H HF. apply mapM_Forall2 in H.
  unfold collectNamedExports, firstOccurrences.
  assert (Hgen : forall acc,
             lookup "__proto__" acc = None ->
             map fst (fold_left (fun all a => Object_assign all (namedExports a))
                        analyses acc) =
             fold_left addKey
               (filter notProto
                  (map fst (flat_map (fun d => declarationsOf (snd d)) docs)))
               (map fst acc)).
  { induction H as [|d a docs analyses Hd _ IH]; intros acc Hacc; simpl; [reflexivity|].
    simpl in HF. apply Forall_app in HF as [HFd HFrest].
    assert (Hkeys : map fst (namedExports a)
                    = firstOccurrences (filter notProto (map fst (declarationsOf (snd d))))).
    { rewrite (analyzeContent_named _ _ _ Hd).
      now rewrite (keys_fold_setProp _ HFd []). }
    rewrite (IH HFrest) by (unfold Object_assign; now apply lookup_proto_fold_setProp).
    rewrite map_app, filter_app, fold_left_app. f_equal.
    unfold Object_assign. rewrite keys_fold_setProp; [|
      rewrite Forall_forall; intros x Hx;
      rewrite (analyzeContent_named _ _ _ Hd) in Hx;
      now apply (declared_keys_plain _ x HFd)|exact Hacc].
    rewrite Hkeys, filter_all.
    - apply fold_addKey_firstOccurrences.
    - intros x Hx. unfold firstOccurrences in Hx.
      apply In_fold_addKey in Hx as [[]|Hx]. now apply filter_In in Hx. }
  now apply (Hgen []).
Qed.

Lemma catalog_order_witness :
  mapM (fun d => analyzeContent (fst d) (snd d)) orderDocs = inr (analysesOf orderDocs) /\
  map fst (flat_map (fun d => declarationsOf (snd d)) orderDocs)
    = ["Zeta"; "Alpha"; "__proto__"; "Alpha"; "Zeta"] /\
  map fst (collectNamedExports (analysesOf orderDocs)) = ["Zeta"; "Alpha"] /\
  findMatchingNamedExport "ExportsOutputFnV" (Some (JStr "v"))
    (collectNamedExports (analysesOf orderDocs)) = Some "Zeta" /\
  map fst (collectNamedExports (analysesOf orderDocs)) =
    firstOccurrences
      (filter notProto
         (map fst (flat_map (fun d => declarationsOf (snd d)) orderDocs))).
Proof.
  repeat (split; [reflexivity|]).
  apply (catalog_order orderDocs (analysesOf orderDocs)); [reflexivity|].
  repeat constructor.
Defined.

(** ** The numbers a run reports *)

Lemma length_replaceAt {A} k (a : A) l : List.length (replaceAt k a l) = List.length l.
Proof.
  induction l as [|[k0 a0] l IH]; simpl; [reflexivity|].
  destruct (k0 =? k); simpl; [reflexivity|now rewrite IH].
Qed.

Lemma length_insertIndex {A} n k (a : A) l :
  List.length (insertIndex n k a l) = S (List.length l).
Proof.
  induction l as [|[k0 a0] l IH]; simpl; [reflexivity|].
  destruct (arrayIndex k0) as [m|]; [destruct (m <? n)%N|]; simpl; auto.
Qed.

Lemma length_setProp {A} k (a : A) l :
  (List.length (setProp k a l) <= S (List.length l))%nat.
Proof.
  unfold setProp. destruct (lookup k l).
  - rewrite length_replaceAt. lia.
  - destruct (k =? "__proto__"); [lia|].
    destruct (arrayIndex k); [rewrite length_insertIndex|rewrite length_app; simpl]; lia.
Qed.

Lemma matchExport_counts catalog st e :
  snd (matchExport catalog st e) = snd st + (if isMatched catalog e then 1 else 0) /\
  (List.length (fst st) <= snd st ->
   List.length (fst (matchExport catalog st e)) <= snd (matchExport catalog st e))%nat.
Proof.
  destruct e as [k data]. unfold matchExport, isMatched. simpl.
  destruct (findMatchingNamedExport k (value data) catalog) as [m|]; [|split; lia].
  destruct (m =? ""); simpl; [split; lia|]. split; [lia|].
  intros H. pose proof (length_setProp (ToPropertyKey (exportName data)) m (fst st)). lia.
Qed.

Lemma fold_matchExport_counts catalog es :
  forall st,
    snd (fold_left (matchExport catalog) es st)
      = snd st + List.length (filter (isMatched catalog) es) /\
    (List.length (fst st) <= snd st ->
     List.length (fst (fold_left (matchExport catalog) es st))
     <= snd (fold_left (matchExport catalog) es st))%nat.
Proof.
  induction es as [|e es IH]; intros st; cbn [fold_left filter].
  - split; [simpl; lia|auto].
  - destruct (IH (matchExport catalog st e)) as [H1 H2].
    destruct (matchExport_counts catalog st e) as [H3 H4].
    split; [|auto]. rewrite H1, H3. destruct (isMatched catalog e); simpl; lia.
Qed.

Lemma findReplacements_counts catalog analyses :
  snd (findReplacements analyses catalog)
    = List.length (filter (isMatched catalog) (flat_map exportsOutputFn analyses)) /\
  (List.length (fst (findReplacements analyses catalog))
   <= snd (findReplacements analyses catalog))%nat.
Proof.
  unfold findReplacements.
  assert (H : forall st,
             snd (fold_left
                    (fun st a => fold_left (matchExport catalog) (exportsOutputFn a) st)
                    analyses st)
             = snd st + List.length (filter (isMatched catalog)
                                       (flat_map exportsOutputFn analyses)) /\
             (List.length (fst st) <= snd st ->
              List.length (fst (fold_left
                     (fun st a => fold_left (matchExport catalog) (exportsOutputFn a) st)
                     analyses st))
              <= snd (fold_left
                     (fun st a => fold_left (matchExport catalog) (exportsOutputFn a) st)
                     analyses st))%nat).
  { induction analyses as [|a analyses IH]; intros st; cbn [fold_left flat_map].
    - split; [simpl; lia|auto].
    - destruct (IH (fold_left (matchExport catalog) (exportsOutputFn a) st)) as [H1 H2].
      destruct (fold_matchExport_counts catalog (exportsOutputFn a) st) as [H3 H4].
      split; [|auto]. rewrite H1, H3, filter_app, length_app. lia. }
  destruct (H ([], 0)) as [H1 H2]. split; [exact H1|]. apply H2. simpl. lia.
Qed.

Lemma replaced_fold_count r analyses :
  forall st,
    replaced (fold_left (applyReplacements r) analyses st)
    = replaced st + List.length (flat_map (resolvedImports r) analyses).
Proof.
  induction analyses as [|a analyses IH]; intros st; cbn [fold_left flat_map].
  - simpl. lia.
  - rewrite IH, length_app. unfold applyReplacements.
    destruct (resolvedImports r a); simpl; [lia|].
    destruct (snd (replaceImportsInObject (content a) r)); simpl; lia.
Qed.

(** X15.  What the two printed counters count.  [matchCount] is the
    number of synthetic exports, over all templates, for which a named
    export with a non-empty name was found; it bounds the size of the
    replacement map from above, and exceeds it when several synthetic
    exports share an export name.  When the references held by the
    analyses are those the scanner records, [totalReplacements] is the
    number of these references for which [replacements[target]] is
    truthy. *)
Theorem report_counters :
  forall (analyses : list AnalysisResult) (fs : FileSystem),
    matchCount (fst (optimize analyses fs))
      = List.length (filter (isMatched (collectNamedExports analyses))
                       (flat_map exportsOutputFn analyses)) /\
    (List.length (replacementsOf analyses) <= matchCount (fst (optimize analyses fs)))%nat /\
    (Forall scanned analyses ->
     totalReplacements (fst (optimize analyses fs))
       = List.length (flat_map (resolvedImports (replacementsOf analyses)) analyses)).
Proof.
  intros analyses fs.
  destruct (findReplacements_counts (collectNamedExports analyses) analyses) as [H1 H2].
  unfold optimize, replacementsOf in *.
  destruct (snd (findReplacements analyses (collectNamedExports analyses)) =? 0)%nat eqn:E;
    simpl.
  - apply Nat.eqb_eq in E. pose proof (findReplacements_count _ _ E) as Hnil.
    rewrite Hnil. repeat split; [lia|simpl; lia|].
    intros Hdocs. clear -Hdocs.
    induction Hdocs as [|a l Ha _ IH]; simpl; [reflexivity|].
    now rewrite (resolvedImports_nil_map a Ha).
  - repeat split; [exact H1|exact H2|]. intros _. now rewrite replaced_fold_count.
Qed.

Lemma report_counters_witness :
  Forall scanned (analysesOf twinDocs) /\
  matchCount (fst (optimize (analysesOf twinDocs) [])) = 2 /\
  List.length (replacementsOf (analysesOf twinDocs)) = 1 /\
  totalReplacements (fst (optimize (analysesOf twinDocs) []))
    = List.length (flat_map (resolvedImports (replacementsOf (analysesOf twinDocs)))
                     (analysesOf twinDocs)).
Proof.
  assert (H : Forall scanned (analysesOf twinDocs)).
  { repeat constructor. intros i Hi. vm_compute in Hi.
    destruct Hi as [<-|[<-|[]]]; reflexivity. }
  split; [exact H|]. split; [reflexivity|]. split; [reflexivity|].
  exact (proj2 (proj2 (report_counters (analysesOf twinDocs) [])) H).
Defined.

(** Two generated exports under one export name: two matches, one entry,
    and each of the two references counted once. *)
Example twin_exports_counted_twice :
  matchCount (reportOf twinDocs) = 2 /\
  replacementsOf (analysesOf twinDocs) = [("T:ExportsOutputFnShared", "Nice")] /\
  totalReplacements (reportOf twinDocs) = 2.
Proof.
  repeat split; reflexivity.
Qed.

(** ** The text of a tree determines the tree *)

Lemma wrapParts_nil o c stepback partial :
  wrapParts o c [] stepback partial = o :: joinChars [","%char] partial ++ [c].
Proof.
  now destruct partial.
Qed.

Lemma serialize_compact ind v : serializeData [] ind v = compact v.
Proof.
  unfold compact. revert ind. induction v as [| | | |l IH|l IH|h] using json_ind;
    intros ind; try reflexivity; try rewrite Forall_forall in IH.
  - cbn [serializeData]. rewrite !wrapParts_nil. do 3 f_equal.
    apply map_ext_in. intros x Hx.
    now rewrite (IH x Hx (ind ++ [])), (IH x Hx ([] ++ [])).
  - cbn [serializeData]. rewrite !wrapParts_nil. do 3 f_equal.
    apply map_ext_in. intros kv Hkv.
    now rewrite (IH kv Hkv (ind ++ [])), (IH kv Hkv ([] ++ [])).
Qed.

Lemma wrapParts_gap o c g gap stepback partial :
  wrapParts o c (g :: gap) stepback partial =
  match partial with
  | [] => [o; c]
  | _ =>
      o :: newline :: (stepback ++ g :: gap)
        ++ joinChars (","%char :: newline :: stepback ++ g :: gap) partial
        ++ newline :: stepback ++ [c]
  end.
Proof.
  now destruct partial.
Qed.

Lemma serialize_head gap ind v r :
  exists c t,
    serializeData gap ind v ++ r = c :: t /\ charKind c = Some (kind v).
Proof.
  destruct gap as [|g gap]; [rewrite serialize_compact; apply compact_head|].
  destruct v as [|[]|n|s|l|l|[|name]]; try (now eexists _, _).
  - apply (compact_head (JNum n) r).
  - cbn [serializeData]. rewrite wrapParts_gap.
    destruct (map _ l); now eexists _, _.
  - cbn [serializeData]. rewrite wrapParts_gap.
    destruct (map _ l); now eexists _, _.
Qed.

Lemma serialize_same_kind gap ind a b r1 r2 :
  serializeData gap ind a ++ r1 = serializeData gap ind b ++ r2 ->
  kind a = kind b.
Proof.
  intros H.
  destruct (serialize_head gap ind a r1) as (c1 & t1 & E1 & K1).
  destruct (serialize_head gap ind b r2) as (c2 & t2 & E2 & K2).
  rewrite E1, E2 in H. injection H as -> _. congruence.
Qed.

(** Members separated by a comma and a line break, followed by the line
    break that precedes the closing bracket. *)
Lemma joined_lines_inj {A} (f : A -> list ascii) (sep closing : list ascii) :
  forall l1,
    Forall (fun x => forall y r r',
                noNumHead r -> noNumHead r' ->
                f x ++ r = f y ++ r' -> x = y /\ r = r') l1 ->
    l1 <> [] ->
    forall l2 r1 r2,
      l2 <> [] ->
      joinChars (","%char :: sep) (map f l1) ++ newline :: closing ++ r1 =
      joinChars (","%char :: sep) (map f l2) ++ newline :: closing ++ r2 ->
      l1 = l2 /\ r1 = r2.
Proof.
  induction 1 as [|x l1 Hx HF IH]; intros Hne [|y l2] r1 r2 Hne2 H; try congruence.
  simpl map in H. rewrite !joinChars_cons, <- !app_assoc in H.
  apply Hx in H.
  - destruct H as [-> H].
    destruct l1 as [|x1 l1], l2 as [|y1 l2]; simpl map in H; cbn [app] in H.
    + injection H as H. apply app_inv_head in H. now subst.
    + discriminate H.
    + discriminate H.
    + injection H as H. rewrite <- !app_assoc in H. apply app_inv_head in H.
      apply (IH ltac:(discriminate) (y1 :: l2)) in H; [|discriminate].
      destruct H as [H ->]. now rewrite H.
  - destruct (map f l1); simpl; reflexivity.
  - destruct (map f l2); simpl; reflexivity.
Qed.

Lemma wrapped_tail (o c : ascii) (indent stepback body r : list ascii) :
  (o :: newline :: indent ++ body ++ newline :: stepback ++ [c]) ++ r
  = o :: newline :: indent ++ (body ++ newline :: (stepback ++ [c]) ++ r).
Proof.
  cbn [app]. do 2 f_equal. rewrite <- !app_assoc. cbn [app].
  now rewrite <- app_assoc.
Qed.

Lemma wrapped_lines_inj {A} (f : A -> list ascii) (o c : ascii)
    (indent stepback : list ascii) (l1 l2 : list A) (r1 r2 : list ascii) :
  c <> newline ->
  Forall (fun x => forall y r r',
              noNumHead r -> noNumHead r' ->
              f x ++ r = f y ++ r' -> x = y /\ r = r') l1 ->
  match map f l1 with
  | [] => [o; c]
  | _ => o :: newline :: indent
           ++ joinChars (","%char :: newline :: indent) (map f l1)
           ++ newline :: stepback ++ [c]
  end ++ r1 =
  match map f l2 with
  | [] => [o; c]
  | _ => o :: newline :: indent
           ++ joinChars (","%char :: newline :: indent) (map f l2)
           ++ newline :: stepback ++ [c]
  end ++ r2 ->
  l1 = l2 /\ r1 = r2.
Proof.
  intros Hc HF H. destruct l1 as [|x1 l1], l2 as [|x2 l2].
  - cbn [map app] in H. injection H as ->. now split.
  - cbn [map app] in H. injection H as H _. congruence.
  - cbn [map app] in H. injection H as H _. congruence.
  - change ((o :: newline :: indent
               ++ joinChars (","%char :: newline :: indent) (map f (x1 :: l1))
               ++ newline :: stepback ++ [c]) ++ r1
            = (o :: newline :: indent
               ++ joinChars (","%char :: newline :: indent) (map f (x2 :: l2))
               ++ newline :: stepback ++ [c]) ++ r2) in H.
    rewrite !wrapped_tail in H. injection H as H.
    apply app_inv_head in H.
    apply (joined_lines_inj f (newline :: indent) (stepback ++ [c]) (x1 :: l1) HF
             ltac:(discriminate) (x2 :: l2) r1 r2 ltac:(discriminate)) in H.
    exact H.
Qed.

Lemma serialize_inj_rest g gap a :
  forall ind b r1 r2,
    noNumHead r1 -> noNumHead r2 ->
    serializeData (g :: gap) ind a ++ r1
    = serializeData (g :: gap) ind b ++ r2 ->
    a = b /\ r1 = r2.
Proof.
  induction a as [|b1|n1|s1|l1 IH|l1 IH|h1] using json_ind;
    intros ind b r1 r2 N1 N2 H;
    pose proof (serialize_same_kind _ _ _ _ _ _ H) as K;
    destruct b as [|b2|n2|s2|l2|l2|h2];
    try (destruct b1); try (destruct b2); simpl in K; try discriminate K.
  - simpl in H. injection H as ->. now split.
  - simpl in H. injection H as ->. now split.
  - simpl in H. injection H as ->. now split.
  - simpl in H. apply num_span in H; auto using Z_toString_num.
    destruct H as [H ->]. apply chars_inj, Z_toString_inj in H. now subst.
  - simpl serializeData in H.
    apply QuoteJSONString_inj in H as [-> ->]. now split.
  - cbn [serializeData] in H. rewrite !wrapParts_gap in H.
    apply wrapped_lines_inj in H.
    + destruct H as [-> ->]. now split.
    + discriminate.
    + eapply Forall_impl; [|exact IH]. intros x Hx y r r'. apply Hx.
  - cbn [serializeData] in H. rewrite !wrapParts_gap in H.
    apply wrapped_lines_inj in H.
    + destruct H as [-> ->]. now split.
    + discriminate.
    + clear H. induction IH as [|[k v] l Hv _ IHl]; constructor; [|exact IHl].
      cbn [snd] in Hv. intros [k' v'] r r' Nr Nr' E. cbn [fst snd] in E.
      rewrite <- !app_assoc in E.
      apply QuoteJSONString_inj in E as [-> E].
      cbn [app] in E. injection E as E.
      apply Hv in E; auto. destruct E as [-> ->]. now split.
  - destruct h1 as [|name1], h2 as [|name2]; cbn [serializeData] in H.
    + injection H as ->. now split.
    + unfold QuoteJSONString in H. discriminate H.
    + unfold QuoteJSONString in H. discriminate H.
    + apply (f_equal (@List.tl ascii)) in H. cbn [List.tl app] in H.
      apply QuoteJSONString_inj in H as [-> ->]. now split.
Qed.

(** X16.  Serialization loses nothing on JSON data.  For two values of
    JSON data the comparison of line 94,
    [JSON.stringify(a) === JSON.stringify(b)], holds exactly when the two
    values are the same tree, key order included, or are both
    [undefined]; and two trees of JSON data written with the same
    indentation, as at line 182, give the same text only if they are the
    same tree. *)
Theorem serialization_is_faithful :
  (forall a b : any,
      jsonValue a = true -> jsonValue b = true ->
      (strictEqual (JSON_stringify a) (JSON_stringify b) = true <-> a = b)) /\
  (forall (space : nat) (a b : json),
      jsonData a = true -> jsonData b = true ->
      JSON_stringify_space a space = JSON_stringify_space b space -> a = b).
Proof.
  split; [exact stringify_equal_iff|].
  intros space a b Ha Hb H. unfold JSON_stringify_space in H.
  rewrite (serialize_data _ a Ha), (serialize_data _ b Hb) in H.
  apply (f_equal list_ascii_of_string) in H.
  rewrite !list_ascii_of_string_of_list_ascii in H.
  destruct (repeat " "%char (Nat.min space 10)) as [|g gap].
  - rewrite !serialize_compact in H. now apply compact_inj.
  - destruct (serialize_inj_rest g gap a [] b [] []) as [E _]; simpl; auto.
    now rewrite !app_nil_r.
Qed.

(** Outside JSON data a text no longer determines the tree: a function
    stored by the rewrite leaves no trace in the text. *)
Example function_leaves_no_trace :
  jsonData (JObj [(Fn_ImportValue, JHost (BuiltinFunction "Object"))]) = false /\
  JSON_stringify (Some (JObj [(Fn_ImportValue, JHost (BuiltinFunction "Object"))]))
    = JSON_stringify (Some (JObj [])) /\
  JSON_stringify (Some (JHost (BuiltinFunction "Object"))) = JSON_stringify None.
Proof.
  repeat split; reflexivity.
Qed.
